(** * node-simple-batcher: the batch drivers as schedule-driven machines

    A shallow embedding of [processBatches] and [processPaginatedBatches]
    (src/utils/batchProcessor.ts) together with the types of src/types.ts.

    JavaScript runs the item tasks of one batch as interleaved
    suspensions on a single thread.  Every [await] is a suspension point,
    and which suspended task is resumed next depends on when the promises
    of the caller's functions settle.  The embedding makes that choice
    explicit: a driver is a deterministic machine whose [step] takes the
    position of the task to resume, and a run is the fold of [step] over a
    schedule (a list of such choices).  Quantifying over schedules covers
    every interleaving and, because a schedule may stop anywhere, every
    intermediate point of a run.

    The caller's functions ([processFunction], [fetchPageFunction] and the
    callbacks) are functions from their arguments to the outcome of the
    promise they return: resolved, or rejected with a value.  A function
    that throws is one whose promise is rejected.  They read the state
    they are given and do not change it.  Every call a driver makes is
    recorded, with its arguments, in a trace.  Counters, page numbers and
    sizes are integers. *)

From stdpp Require Import gmap strings list pretty.

Local Open Scope Z_scope.

(** ** JavaScript values *)

(** The values that flow through the drivers without being inspected:
    extension fields of a state, and whatever a caller's function throws.
    An object carries what converting it to a string does, which is up to
    its [toString] and [valueOf]: it yields a string, or it throws. *)
Inductive value :=
| VUndefined
| VNull
| VBool (b : bool)
| VNum (n : Z)
| VStr (s : string)
| VError (name message : string)
| VObject (id : nat) (toString : conversion)
with conversion :=
| Prints (s : string)
| Raises (thrown : value).

(** [{}], which prints as [[object Object]], and [Object.create(null)],
    which has no [toString] and no [valueOf]. *)
Definition plain_object (id : nat) : value := VObject id (Prints "[object Object]").

Definition bare_object (id : nat) : value :=
  VObject id (Raises (VError "TypeError" "Cannot convert object to primitive value")).

(** The outcome of a promise that settles, or of a call that returns or
    throws. *)
Inductive settled (A : Type) :=
| Resolved (a : A)
| Rejected (e : value).
Arguments Resolved {A} a.
Arguments Rejected {A} e.

(** [error instanceof Error] *)
Definition instanceof_Error (v : value) : bool :=
  match v with VError _ _ => true | _ => false end.

(** *** Numbers as strings *)

(** The double nearest to a non-negative integer, ties to even.  Every
    integer below [2 ^ 53] is a double. *)
Definition nearest_double (m : Z) : Z :=
  let excess := Z.log2 m - 52 in
  if excess <=? 0 then m
  else
    let q := Z.shiftr m excess in
    let r := Z.land m (Z.ones excess) in
    let half := Z.shiftl 1 (excess - 1) in
    Z.shiftl (if (half <? r) || ((half =? r) && Z.odd q) then q + 1 else q) excess.

Definition decimal_digits (m : Z) : Z := Z.of_nat (String.length (pretty m)).

(** The decimal with the fewest significant digits that reads back as
    the double [x], and among those the one nearest to [x].  [unit] is the
    weight of the last digit tried. *)
Fixpoint shortest_decimal (fuel : nat) (unit : Z) (x : Z) : Z :=
  match fuel with
  | O => x
  | S fuel =>
      let below := x / unit * unit in
      let above := below + unit in
      let below_ok := nearest_double below =? x in
      let above_ok := nearest_double above =? x in
      if below_ok && above_ok then
        if x - below <? above - x then below
        else if above - x <? x - below then above
        else if Z.even (below / unit) then below else above
      else if below_ok then below
      else if above_ok then above
      else shortest_decimal fuel (unit / 10) x
  end.

Fixpoint strip_zeros (fuel : nat) (m : Z) : Z :=
  match fuel with
  | O => m
  | S fuel => if (m mod 10 =? 0) && negb (m =? 0) then strip_zeros fuel (m / 10) else m
  end.

(** [String(m)] for a positive integer [m]: the digits of the shortest
    decimal, in full up to 21 digits and with an exponent beyond. *)
Definition positive_to_string (m : Z) : string :=
  let x := nearest_double m in
  if 2 ^ 1024 <=? x then "Infinity"
  else
    let n := decimal_digits x in
    let c := shortest_decimal (Z.to_nat n) (10 ^ (n - 1)) x in
    let n := decimal_digits c in
    if n <=? 21 then pretty c
    else
      match pretty (strip_zeros (Z.to_nat n) c) with
      | String d "" => String d "" +:+ "e+" +:+ pretty (n - 1)
      | String d ds => String d ("." +:+ ds) +:+ "e+" +:+ pretty (n - 1)
      | "" => ""
      end.

(** [String(n)] for the number that the integer literal [n] denotes. *)
Definition Number_toString (n : Z) : string :=
  match n with
  | 0 => "0"
  | Z.pos _ => positive_to_string n
  | Z.neg _ => "-" +:+ positive_to_string (- n)
  end.

(** *** Errors *)

(** [String(v)].  An Error prints as [name: message], or as the one of
    the two that is not empty; an object as its conversion has it, which
    may throw. *)
Definition js_String (v : value) : settled string :=
  match v with
  | VUndefined => Resolved "undefined"
  | VNull => Resolved "null"
  | VBool true => Resolved "true"
  | VBool false => Resolved "false"
  | VNum n => Resolved (Number_toString n)
  | VStr s => Resolved s
  | VError "" message => Resolved message
  | VError name "" => Resolved name
  | VError name message => Resolved (name +:+ ": " +:+ message)
  | VObject _ (Prints s) => Resolved s
  | VObject _ (Raises thrown) => Rejected thrown
  end.

(** [new Error(msg)] *)
Definition new_Error (msg : string) : value := VError "Error" msg.

(** [error instanceof Error ? error : new Error(String(error))] *)
Definition as_Error (error : value) : settled value :=
  if instanceof_Error error then Resolved error
  else
    match js_String error with
    | Resolved msg => Resolved (new_Error msg)
    | Rejected thrown => Rejected thrown
    end.

(** [String] can be applied to what the [catch] block may have to wrap. *)
Definition convertible (error : value) : bool :=
  match as_Error error with Resolved _ => true | Rejected _ => false end.

(** ** Numbers *)

(** Numbers handed to the batch callbacks.  [batchNumber] and
    [totalBatches] come out of a division by [batchSize], so they can be
    infinite or NaN. *)
Inductive jsnum :=
| JNum (n : Z)
| JPosInf
| JNegInf
| JNaN.

(** [a / b] on integers, followed by a rounding [round] given as the
    rounding of an exact quotient of integers. *)
Definition js_div_round (round : Z -> Z -> Z) (a b : Z) : jsnum :=
  if b =? 0 then
    if a =? 0 then JNaN else if 0 <? a then JPosInf else JNegInf
  else JNum (round a b).

(** [Math.floor(a / b)] and [Math.ceil(a / b)] *)
Definition js_floor_div : Z -> Z -> jsnum := js_div_round Z.div.
Definition js_ceil_div : Z -> Z -> jsnum :=
  js_div_round (fun a b => - ((- a) `div` b)).

Definition js_succ (x : jsnum) : jsnum :=
  match x with JNum n => JNum (n + 1) | _ => x end.

(** [a % b === 0]: the remainder by zero is NaN, which equals nothing. *)
Definition rem_is_zero (a b : Z) : bool :=
  if b =? 0 then false else Z.rem a b =? 0.


(** [Array.prototype.slice(start, end)]: negative positions count from
    the end, and both are clamped to the array. *)
Definition slice_index (len k : Z) : Z :=
  if k <? 0 then Z.max (len + k) 0 else Z.min k len.

Definition slice {A} (l : list A) (start stop : Z) : list A :=
  let len := Z.of_nat (length l) in
  let from := slice_index len start in
  let to := slice_index len stop in
  take (Z.to_nat (to - from)) (drop (Z.to_nat from) l).

(** ** State (src/types.ts) *)

(** [State] is an open object: the reserved fields and any other key. *)
Abbreviation State := (gmap string value).

(** [state.field || d] for a field that the interface types as a number. *)
Definition num_or (o : option value) (d : Z) : Z :=
  match o with
  | Some (VNum n) => if n =? 0 then d else n
  | _ => d
  end.

(** The outcome of awaiting a callback ([Promise<void> | void]). *)
Inductive completion :=
| Completes
| Throws (e : value).

Record BatchResult := {
  processed : Z;
  failed : Z;
  state : State
}.

Record PageData (T : Type) := {
  items : option (list T);
  results : option (list T);
  pd_totalPages : option Z
}.
Arguments items {T} _.
Arguments results {T} _.
Arguments pd_totalPages {T} _.

(** [(pageData.items || pageData.results || [])]: an array is truthy even
    when it is empty. *)
Definition page_items {T} (pd : PageData T) : list T :=
  match items pd with
  | Some l => l
  | None => match results pd with Some l => l | None => [] end
  end.

(** ** Options (src/types.ts) *)

(** The options of [processBatches], after the defaults of its
    destructuring have been applied. *)
Module BatchOptions.
Record t (T R : Type) := Make {
  batchSize : Z;
  concurrencyLimit : Z;
  onBatchStart : jsnum -> jsnum -> list T -> State -> completion;
  onBatchComplete : jsnum -> jsnum -> list T -> Z -> Z -> State -> completion;
  onItemSuccess : T -> R -> Z -> State -> completion;
  onItemError : T -> value -> Z -> State -> completion;
  onStateUpdate : State -> option (jsnum * jsnum) -> completion;
  stateUpdateInterval : Z;
  initialState : State
}.
Arguments Make {T R}.
Arguments batchSize {T R}.
Arguments concurrencyLimit {T R}.
Arguments onBatchStart {T R}.
Arguments onBatchComplete {T R}.
Arguments onItemSuccess {T R}.
Arguments onItemError {T R}.
Arguments onStateUpdate {T R}.
Arguments stateUpdateInterval {T R}.
Arguments initialState {T R}.

(** [options = {}] *)
Definition defaults {T R : Type} : t T R := {|
  batchSize := 20;
  concurrencyLimit := 10;
  onBatchStart := fun _ _ _ _ => Completes;
  onBatchComplete := fun _ _ _ _ _ _ => Completes;
  onItemSuccess := fun _ _ _ _ => Completes;
  onItemError := fun _ _ _ _ => Completes;
  onStateUpdate := fun _ _ => Completes;
  stateUpdateInterval := 5;
  initialState := ∅
|}.

(** No callback throws or rejects. *)
Definition callbacks_complete {T R : Type} (o : t T R) : Prop :=
  (forall n total batch st, onBatchStart o n total batch st = Completes) /\
  (forall n total batch p f st, onBatchComplete o n total batch p f st = Completes) /\
  (forall item result n st, onItemSuccess o item result n st = Completes) /\
  (forall item error n st, onItemError o item error n st = Completes) /\
  (forall st info, onStateUpdate o st info = Completes).
End BatchOptions.

(** The options of [processPaginatedBatches]. *)
Module PaginatedBatchOptions.
Record t (T R : Type) := Make {
  initialPage : Z;
  concurrencyLimit : Z;
  onPageStart : Z -> Z -> State -> completion;
  onPageComplete : Z -> Z -> Z -> Z -> State -> completion;
  onItemSuccess : T -> R -> Z -> State -> completion;
  onItemError : T -> value -> Z -> State -> completion;
  onStateUpdate : State -> completion;
  stateUpdateInterval : Z;
  initialState : State
}.
Arguments Make {T R}.
Arguments initialPage {T R}.
Arguments concurrencyLimit {T R}.
Arguments onPageStart {T R}.
Arguments onPageComplete {T R}.
Arguments onItemSuccess {T R}.
Arguments onItemError {T R}.
Arguments onStateUpdate {T R}.
Arguments stateUpdateInterval {T R}.
Arguments initialState {T R}.

Definition defaults {T R : Type} : t T R := {|
  initialPage := 1;
  concurrencyLimit := 10;
  onPageStart := fun _ _ _ => Completes;
  onPageComplete := fun _ _ _ _ _ => Completes;
  onItemSuccess := fun _ _ _ _ => Completes;
  onItemError := fun _ _ _ _ => Completes;
  onStateUpdate := fun _ => Completes;
  stateUpdateInterval := 5;
  initialState := ∅
|}.

(** No callback throws or rejects. *)
Definition callbacks_complete {T R : Type} (o : t T R) : Prop :=
  (forall page total st, onPageStart o page total st = Completes) /\
  (forall page total pageProcessed n st,
      onPageComplete o page total pageProcessed n st = Completes) /\
  (forall item result n st, onItemSuccess o item result n st = Completes) /\
  (forall item error n st, onItemError o item error n st = Completes) /\
  (forall st, onStateUpdate o st = Completes).
End PaginatedBatchOptions.

Section Drivers.

Context {T R : Type}.

(** [new Date().toISOString()], read from an injected clock.  The clock
    is indexed by the number of callback events so far. *)
Variable clock : nat -> string.

(** ** Observable events *)

Inductive event :=
| EvBatchStart (batchNumber totalBatches : jsnum) (batch : list T) (st : State)
| EvBatchComplete (batchNumber totalBatches : jsnum) (batch : list T)
    (nprocessed nfailed : Z) (st : State)
| EvPageStart (page npages : Z) (st : State)
| EvFetchPage (page : Z) (st : State)
| EvPageComplete (page npages pageProcessed nprocessed : Z) (st : State)
| EvProcess (item : T) (index : nat) (st : State)
| EvItemSuccess (item : T) (result : R) (nprocessed : Z) (st : State)
| EvItemError (item : T) (error : value) (nfailed : Z) (st : State)
| EvStateUpdate (st : State) (info : option (jsnum * jsnum))
| EvConsoleLog (page : Z).

(** The variables the closures of a driver share. *)
Record vars := Vars {
  totalProcessed : Z;
  totalFailed : Z;
  currentState : State;
  trace : list event  (* newest first *)
}.

Definition log (e : event) (v : vars) : vars :=
  Vars (totalProcessed v) (totalFailed v) (currentState v) (e :: trace v).

Definition set_state (s : State) (v : vars) : vars :=
  Vars (totalProcessed v) (totalFailed v) s (trace v).

Definition incr_processed (v : vars) : vars :=
  Vars (totalProcessed v + 1) (totalFailed v) (currentState v) (trace v).

Definition incr_failed (v : vars) : vars :=
  Vars (totalProcessed v) (totalFailed v + 1) (currentState v) (trace v).

(** [{ ...currentState, totalProcessed, totalFailed, lastUpdated }] *)
Definition snapshot (v : vars) : State :=
  <["lastUpdated" := VStr (clock (length (trace v)))]>
    (<["totalFailed" := VNum (totalFailed v)]>
       (<["totalProcessed" := VNum (totalProcessed v)]> (currentState v))).


(** ** Observations on a trace *)

Definition is_item_success (e : event) : bool :=
  match e with EvItemSuccess _ _ _ _ => true | _ => false end.

Definition is_item_error (e : event) : bool :=
  match e with EvItemError _ _ _ _ => true | _ => false end.

Definition is_state_update (e : event) : bool :=
  match e with EvStateUpdate _ _ => true | _ => false end.


Definition is_page_complete (e : event) : bool :=
  match e with EvPageComplete _ _ _ _ _ => true | _ => false end.

Definition count (f : event -> bool) (tr : list event) : nat :=
  length (List.filter f tr).

(** Item-completion events: a success or an error reported for an item. *)
Definition completions (tr : list event) : nat :=
  (count is_item_success tr + count is_item_error tr)%nat.

(** The calls of [processFunction], newest first. *)
Definition calls (tr : list event) : list (T * nat) :=
  omap (fun e => match e with EvProcess item index _ => Some (item, index) | _ => None end) tr.

(** The pages handed to [fetchPage] and to [onPageComplete], newest first. *)
Definition pages_fetched (tr : list event) : list Z :=
  omap (fun e => match e with EvFetchPage page _ => Some page | _ => None end) tr.

Definition pages_completed (tr : list event) : list Z :=
  omap (fun e => match e with EvPageComplete page _ _ _ _ => Some page | _ => None end) tr.

(** The events an item task produces. *)
Definition item_event (e : event) : Prop :=
  match e with
  | EvProcess _ _ _ | EvItemSuccess _ _ _ _ | EvItemError _ _ _ _ | EvStateUpdate _ _ => True
  | _ => False
  end.

(** [onItemError] was given an Error instance. *)
Definition error_wrapped (e : event) : Prop :=
  match e with
  | EvItemError _ error _ _ => instanceof_Error error = true
  | _ => True
  end.

(** The fields a snapshot replacement writes. *)
Definition counter_fields : list string := ["totalProcessed"; "totalFailed"; "lastUpdated"].
Definition cursor_fields : list string := ["currentPage"; "totalPages"].

(** [s'] has the fields of [s] outside [keys], unchanged. *)
Definition frame (keys : list string) (s s' : State) : Prop :=
  forall k, k ∉ keys -> s' !! k = s !! k.

(** How the shared variables may move between two points of a run: the
    trace grows, each counter grows by the number of its events, and the
    state changes only at [keys]. *)
Definition progress (keys : list string) (P : event -> Prop) (v v' : vars) : Prop :=
  exists new,
    trace v' = new ++ trace v /\
    Forall P new /\
    totalProcessed v' = totalProcessed v + Z.of_nat (count is_item_success new) /\
    totalFailed v' = totalFailed v + Z.of_nat (count is_item_error new) /\
    frame keys (currentState v) (currentState v').

(** What holds between any two points of a run, rejected or not: the
    trace grows and the state changes only at [keys].  A [catch] block
    that fails has counted the failure and called nothing. *)
Definition advance (keys : list string) (P : event -> Prop) (v v' : vars) : Prop :=
  exists new,
    trace v' = new ++ trace v /\
    Forall P new /\
    frame keys (currentState v) (currentState v').


(** What [processFunction] rejects with is an Error or can be converted
    to a string. *)
Definition rejections_convertible (processFunction : T -> nat -> State -> settled R) : Prop :=
  forall item index st error,
    processFunction item index st = Rejected error -> convertible error = true.

(** ** The item task *)

(** Where a task of the batch is suspended.  The phase holds what the
    awaited promise settles to; that is fixed by the call that made the
    promise, and the schedule only decides when the task goes on. *)
Inductive phase :=
| AwaitProcess (o : settled R)       (* await processFunction(...) *)
| AwaitItemSuccess (c : completion)  (* await onItemSuccess(...) *)
| AwaitStateUpdate (c : completion)  (* await onStateUpdate(...) in the task *)
| AwaitItemError (c : completion).   (* await onItemError(...) *)

Record task := Task {
  t_item : T;
  t_index : nat;
  t_phase : phase
}.

(** What resuming a task leads to: the next suspension, the task's
    promise resolving, or it rejecting. *)
Inductive resumed :=
| Suspended (ph : phase)
| Settled
| TaskRejected (e : value).

Section ItemTask.

(** The task body is the same text in both drivers (the arrow function
    passed to [limit]); the drivers differ in what they pass to
    [onStateUpdate] after the state. *)
Variable processFunction : T -> nat -> State -> settled R.
Variable onItemSuccess : T -> R -> Z -> State -> completion.
Variable onItemError : T -> value -> Z -> State -> completion.
Variable onStateUpdate : State -> option (jsnum * jsnum) -> completion.
Variable stateUpdateInterval : Z.
Variable info : option (jsnum * jsnum).
Variable batch_length : Z.

(** The [catch] block: [totalFailed++], then [onItemError] with the
    caught value as an [Error].  When [String] throws, the count has been
    made, [onItemError] is not called and the task is rejected with what
    [String] threw. *)
Definition on_catch (item : T) (error : value) (v : vars) : vars * resumed :=
  let v := incr_failed v in
  match as_Error error with
  | Rejected thrown => (v, TaskRejected thrown)
  | Resolved e =>
      let c := onItemError item e (totalFailed v) (currentState v) in
      (log (EvItemError item e (totalFailed v) (currentState v)) v,
       Suspended (AwaitItemError c))
  end.

(** Run a suspended task up to its next suspension.  [bp] is the
    per-batch success counter ([batchProcessed], [pageProcessed]). *)
Definition resume_task (tk : task) (bp : Z) (v : vars) : Z * (vars * resumed) :=
  match t_phase tk with
  | AwaitProcess (Resolved result) =>
      let v := incr_processed v in
      let bp := bp + 1 in
      let c := onItemSuccess (t_item tk) result (totalProcessed v) (currentState v) in
      (bp, (log (EvItemSuccess (t_item tk) result (totalProcessed v) (currentState v)) v,
            Suspended (AwaitItemSuccess c)))
  | AwaitProcess (Rejected error) => (bp, on_catch (t_item tk) error v)
  | AwaitItemSuccess Completes =>
      if rem_is_zero bp stateUpdateInterval || (bp =? batch_length) then
        let v := set_state (snapshot v) v in
        let c := onStateUpdate (currentState v) info in
        (bp, (log (EvStateUpdate (currentState v) info) v,
              Suspended (AwaitStateUpdate c)))
      else (bp, (v, Settled))
  | AwaitItemSuccess (Throws error) => (bp, on_catch (t_item tk) error v)
  | AwaitStateUpdate Completes => (bp, (v, Settled))
  | AwaitStateUpdate (Throws error) => (bp, on_catch (t_item tk) error v)
  | AwaitItemError Completes => (bp, (v, Settled))
  | AwaitItemError (Throws error) => (bp, (v, TaskRejected error))
  end.

(** ** The concurrency gate *)

(** Modelled from the spec: the bounded concurrency gate is the package
    p-limit, which is imported by the drivers and is not part of this
    repository.  It takes a ceiling, which must be a positive integer,
    runs a submitted task at once while fewer than the ceiling are
    running, queues the others, and starts the oldest queued task when a
    running one settles. *)
Record gate := Gate {
  ceiling : nat;
  queue : list (T * nat);   (* submitted, not started; oldest first *)
  active : list task        (* started, not settled *)
}.

(** Modelled from the spec: [pLimit(concurrencyLimit)] of p-limit.  The
    ceiling is a positive integer; anything else is refused with a
    TypeError when the gate is made. *)
Definition pLimit (concurrency : Z) : settled gate :=
  if 1 <=? concurrency then Resolved (Gate (Z.to_nat concurrency) [] [])
  else Rejected (VError "TypeError" "Expected `concurrency` to be a number from 1 and up").

(** Modelled from the spec: how p-limit starts the queued tasks,
    oldest first, while slots are free.  A task that starts runs the arrow
    function of the driver up to its first [await]: it calls
    [processFunction(item, index, currentState)] and suspends on it. *)
Fixpoint start_queued (slots : nat) (c : nat) (q : list (T * nat)) (act : list task) (v : vars)
  : gate * vars :=
  match slots, q with
  | S slots, (item, index) :: q =>
      let o := processFunction item index (currentState v) in
      start_queued slots c q (act ++ [Task item index (AwaitProcess o)])
        (log (EvProcess item index (currentState v)) v)
  | _, _ => (Gate c q act, v)
  end.

(** [batch.map((item, index) => limit(...))] on a fresh gate *)
Definition submit_all (g : gate) (batch : list T) (v : vars) : gate * vars :=
  start_queued (ceiling g) (ceiling g) (imap (fun index item => (item, index)) batch) [] v.

(** The state of one batch (or page) while its tasks run. *)
Record running := Running {
  r_counter : Z;     (* batchProcessed / pageProcessed *)
  r_gate : gate;
  r_vars : vars
}.

(** Resume the started task at position [choice] (modulo their number).
    A task that settles frees its slot for the oldest queued one.  [inr]
    is a task rejecting, which rejects [Promise.all] and with it the
    driver. *)
Definition gate_step (choice : nat) (r : running) : running + value * vars :=
  let g := r_gate r in
  let k := (choice `mod` length (active g))%nat in
  match active g !! k with
  | None => inl r
  | Some tk =>
      let '(bp, (v, res)) := resume_task tk (r_counter r) (r_vars r) in
      match res with
      | Suspended ph =>
          inl (Running bp
                 (Gate (ceiling g) (queue g)
                    (<[k := Task (t_item tk) (t_index tk) ph]> (active g))) v)
      | Settled =>
          let act := delete k (active g) in
          let '(g', v') := start_queued (ceiling g - length act)%nat (ceiling g) (queue g) act v in
          inl (Running bp g' v')
      | TaskRejected e => inr (e, v)
      end
  end.

(** *** Observations on a running batch *)

(** Each suspended task holds the outcome of the call it is waiting on. *)
Definition task_sound (tk : task) : Prop :=
  match t_phase tk with
  | AwaitProcess o => exists st, o = processFunction (t_item tk) (t_index tk) st
  | AwaitItemSuccess c => exists result n st, c = onItemSuccess (t_item tk) result n st
  | AwaitStateUpdate c => exists st, c = onStateUpdate st info
  | AwaitItemError c => exists e n st, c = onItemError (t_item tk) e n st
  end.

(** Whatever a [catch] block of the batch can receive is an Error or
    can be converted to a string: the rejections of [processFunction], and
    what [onItemSuccess] and [onStateUpdate] throw. *)
Definition catches_convertible : Prop :=
  (forall item index st error,
      processFunction item index st = Rejected error -> convertible error = true) /\
  (forall item result n st error,
      onItemSuccess item result n st = Throws error -> convertible error = true) /\
  (forall st error, onStateUpdate st info = Throws error -> convertible error = true).

Definition awaits_process (tk : task) : nat :=
  match t_phase tk with AwaitProcess _ => 1 | _ => 0 end.

Definition awaits_rejection (tk : task) : nat :=
  match t_phase tk with AwaitProcess (Rejected _) => 1 | _ => 0 end.

Definition awaits_item_success (tk : task) : nat :=
  match t_phase tk with AwaitItemSuccess _ => 1 | _ => 0 end.

(** Items of the batch whose [processFunction] outcome is still to be
    counted: queued, or started and suspended on the call. *)
Definition pending (g : gate) : nat :=
  (length (queue g) + sum_list_with awaits_process (active g))%nat.

(** Calls of [processFunction] in the trace that reject. *)
Definition is_rejected_call (e : event) : bool :=
  match e with
  | EvProcess item index st =>
      match processFunction item index st with Rejected _ => true | Resolved _ => false end
  | _ => false
  end.


(** An upper bound on the resumptions a task still needs. *)
Definition task_weight (tk : task) : nat :=
  match t_phase tk with
  | AwaitProcess _ => 4
  | AwaitItemSuccess _ => 3
  | AwaitStateUpdate _ => 2
  | AwaitItemError _ => 1
  end.

Definition gate_weight (g : gate) : nat :=
  (4 * length (queue g) + sum_list_with task_weight (active g))%nat.

(** What holds of a batch of [batch] while it runs. *)
Record engine_inv (batch : list T) (r : running) : Prop := {
  ei_sound : Forall task_sound (active (r_gate r));
  ei_ceiling : (1 <= ceiling (r_gate r))%nat;
  ei_bound : (length (active (r_gate r)) <= ceiling (r_gate r))%nat;
  ei_full : queue (r_gate r) <> [] -> length (active (r_gate r)) = ceiling (r_gate r);
  ei_counter :
    Z.of_nat (sum_list_with awaits_item_success (active (r_gate r))) <= r_counter r;
  ei_fifo : exists n older,
      queue (r_gate r) = drop n (imap (fun index item => (item, index)) batch) /\
      calls (trace (r_vars r)) =
        rev (take n (imap (fun index item => (item, index)) batch)) ++ older
}.

End ItemTask.

(** ** processBatches *)

Section ProcessBatches.

(** The array is the caller's; it is taken as it is at the call and not
    changed while the driver runs. *)
Variable items : list T.
Variable processFunction : T -> nat -> State -> settled R.
Variable options : BatchOptions.t T R.

Import BatchOptions.

Definition totalBatches : jsnum :=
  js_ceil_div (Z.of_nat (length items)) (batchSize options).

(** Where the driver is: at the test of the [for] loop with index [i],
    inside [await Promise.all(...)] for the batch that starts at [i],
    returned, or rejected.  A driver that is rejected is not followed any
    further: its promise has settled, whatever the tasks that were still
    running go on to do. *)
Inductive machine :=
| LoopHead (i : Z) (v : vars)
| InBatch (i : Z) (batch : list T) (batchNumber : jsnum) (r : running)
| Finished (res : BatchResult) (v : vars)
| Aborted (e : value) (v : vars).

Definition m_vars (m : machine) : vars :=
  match m with
  | LoopHead _ v | Finished _ v | Aborted _ v => v
  | InBatch _ _ _ r => r_vars r
  end.

Definition processBatches_init : machine :=
  LoopHead 0
    (Vars (num_or (initialState options !! "totalProcessed") 0)
          (num_or (initialState options !! "totalFailed") 0)
          (initialState options)
          []).

(** From the test of the loop to [Promise.all]: the batch is sliced,
    [onBatchStart] awaited, the gate made and every item submitted.  No
    task is running meanwhile, so the driver is alone.  When the test
    fails the driver returns. *)
Definition batch_begin (i : Z) (v : vars) : machine :=
  if i <? Z.of_nat (length items) then
    let batch := slice items i (i + batchSize options) in
    let batchNumber := js_succ (js_floor_div i (batchSize options)) in
    let c := onBatchStart options batchNumber totalBatches batch (currentState v) in
    let v := log (EvBatchStart batchNumber totalBatches batch (currentState v)) v in
    match c with
    | Throws e => Aborted e v
    | Completes =>
        match pLimit (concurrencyLimit options) with
        | Rejected e => Aborted e v
        | Resolved limit =>
            let '(g, v) := submit_all processFunction limit batch v in
            InBatch i batch batchNumber (Running 0 g v)
        end
    end
  else
    Finished {| processed := totalProcessed v;
                failed := totalFailed v;
                state := currentState v |} v.

(** After [Promise.all]: the snapshot at the end of the batch,
    [onStateUpdate], [onBatchComplete], and the loop increment. *)
Definition batch_end (i : Z) (batch : list T) (batchNumber : jsnum) (v : vars) : machine :=
  let v := set_state (snapshot v) v in
  let c := onStateUpdate options (currentState v) (Some (batchNumber, totalBatches)) in
  let v := log (EvStateUpdate (currentState v) (Some (batchNumber, totalBatches))) v in
  match c with
  | Throws e => Aborted e v
  | Completes =>
      let c := onBatchComplete options batchNumber totalBatches batch
                 (totalProcessed v) (totalFailed v) (currentState v) in
      let v := log (EvBatchComplete batchNumber totalBatches batch
                      (totalProcessed v) (totalFailed v) (currentState v)) v in
      match c with
      | Throws e => Aborted e v
      | Completes => LoopHead (i + batchSize options) v
      end
  end.

(** One step: the driver's own code when no task is running, else the
    resumption of the task the schedule picks. *)
Definition batch_step (choice : nat) (m : machine) : machine :=
  match m with
  | LoopHead i v => batch_begin i v
  | InBatch i batch batchNumber r =>
      match active (r_gate r) with
      | [] => batch_end i batch batchNumber (r_vars r)
      | _ :: _ =>
          match gate_step processFunction (onItemSuccess options) (onItemError options)
                  (onStateUpdate options) (stateUpdateInterval options)
                  (Some (batchNumber, totalBatches)) (Z.of_nat (length batch))
                  choice r with
          | inl r => InBatch i batch batchNumber r
          | inr (e, v) => Aborted e v
          end
      end
  | Finished _ _ | Aborted _ _ => m
  end.

(** A run of [processBatches] under a schedule. *)
Definition processBatches (schedule : list nat) : machine :=
  fold_left (fun m choice => batch_step choice m) schedule processBatches_init.

(** *** Observations on the machine *)

(** Item tasks that have started and not settled. *)
Definition in_flight (m : machine) : nat :=
  match m with
  | InBatch _ _ _ r => length (active (r_gate r))
  | _ => 0%nat
  end.

(** Holds at every point of every run. *)
Definition batch_inv (m : machine) : Prop :=
  match m with
  | InBatch i batch batchNumber r =>
      engine_inv processFunction (onItemSuccess options) (onItemError options)
        (onStateUpdate options) (Some (batchNumber, totalBatches)) batch r /\
      ceiling (r_gate r) = Z.to_nat (concurrencyLimit options)
  | Finished res v =>
      res = {| processed := totalProcessed v;
               failed := totalFailed v;
               state := currentState v |}
  | _ => True
  end.

(** Where the loop is, when [batchSize] is positive. *)
Definition batch_pos (m : machine) : Prop :=
  match m with
  | LoopHead i _ => 0 <= i
  | InBatch i batch _ _ =>
      0 <= i < Z.of_nat (length items) /\
      Z.of_nat (length batch) = Z.min (batchSize options) (Z.of_nat (length items) - i)
  | _ => True
  end.

(** Where the loop is, when [batchSize] is not positive: it never gets
    past the first item. *)
Definition batch_stuck (m : machine) : Prop :=
  match m with
  | LoopHead i _ | InBatch i _ _ _ => i <= 0
  | Finished _ _ => items = []
  | Aborted _ _ => True
  end.

(** The items counted so far, and the rejections reported so far. *)
Definition batch_account (m : machine) : Prop :=
  let seed := num_or (initialState options !! "totalProcessed") 0
              + num_or (initialState options !! "totalFailed") 0 in
  let balanced (v : vars) (waiting : nat) :=
    (count is_item_error (trace v) + waiting)%nat
    = count (is_rejected_call processFunction) (trace v) in
  match m with
  | LoopHead i v =>
      totalProcessed v + totalFailed v = seed + Z.min i (Z.of_nat (length items)) /\
      balanced v 0%nat
  | InBatch i batch _ r =>
      totalProcessed (r_vars r) + totalFailed (r_vars r) + Z.of_nat (pending (r_gate r))
        = seed + i + Z.of_nat (length batch) /\
      balanced (r_vars r) (sum_list_with awaits_rejection (active (r_gate r)))
  | Finished res v =>
      processed res + failed res = seed + Z.of_nat (length items) /\
      balanced v 0%nat
  | Aborted _ _ => True
  end.

(** An upper bound on the steps left, when [batchSize] is positive. *)
Definition batch_measure (m : machine) : nat :=
  match m with
  | LoopHead i _ => (1 + 6 * Z.to_nat (Z.of_nat (length items) - i))%nat
  | InBatch i batch _ r =>
      (2 + 6 * Z.to_nat (Z.of_nat (length items) - i - Z.of_nat (length batch))
       + gate_weight (r_gate r))%nat
  | _ => 0%nat
  end.


Definition is_finished (m : machine) : Prop :=
  match m with Finished _ _ => True | _ => False end.

Definition is_aborted (m : machine) : Prop :=
  match m with Aborted _ _ => True | _ => False end.

End ProcessBatches.

(** ** processPaginatedBatches *)

Section ProcessPaginatedBatches.

Variable fetchPageFunction : Z -> State -> settled (PageData T).
Variable processFunction : T -> nat -> State -> settled R.
Variable options : PaginatedBatchOptions.t T R.

Import PaginatedBatchOptions.

(** Where the driver is: at the test of the [while] loop, inside
    [await Promise.all(...)] for the items of a page, returned, or
    rejected. *)
Inductive pmachine :=
| PageLoop (currentPage totalPages : Z) (v : vars)
| InPage (currentPage totalPages : Z) (page : list T) (r : running)
| PFinished (res : BatchResult) (v : vars)
| PAborted (e : value) (v : vars).

Definition pm_vars (m : pmachine) : vars :=
  match m with
  | PageLoop _ _ v | PFinished _ v | PAborted _ v => v
  | InPage _ _ _ r => r_vars r
  end.

Definition processPaginatedBatches_init : pmachine :=
  let init := initialState options in
  let currentPage := num_or (init !! "currentPage") (initialPage options) in
  let totalPages := num_or (init !! "totalPages") 1 in
  let totalProcessed := num_or (init !! "totalProcessed") 0 in
  let totalFailed := num_or (init !! "totalFailed") 0 in
  PageLoop currentPage totalPages
    (Vars totalProcessed totalFailed
       (<["totalFailed" := VNum totalFailed]>
          (<["totalProcessed" := VNum totalProcessed]>
             (<["totalPages" := VNum totalPages]>
                (<["currentPage" := VNum currentPage]> init))))
       []).

(** [pageData.totalPages && pageData.totalPages !== totalPages] *)
Definition totalPages_changed (fetched : option Z) (totalPages : Z) : option Z :=
  match fetched with
  | Some n => if (n =? 0) || (n =? totalPages) then None else Some n
  | None => None
  end.

(** From [const items = ...] on: an empty page moves the cursor and
    goes back to the test; otherwise the gate is made and every item of
    the page submitted. *)
Definition page_items_step (currentPage totalPages : Z) (pageData : PageData T)
    (v : vars) : pmachine :=
  let page := page_items pageData in
  match page with
  | [] =>
      let v := log (EvConsoleLog currentPage) v in
      let currentPage := currentPage + 1 in
      let v := set_state (<["currentPage" := VNum currentPage]> (currentState v)) v in
      let c := onStateUpdate options (currentState v) in
      let v := log (EvStateUpdate (currentState v) None) v in
      match c with
      | Throws e => PAborted e v
      | Completes => PageLoop currentPage totalPages v
      end
  | _ :: _ =>
      match pLimit (concurrencyLimit options) with
      | Rejected e => PAborted e v
      | Resolved limit =>
          let '(g, v) := submit_all processFunction limit page v in
          InPage currentPage totalPages page (Running 0 g v)
      end
  end.

(** From the test of the loop on: [onPageStart], the fetch, and the
    fetched [totalPages].  When the test fails the driver returns. *)
Definition page_begin (currentPage totalPages : Z) (v : vars) : pmachine :=
  if currentPage <=? totalPages then
    let c := onPageStart options currentPage totalPages (currentState v) in
    let v := log (EvPageStart currentPage totalPages (currentState v)) v in
    match c with
    | Throws e => PAborted e v
    | Completes =>
        let fetched := fetchPageFunction currentPage (currentState v) in
        let v := log (EvFetchPage currentPage (currentState v)) v in
        match fetched with
        | Rejected e => PAborted e v
        | Resolved pageData =>
            match totalPages_changed (pd_totalPages pageData) totalPages with
            | Some totalPages =>
                let v := set_state (<["totalPages" := VNum totalPages]> (currentState v)) v in
                let c := onStateUpdate options (currentState v) in
                let v := log (EvStateUpdate (currentState v) None) v in
                match c with
                | Throws e => PAborted e v
                | Completes => page_items_step currentPage totalPages pageData v
                end
            | None => page_items_step currentPage totalPages pageData v
            end
        end
    end
  else
    PFinished {| processed := totalProcessed v;
                 failed := totalFailed v;
                 state := currentState v |} v.

(** After [Promise.all]: the cursor moves, then the snapshot at the end
    of the page, [onStateUpdate] and [onPageComplete]. *)
Definition page_end (currentPage totalPages : Z) (pageProcessed : Z) (v : vars) : pmachine :=
  let currentPage := currentPage + 1 in
  let v := set_state (<["currentPage" := VNum currentPage]> (snapshot v)) v in
  let c := onStateUpdate options (currentState v) in
  let v := log (EvStateUpdate (currentState v) None) v in
  match c with
  | Throws e => PAborted e v
  | Completes =>
      let c := onPageComplete options (currentPage - 1) totalPages pageProcessed
                 (totalProcessed v) (currentState v) in
      let v := log (EvPageComplete (currentPage - 1) totalPages pageProcessed
                      (totalProcessed v) (currentState v)) v in
      match c with
      | Throws e => PAborted e v
      | Completes => PageLoop currentPage totalPages v
      end
  end.

Definition page_step (choice : nat) (m : pmachine) : pmachine :=
  match m with
  | PageLoop currentPage totalPages v => page_begin currentPage totalPages v
  | InPage currentPage totalPages page r =>
      match active (r_gate r) with
      | [] => page_end currentPage totalPages (r_counter r) (r_vars r)
      | _ :: _ =>
          match gate_step processFunction (onItemSuccess options) (onItemError options)
                  (fun st _ => onStateUpdate options st) (stateUpdateInterval options)
                  None (Z.of_nat (length page))
                  choice r with
          | inl r => InPage currentPage totalPages page r
          | inr (e, v) => PAborted e v
          end
      end
  | PFinished _ _ | PAborted _ _ => m
  end.

(** A run of [processPaginatedBatches] under a schedule. *)
Definition processPaginatedBatches (schedule : list nat) : pmachine :=
  fold_left (fun m choice => page_step choice m) schedule processPaginatedBatches_init.

(** *** Observations on the machine *)

Definition p_in_flight (m : pmachine) : nat :=
  match m with
  | InPage _ _ _ r => length (active (r_gate r))
  | _ => 0%nat
  end.

Definition is_pfinished (m : pmachine) : Prop :=
  match m with PFinished _ _ => True | _ => False end.

Definition is_paborted (m : pmachine) : Prop :=
  match m with PAborted _ _ => True | _ => False end.

(** Holds at every point of every run. *)
Definition page_inv (m : pmachine) : Prop :=
  match m with
  | InPage _ _ page r =>
      engine_inv processFunction (onItemSuccess options) (onItemError options)
        (fun st _ => onStateUpdate options st) None page r /\
      ceiling (r_gate r) = Z.to_nat (concurrencyLimit options)
  | PFinished res v =>
      res = {| processed := totalProcessed v;
               failed := totalFailed v;
               state := currentState v |}
  | _ => True
  end.

(** The number of items on the page a fetch returned. *)
Definition fetched_items (e : event) : nat :=
  match e with
  | EvFetchPage page st =>
      match fetchPageFunction page st with
      | Resolved pageData => length (page_items pageData)
      | Rejected _ => 0%nat
      end
  | _ => 0%nat
  end.

(** The items of all the pages visited so far. *)
Definition visited_items (tr : list event) : nat := sum_list_with fetched_items tr.

(** The items counted so far, and the rejections reported so far. *)
Definition page_account (m : pmachine) : Prop :=
  let seed := num_or (initialState options !! "totalProcessed") 0
              + num_or (initialState options !! "totalFailed") 0 in
  let balanced (v : vars) (waiting : nat) :=
    (count is_item_error (trace v) + waiting)%nat
    = count (is_rejected_call processFunction) (trace v) in
  match m with
  | PageLoop _ _ v =>
      totalProcessed v + totalFailed v = seed + Z.of_nat (visited_items (trace v)) /\
      balanced v 0%nat
  | InPage _ _ _ r =>
      totalProcessed (r_vars r) + totalFailed (r_vars r) + Z.of_nat (pending (r_gate r))
        = seed + Z.of_nat (visited_items (trace (r_vars r))) /\
      balanced (r_vars r) (sum_list_with awaits_rejection (active (r_gate r)))
  | PFinished res v =>
      processed res + failed res = seed + Z.of_nat (visited_items (trace v)) /\
      balanced v 0%nat
  | PAborted _ _ => True
  end.

(** A run is rejected at a fetch that rejected. *)
Definition abort_cause (m : pmachine) : Prop :=
  match m with
  | PAborted e v =>
      exists page st tr,
        trace v = EvFetchPage page st :: tr /\
        fetchPageFunction page st = Rejected e
  | _ => True
  end.

(** Every fetch resolves to a page of [k] items that announces [n] pages. *)
Definition uniform_pages (n : Z) (k : nat) : Prop :=
  forall page st, exists pageData,
    fetchPageFunction page st = Resolved pageData /\
    pd_totalPages pageData = Some n /\
    length (page_items pageData) = k.

(** Where the loop is when the pages are uniform: pages [1 .. page - 1]
    were fetched and completed, in that order. *)
Definition paged_inv (n : Z) (k : nat) (m : pmachine) : Prop :=
  match m with
  | PageLoop page total v =>
      1 <= page <= n + 1 /\ (total = n \/ (page = 1 /\ total = 1)) /\
      pages_fetched (trace v) = rev (seqZ 1 (page - 1)) /\
      pages_completed (trace v) = rev (seqZ 1 (page - 1))
  | InPage page total items r =>
      1 <= page <= n /\ total = n /\ length items = k /\
      pages_fetched (trace (r_vars r)) = rev (seqZ 1 page) /\
      pages_completed (trace (r_vars r)) = rev (seqZ 1 (page - 1))
  | PFinished _ v =>
      pages_fetched (trace v) = rev (seqZ 1 n) /\
      pages_completed (trace v) = rev (seqZ 1 n)
  | PAborted _ _ => True
  end.

(** An upper bound on the steps left when the pages are uniform. *)
Definition paged_measure (n : Z) (k : nat) (m : pmachine) : nat :=
  match m with
  | PageLoop page _ _ => (1 + (2 + 4 * k) * Z.to_nat (n + 1 - page))%nat
  | InPage page _ _ r => (2 + (2 + 4 * k) * Z.to_nat (n - page) + gate_weight (r_gate r))%nat
  | _ => 0%nat
  end.

End ProcessPaginatedBatches.

End Drivers.

(** ** Further observations on the drivers *)

Section Histories.

Context {T R : Type}.

(** The state last handed to [onStateUpdate], if any. *)
Definition last_update (tr : list (@event T R)) : option State :=
  head (omap (fun e => match e with EvStateUpdate st _ => Some st | _ => None end) tr).

(** The counters after the events [older], from the seeds [p0] and [f0]. *)
Definition processed_after (p0 : Z) (older : list (@event T R)) : Z :=
  p0 + Z.of_nat (count is_item_success older).

Definition failed_after (f0 : Z) (older : list (@event T R)) : Z :=
  f0 + Z.of_nat (count is_item_error older).

(** The counter a callback is given is the running count at the time of
    the call: [older] are the events before the call [e]. *)
Definition counts_passed (p0 f0 : Z) (e : @event T R) (older : list (@event T R)) : Prop :=
  match e with
  | EvItemSuccess _ _ n _ => n = processed_after p0 older + 1
  | EvItemError _ _ n _ => n = failed_after f0 older + 1
  | EvBatchComplete _ _ _ np nf _ =>
      np = processed_after p0 older /\ nf = failed_after f0 older
  | EvPageComplete _ _ _ np _ => np = processed_after p0 older
  | _ => True
  end.

(** The state [st] carries the counters as they are after [older]. *)
Definition carries_counters (p0 f0 : Z) (st : State) (older : list (@event T R)) : Prop :=
  st !! "totalProcessed" = Some (VNum (processed_after p0 older)) /\
  st !! "totalFailed" = Some (VNum (failed_after f0 older)).

(** The state given to [onStateUpdate], [onBatchComplete] and
    [onPageComplete] is up to date at the time of the call. *)
Definition snapshot_current (p0 f0 : Z) (e : @event T R) (older : list (@event T R)) : Prop :=
  match e with
  | EvStateUpdate st _ | EvBatchComplete _ _ _ _ _ st | EvPageComplete _ _ _ _ st =>
      carries_counters p0 f0 st older
  | _ => True
  end.

(** [P] holds of every event of the trace, against the events before it. *)
Definition history (P : @event T R -> list (@event T R) -> Prop) (tr : list (@event T R)) : Prop :=
  forall new e older, tr = new ++ e :: older -> P e older.

(** The shared variables agree with the trace: the counters are the
    seeds plus the events counted, and the state is the one last handed
    to [onStateUpdate], or the first state [s0] when there was none. *)
Record tracked (p0 f0 : Z) (s0 : State) (v : @vars T R) : Prop := {
  tracked_counts : history (counts_passed p0 f0) (trace v);
  tracked_snapshots : history (snapshot_current p0 f0) (trace v);
  tracked_processed : totalProcessed v = processed_after p0 (trace v);
  tracked_failed : totalFailed v = failed_after f0 (trace v);
  tracked_state : currentState v = default s0 (last_update (trace v))
}.

(** [onItemSuccess] calls since the page at hand was fetched. *)
Fixpoint successes_on_page (tr : list (@event T R)) : nat :=
  match tr with
  | [] => 0
  | EvFetchPage _ _ :: _ => 0
  | e :: older => (if is_item_success e then 1 else 0) + successes_on_page older
  end.

(** [onPageComplete] is given the successes of its page. *)
Definition page_count_passed (e : @event T R) (older : list (@event T R)) : Prop :=
  match e with
  | EvPageComplete _ _ pageProcessed _ _ => pageProcessed = Z.of_nat (successes_on_page older)
  | _ => True
  end.

(** The batches handed to [onBatchStart] and to [onBatchComplete], with
    their number and the number of batches, newest first. *)
Definition batches_begun (tr : list (@event T R)) : list (jsnum * jsnum * list T) :=
  omap (fun e => match e with
                 | EvBatchStart n total batch _ => Some (n, total, batch)
                 | _ => None
                 end) tr.

Definition batches_ended (tr : list (@event T R)) : list (jsnum * jsnum * list T) :=
  omap (fun e => match e with
                 | EvBatchComplete n total batch _ _ _ => Some (n, total, batch)
                 | _ => None
                 end) tr.

Section Caught.

Variable processFunction : T -> nat -> State -> settled R.
Variable onItemSuccess : T -> R -> Z -> State -> completion.
Variable onItemError : T -> value -> Z -> State -> completion.
Variable onStateUpdate : State -> option (jsnum * jsnum) -> completion.

(** A suspended task holds the outcome of a call that is in the trace. *)
Definition call_logged (tr : list (@event T R)) (tk : @task T R) : Prop :=
  match t_phase tk with
  | AwaitProcess o =>
      exists st,
        EvProcess (t_item tk) (t_index tk) st ∈ tr /\
        o = processFunction (t_item tk) (t_index tk) st
  | AwaitItemSuccess c =>
      exists result n st,
        EvItemSuccess (t_item tk) result n st ∈ tr /\
        c = onItemSuccess (t_item tk) result n st
  | AwaitStateUpdate c =>
      exists st info, EvStateUpdate st info ∈ tr /\ c = onStateUpdate st info
  | AwaitItemError c =>
      exists error n st,
        EvItemError (t_item tk) error n st ∈ tr /\
        c = onItemError (t_item tk) error n st
  end.

(** What the [catch] block of a task of [item] can have been given: the
    rejection of a [processFunction] call for the item, or what an
    [onItemSuccess] call for it or an [onStateUpdate] call threw, each a
    call of the trace. *)
Definition caught_in (tr : list (@event T R)) (item : T) (error : value) : Prop :=
  (exists index st,
      EvProcess item index st ∈ tr /\ processFunction item index st = Rejected error) \/
  (exists result n st,
      EvItemSuccess item result n st ∈ tr /\
      onItemSuccess item result n st = Throws error) \/
  (exists st info,
      EvStateUpdate st info ∈ tr /\ onStateUpdate st info = Throws error).

(** [error] is what the [catch] block hands on for [caught]: the value
    itself when it is an Error instance, else [new Error(String(caught))]. *)
Definition wraps (caught error : value) : Prop :=
  if instanceof_Error caught then error = caught
  else exists msg, js_String caught = Resolved msg /\ error = new_Error msg.

(** An [onItemError] call of the trace reports a value caught for its
    item. *)
Definition reports_caught (tr : list (@event T R)) (e : @event T R) : Prop :=
  match e with
  | EvItemError item error _ _ => exists caught, caught_in tr item caught /\ wraps caught error
  | _ => True
  end.

(** A [catch] block failed with [e]: it caught a value that is not an
    Error, and converting that value to a string threw [e]. *)
Definition conversion_threw (e : value) (tr : list (@event T R)) : Prop :=
  exists item caught,
    caught_in tr item caught /\
    instanceof_Error caught = false /\
    js_String caught = Rejected e.

(** What holds of the tasks of a batch and of its trace. *)
Definition logged (r : @running T R) : Prop :=
  Forall (call_logged (trace (r_vars r))) (active (r_gate r)) /\
  Forall (reports_caught (trace (r_vars r))) (trace (r_vars r)).

End Caught.

(** The shared variables of a run that may have been rejected: as
    [tracked], but a [catch] block that failed has counted a failure
    that no [onItemError] call reports. *)
Record traced (p0 f0 : Z) (s0 : State) (v : @vars T R) : Prop := {
  traced_counts : history (counts_passed p0 f0) (trace v);
  traced_snapshots : history (snapshot_current p0 f0) (trace v);
  traced_processed : totalProcessed v = processed_after p0 (trace v);
  traced_failed : failed_after f0 (trace v) <= totalFailed v <= failed_after f0 (trace v) + 1;
  traced_state : currentState v = default s0 (last_update (trace v))
}.

End Histories.

Section BatchObservations.

Context {T R : Type}.
Variable items : list T.
Variable processFunction : T -> nat -> State -> settled R.
Variable options : BatchOptions.t T R.

Import BatchOptions.

(** [items.slice(k * batchSize, (k + 1) * batchSize)], for a positive
    [batchSize]. *)
Definition nth_batch (k : nat) : list T :=
  take (Z.to_nat (batchSize options)) (drop (k * Z.to_nat (batchSize options)) items).

(** The first [n] batches with the numbers the callbacks are given. *)
Definition numbered_batches (n : nat) : list (jsnum * jsnum * list T) :=
  (fun k => (JNum (Z.of_nat k + 1), totalBatches items options, nth_batch k)) <$> seq 0 n.

(** The calls of [processFunction] for the items [l] from the start of
    the array: each item with its position inside its batch. *)
Definition batch_calls (l : list T) : list (T * nat) :=
  imap (fun position item => (item, (position `mod` Z.to_nat (batchSize options))%nat)) l.

(** Where the loop is in the array, when [batchSize] is positive:
    [k] batches are behind it, and [processFunction] has been called for
    their items and for the submissions the gate has started. *)
Definition batch_layout (m : @machine T R) : Prop :=
  let submissions batch := imap (fun index item => (item, index)) batch in
  match m with
  | LoopHead i v =>
      exists k : nat,
        i = batchSize options * Z.of_nat k /\
        (k = 0%nat \/ batchSize options * (Z.of_nat k - 1) < Z.of_nat (length items)) /\
        rev (batches_begun (trace v)) = numbered_batches k /\
        rev (batches_ended (trace v)) = numbered_batches k /\
        rev (calls (trace v)) = batch_calls (take (Z.to_nat i) items)
  | InBatch i batch batchNumber r =>
      exists k n : nat,
        i = batchSize options * Z.of_nat k /\
        i < Z.of_nat (length items) /\
        batch = nth_batch k /\
        batchNumber = JNum (Z.of_nat k + 1) /\
        rev (batches_begun (trace (r_vars r))) = numbered_batches (S k) /\
        rev (batches_ended (trace (r_vars r))) = numbered_batches k /\
        queue (r_gate r) = drop n (submissions batch) /\
        rev (calls (trace (r_vars r))) =
          batch_calls (take (Z.to_nat i) items) ++ take n (submissions batch)
  | Finished _ v =>
      exists k : nat,
        totalBatches items options = JNum (Z.of_nat k) /\
        rev (batches_begun (trace v)) = numbered_batches k /\
        rev (batches_ended (trace v)) = numbered_batches k /\
        rev (calls (trace v)) = batch_calls items
  | Aborted _ _ => True
  end.

(** What can have rejected a run with [e]: the call at the head of the
    trace ([onBatchStart], with the making of the gate that follows it,
    [onStateUpdate] at the end of a batch, or [onBatchComplete]), an
    [onItemError] call somewhere in the trace, or a [catch] block that
    could not convert what it caught. *)
Definition thrown_by (e : value) (tr : list (@event T R)) : Prop :=
  (exists n total batch st older,
     tr = EvBatchStart n total batch st :: older /\
     (onBatchStart options n total batch st = Throws e \/
      @pLimit T R (concurrencyLimit options) = Rejected e)) \/
  (exists st info older,
     tr = EvStateUpdate st info :: older /\
     onStateUpdate options st info = Throws e) \/
  (exists n total batch np nf st older,
     tr = EvBatchComplete n total batch np nf st :: older /\
     onBatchComplete options n total batch np nf st = Throws e) \/
  (exists item error n st,
     EvItemError item error n st ∈ tr /\
     onItemError options item error n st = Throws e) \/
  conversion_threw processFunction (onItemSuccess options) (onStateUpdate options) e tr.

(** Holds at every point of every run: the calls that the suspended
    tasks wait for are in the trace, every [onItemError] call reports a
    value that was caught, and a rejected run has its cause in the
    trace. *)
Definition batch_logged (m : @machine T R) : Prop :=
  Forall (reports_caught processFunction (onItemSuccess options) (onStateUpdate options)
            (trace (m_vars m))) (trace (m_vars m)) /\
  match m with
  | InBatch _ _ _ r =>
      Forall (call_logged processFunction (onItemSuccess options) (onItemError options)
                (onStateUpdate options) (trace (r_vars r))) (active (r_gate r))
  | Aborted e v => thrown_by e (trace v)
  | _ => True
  end.

(** At the test of the loop the counters can be read back from the
    state with [|| 0]. *)
Definition loop_synced (m : @machine T R) : Prop :=
  let synced (v : @vars T R) :=
    num_or (currentState v !! "totalProcessed") 0 = totalProcessed v /\
    num_or (currentState v !! "totalFailed") 0 = totalFailed v in
  match m with
  | LoopHead _ v | Finished _ v => synced v
  | _ => True
  end.

(** At the test of the loop nothing has happened yet, or the last two
    calls were those at the end of a batch, with the state as it is. *)
Definition after_batch (m : @machine T R) : Prop :=
  let ended (v : @vars T R) :=
    exists n total batch older,
      trace v = EvBatchComplete n total batch (totalProcessed v) (totalFailed v) (currentState v)
                :: EvStateUpdate (currentState v) (Some (n, total)) :: older in
  match m with
  | LoopHead i v => (i = 0 /\ trace v = []) \/ ended v
  | Finished _ v => items = [] \/ ended v
  | _ => True
  end.

Definition batch_tracked (m : @machine T R) : Prop :=
  let init := initialState options in
  let p0 := num_or (init !! "totalProcessed") 0 in
  let f0 := num_or (init !! "totalFailed") 0 in
  match m with
  | Aborted _ v => traced p0 f0 init v
  | _ => tracked p0 f0 init (m_vars m)
  end.

End BatchObservations.

Section PageObservations.

Context {T R : Type}.
Variable fetchPageFunction : Z -> State -> settled (PageData T).
Variable processFunction : T -> nat -> State -> settled R.
Variable options : PaginatedBatchOptions.t T R.

Import PaginatedBatchOptions.

(** [initialState.currentPage || initialPage] *)
Definition seeded_page : Z :=
  num_or (initialState options !! "currentPage") (initialPage options).

(** The pages fetched so far are the [n] pages from the seeded one on. *)
Definition fetch_order (m : @pmachine T R) : Prop :=
  let fetched (v : @vars T R) (n : Z) :=
    0 <= n /\ pages_fetched (trace v) = rev (seqZ seeded_page n) in
  match m with
  | PageLoop page _ v => fetched v (page - seeded_page)
  | InPage page _ _ r => fetched (r_vars r) (page + 1 - seeded_page)
  | PFinished _ v | PAborted _ v => exists n, fetched v n
  end.

(** The page of a fetch that returned items. *)
Definition page_with_items (e : @event T R) : option Z :=
  match e with
  | EvFetchPage page st =>
      match fetchPageFunction page st with
      | Resolved pageData =>
          match page_items pageData with [] => None | _ :: _ => Some page end
      | Rejected _ => None
      end
  | _ => None
  end.

(** [onPageComplete] has been called for the fetched pages that had
    items, but for the one being processed. *)
Definition completed_inv (m : @pmachine T R) : Prop :=
  match m with
  | PageLoop _ _ v | PFinished _ v =>
      pages_completed (trace v) = omap page_with_items (trace v)
  | InPage page _ _ r =>
      page :: pages_completed (trace (r_vars r)) = omap page_with_items (trace (r_vars r))
  | PAborted _ _ => True
  end.

(** The cursor in the state a page callback is given: the page at hand
    for [onPageStart] and [fetchPage], the next one for [onPageComplete]. *)
Definition cursor_consistent (e : @event T R) : Prop :=
  match e with
  | EvPageStart page total st =>
      st !! "currentPage" = Some (VNum page) /\ st !! "totalPages" = Some (VNum total)
  | EvFetchPage page st => st !! "currentPage" = Some (VNum page)
  | EvPageComplete page total _ _ st =>
      st !! "currentPage" = Some (VNum (page + 1)) /\ st !! "totalPages" = Some (VNum total)
  | _ => True
  end.

(** The state carries the driver's [currentPage] and [totalPages], and
    [totalPages] is never 0. *)
Definition cursor_inv (m : @pmachine T R) : Prop :=
  let at_cursor (page total : Z) (v : @vars T R) :=
    total <> 0 /\
    currentState v !! "currentPage" = Some (VNum page) /\
    currentState v !! "totalPages" = Some (VNum total) /\
    Forall cursor_consistent (trace v) in
  match m with
  | PageLoop page total v => at_cursor page total v
  | InPage page total _ r => at_cursor page total (r_vars r)
  | PFinished _ v => exists page total, total < page /\ at_cursor page total v
  | PAborted _ v => Forall cursor_consistent (trace v)
  end.

Definition page_tracked (m : @pmachine T R) : Prop :=
  let init := initialState options in
  let p0 := num_or (init !! "totalProcessed") 0 in
  let f0 := num_or (init !! "totalFailed") 0 in
  let s0 := currentState (pm_vars (processPaginatedBatches_init options)) in
  match m with
  | PageLoop _ _ v | PFinished _ v =>
      tracked p0 f0 s0 v /\ carries_counters p0 f0 (currentState v) (trace v)
  | InPage _ _ _ r => tracked p0 f0 s0 (r_vars r)
  | PAborted _ v => traced p0 f0 s0 v
  end.

(** The resumptions the tasks of a page still need never exceed four
    per item. *)
Definition page_weight (m : @pmachine T R) : Prop :=
  match m with
  | InPage _ _ its r => (gate_weight (r_gate r) <= 4 * length its)%nat
  | _ => True
  end.


(** [pageProcessed] counts the successes of the page at hand. *)
Definition page_counter_inv (m : @pmachine T R) : Prop :=
  history page_count_passed (trace (pm_vars m)) /\
  match m with
  | InPage _ _ _ r => r_counter r = Z.of_nat (successes_on_page (trace (r_vars r)))
  | _ => True
  end.

End PageObservations.

(** ** createBatchProcessorWithState (src/index.ts) *)

(** The options of [createBatchProcessorWithState], after the defaults
    of its destructuring have been applied. *)
Module SaveOptions.
Record t := Make {
  saveStateOnBatch : bool;
  saveStateOnItem : bool;
  saveStateInterval : Z
}.

(** [options = {}] *)
Definition defaults : t := {|
  saveStateOnBatch := true;
  saveStateOnItem := false;
  saveStateInterval := 5
|}.
End SaveOptions.

Section CreateBatchProcessorWithState.

Context {T R : Type}.
Variable clock : nat -> string.
Variable processFunction : T -> nat -> State -> settled R.

(** [stateManager.saveState(state)]: the promise resolves when the file
    is written and rejects with the error of the write.  Whether a write
    succeeds is up to the file system. *)
Variable saveState : State -> completion.
Variable save : SaveOptions.t.

Import BatchOptions SaveOptions.

(** [await a; await b]: [b] is reached when [a] completes. *)
Definition and_then (c next : completion) : completion :=
  match c with Completes => next | Throws e => Throws e end.

(** The [onStateUpdate] that [process] passes on: it saves when
    [saveStateOnBatch] is set and both batch numbers are given, then calls
    the caller's [onStateUpdate]. *)
Definition saving_onStateUpdate (batchOptions : BatchOptions.t T R)
    (st : State) (info : option (jsnum * jsnum)) : completion :=
  and_then
    (if saveStateOnBatch save
     then match info with Some _ => saveState st | None => Completes end
     else Completes)
    (onStateUpdate batchOptions st info).

(** The [onItemSuccess] that [process] passes on: it saves when
    [saveStateOnItem] is set and [totalProcessed % saveStateInterval === 0],
    then calls the caller's [onItemSuccess]. *)
Definition saving_onItemSuccess (batchOptions : BatchOptions.t T R)
    (item : T) (result : R) (totalProcessed : Z) (st : State) : completion :=
  and_then
    (if saveStateOnItem save && rem_is_zero totalProcessed (saveStateInterval save)
     then saveState st
     else Completes)
    (onItemSuccess batchOptions item result totalProcessed st).

(** [{ ...batchOptions, initialState, onStateUpdate, onItemSuccess }],
    where [initialState] is the state that [loadState] resolved with. *)
Definition process_options (loaded : State) (batchOptions : BatchOptions.t T R)
  : BatchOptions.t T R := {|
  batchSize := batchSize batchOptions;
  concurrencyLimit := concurrencyLimit batchOptions;
  onBatchStart := onBatchStart batchOptions;
  onBatchComplete := onBatchComplete batchOptions;
  onItemSuccess := saving_onItemSuccess batchOptions;
  onItemError := onItemError batchOptions;
  onStateUpdate := saving_onStateUpdate batchOptions;
  stateUpdateInterval := stateUpdateInterval batchOptions;
  initialState := loaded
|}.

(** [process(items, batchOptions)] under a schedule, once [loadState]
    has resolved with [loaded]. *)
Definition process (loaded : State) (items : list T) (batchOptions : BatchOptions.t T R)
    (schedule : list nat) : @machine T R :=
  processBatches clock items processFunction (process_options loaded batchOptions) schedule.

(** The state a callback of [process] hands to [saveState], if it does.
    The two wrappers are the callbacks the driver calls, so each of their
    calls is an event of the trace, and whether a wrapper saves is decided
    by its arguments. *)
Definition saved_by (e : @event T R) : option State :=
  match e with
  | EvStateUpdate st (Some _) => if saveStateOnBatch save then Some st else None
  | EvItemSuccess _ _ n st =>
      if saveStateOnItem save && rem_is_zero n (saveStateInterval save) then Some st else None
  | _ => None
  end.

(** The states handed to [saveState], newest first. *)
Definition saves (tr : list (@event T R)) : list State := omap saved_by tr.

End CreateBatchProcessorWithState.

(** ** StateTracker (src/utils/stateTracker.ts) *)

(** The truthiness of a value. *)
Definition truthy (v : value) : bool :=
  match v with
  | VUndefined | VNull => false
  | VBool b => b
  | VNum n => negb (n =? 0)
  | VStr s => negb (String.eqb s "")
  | VError _ _ | VObject _ _ => true
  end.

(** [state.field || d] *)
Definition or_else (o : option value) (d : value) : value :=
  match o with
  | Some x => if truthy x then x else d
  | None => d
  end.

Module StateTracker.

Record t := Make {
  totalItems : Z;
  startTime : Z;
  state : State
}.

(** [new StateTracker(totalItems, initialState)].  [now] is what
    [Date.now()] returns, [startedAt] and [lastUpdated] are what the two
    [new Date().toISOString()] return. *)
Definition constructor (totalItems : Z) (initialState : State)
    (now : Z) (startedAt lastUpdated : string) : t := {|
  totalItems := totalItems;
  startTime := now;
  state :=
    <["lastUpdated" := VStr lastUpdated]>
      (<["startedAt" := or_else (initialState !! "startedAt") (VStr startedAt)]>
         (<["startTime" := or_else (initialState !! "startTime") (VNum now)]>
            (<["totalFailed" := or_else (initialState !! "totalFailed") (VNum 0)]>
               (<["totalProcessed" := or_else (initialState !! "totalProcessed") (VNum 0)]>
                  initialState))))
|}.

(** [getState()]: a copy of the state. *)
Definition getState (tracker : t) : State := state tracker.

(** [updateProgress(processed, failed, additionalData)]: the tracker
    afterwards and the state returned.  [lastUpdated] is what
    [new Date().toISOString()] returns. *)
Definition updateProgress (tracker : t) (processed failed : Z) (additionalData : State)
    (lastUpdated : string) : t * State :=
  let st :=
    <["lastUpdated" := VStr lastUpdated]>
      (<["totalFailed" := VNum failed]>
         (<["totalProcessed" := VNum processed]> (additionalData ∪ state tracker))) in
  ({| totalItems := totalItems tracker; startTime := startTime tracker; state := st |}, st).

(** The arguments of one [updateProgress] call, with the time it reads. *)
Record update := Update {
  u_processed : Z;
  u_failed : Z;
  u_additionalData : State;
  u_lastUpdated : string
}.

(** A sequence of [updateProgress] calls, oldest first. *)
Definition updates (tracker : t) (us : list update) : t :=
  fold_left (fun tracker u =>
               fst (updateProgress tracker (u_processed u) (u_failed u)
                      (u_additionalData u) (u_lastUpdated u)))
    us tracker.

(** A counter field that reads back unchanged through [|| 0]. *)
Definition normal_counter (st : State) (k : string) : Prop :=
  exists x, st !! k = Some x /\ or_else (Some x) (VNum 0) = x.

End StateTracker.

(** ** Concrete runs *)

(** Items are numbers, results are ignored, and the clock counts events. *)
Definition example_clock (n : nat) : string := pretty n.

Definition always_succeeds : nat -> nat -> State -> settled unit :=
  fun _ _ _ => Resolved tt.

Definition always_rejects : nat -> nat -> State -> settled unit :=
  fun _ _ _ => Rejected (VStr "boom").

(** A state left by an earlier run, with a field of the caller's. *)
Definition resumed_state : State :=
  <["jobId" := VStr "nightly"]>
    (<["totalFailed" := VNum 1]> (<["totalProcessed" := VNum 5]> ∅)).

(** [{ initialState: { totalProcessed: 5, totalFailed: 1 } }] *)
Definition seeded_state : State :=
  <["totalFailed" := VNum 1]> (<["totalProcessed" := VNum 5]> ∅).

Definition with_initialState (st : State) : BatchOptions.t nat unit :=
  BatchOptions.Make 20 10
    (fun _ _ _ _ => Completes) (fun _ _ _ _ _ _ => Completes)
    (fun _ _ _ _ => Completes) (fun _ _ _ _ => Completes)
    (fun _ _ => Completes) 5 st.

(** [{ batchSize: 0 }] *)
Definition zero_batchSize : BatchOptions.t nat unit :=
  BatchOptions.Make 0 10
    (fun _ _ _ _ => Completes) (fun _ _ _ _ _ _ => Completes)
    (fun _ _ _ _ => Completes) (fun _ _ _ _ => Completes)
    (fun _ _ => Completes) 5 ∅.

(** [{ batchSize: 2, concurrencyLimit: 1 }] *)
Definition small_batches : BatchOptions.t nat unit :=
  BatchOptions.Make 2 1
    (fun _ _ _ _ => Completes) (fun _ _ _ _ _ _ => Completes)
    (fun _ _ _ _ => Completes) (fun _ _ _ _ => Completes)
    (fun _ _ => Completes) 5 ∅.

(** [{ onItemSuccess: () => { throw "observer failed" } }] *)
Definition throwing_onItemSuccess : BatchOptions.t nat unit :=
  BatchOptions.Make 20 10
    (fun _ _ _ _ => Completes) (fun _ _ _ _ _ _ => Completes)
    (fun _ _ _ _ => Throws (VStr "observer failed")) (fun _ _ _ _ => Completes)
    (fun _ _ => Completes) 5 ∅.

(** The batch numbers and batch counts given to [onBatchStart], oldest
    first. *)
Definition batches_started {T R : Type} (tr : list (@event T R)) : list (jsnum * jsnum) :=
  rev (omap (fun e => match e with
                      | EvBatchStart n total _ _ => Some (n, total)
                      | _ => None
                      end) tr).

(** Every page has ten items and announces three pages. *)
Definition three_pages : Z -> State -> settled (PageData nat) :=
  fun _ _ => Resolved {| items := Some (replicate 10 7%nat);
                         results := None;
                         pd_totalPages := Some 3 |}.

(** A page of one item that announces zero pages. *)
Definition zero_totalPages : Z -> State -> settled (PageData nat) :=
  fun _ _ => Resolved {| items := Some [7%nat];
                         results := None;
                         pd_totalPages := Some 0 |}.

(** The first page cannot be fetched. *)
Definition failing_fetch : Z -> State -> settled (PageData nat) :=
  fun _ _ => Rejected (VError "Error" "network down").

Definition paginated_defaults : PaginatedBatchOptions.t nat unit :=
  PaginatedBatchOptions.defaults.

Definition paginated_with_initialState (st : State) : PaginatedBatchOptions.t nat unit :=
  PaginatedBatchOptions.Make 1 10
    (fun _ _ _ => Completes) (fun _ _ _ _ _ => Completes)
    (fun _ _ _ _ => Completes) (fun _ _ _ _ => Completes)
    (fun _ => Completes) 5 st.

(** [{ onItemError: () => { throw "handler failed" } }] *)
Definition throwing_onItemError : BatchOptions.t nat unit :=
  BatchOptions.Make 20 10
    (fun _ _ _ _ => Completes) (fun _ _ _ _ _ _ => Completes)
    (fun _ _ _ _ => Completes) (fun _ _ _ _ => Throws (VStr "handler failed"))
    (fun _ _ => Completes) 5 ∅.

(** [{ onPageComplete: () => { throw "observer failed" } }] *)
Definition throwing_onPageComplete : PaginatedBatchOptions.t nat unit :=
  PaginatedBatchOptions.Make 1 10
    (fun _ _ _ => Completes) (fun _ _ _ _ _ => Throws (VStr "observer failed"))
    (fun _ _ _ _ => Completes) (fun _ _ _ _ => Completes)
    (fun _ => Completes) 5 ∅.

(** Three pages are announced; page 2 is empty, the others hold one
    item, under [results]. *)
Definition sparse_pages : Z -> State -> settled (PageData nat) :=
  fun page _ => Resolved {| items := None;
                            results := Some (if page =? 2 then [] else [7%nat]);
                            pd_totalPages := Some 3 |}.

(** [() => Promise.reject(Object.create(null))] *)
Definition rejects_bare_object : nat -> nat -> State -> settled unit :=
  fun _ _ _ => Rejected (bare_object 0).


(** Every write succeeds. *)
Definition saveState_succeeds : State -> completion := fun _ => Completes.

(** A tracker for ten items, started at 1000 ms. *)
Definition example_tracker : StateTracker.t :=
  StateTracker.constructor 10 resumed_state 1000 "T0" "T0".

(** Two progress reports; the second one carries a field of the caller's. *)
Definition example_updates : list StateTracker.update :=
  [StateTracker.Update 3 0 ∅ "T1";
   StateTracker.Update 7 1 (<["phase" := VStr "second"]> ∅) "T2"].

(** * Facts *)

(** ** Values as strings *)

(** Integers print in full up to 21 digits, rounded to the double they
    denote, and with an exponent beyond. *)
Lemma Number_toString_samples :
  Number_toString 42 = "42" /\
  Number_toString (-7) = "-7" /\
  Number_toString (2 ^ 53 + 1) = "9007199254740992" /\
  Number_toString (2 ^ 64) = "18446744073709552000" /\
  Number_toString (10 ^ 21) = "1e+21" /\
  Number_toString (2 ^ 70) = "1.1805916207174113e+21" /\
  Number_toString (2 ^ 1024 - 2 ^ 971) = "1.7976931348623157e+308" /\
  Number_toString (2 ^ 1024) = "Infinity".
Proof. vm_compute. repeat split. Qed.

(** What the [catch] block makes of values that are not Errors. *)
Lemma as_Error_samples :
  as_Error (VError "RangeError" "too big") = Resolved (VError "RangeError" "too big") /\
  as_Error (VStr "boom") = Resolved (new_Error "boom") /\
  as_Error VUndefined = Resolved (new_Error "undefined") /\
  as_Error (VNum (10 ^ 21)) = Resolved (new_Error "1e+21") /\
  as_Error (plain_object 0) = Resolved (new_Error "[object Object]") /\
  as_Error (bare_object 0)
  = Rejected (VError "TypeError" "Cannot convert object to primitive value").
Proof. vm_compute. repeat split. Qed.

(** ** Lists and traces *)

Section TraceFacts.

Context {T R : Type}.

Implicit Types (tr new : list (@event T R)) (f : @event T R -> bool).

Lemma count_nil f : count f [] = 0%nat.
Proof. reflexivity. Qed.

Lemma count_cons f e tr :
  count f (e :: tr) = ((if f e then 1 else 0) + count f tr)%nat.
Proof. unfold count. simpl. destruct (f e); reflexivity. Qed.

Lemma count_app f tr1 tr2 : count f (tr1 ++ tr2) = (count f tr1 + count f tr2)%nat.
Proof. unfold count. rewrite List.filter_app, length_app. reflexivity. Qed.

Lemma completions_app tr1 tr2 :
  completions (tr1 ++ tr2) = (completions tr1 + completions tr2)%nat.
Proof. unfold completions. rewrite !count_app. lia. Qed.

Lemma frame_refl keys (s : State) : frame keys s s.
Proof. intros k _. reflexivity. Qed.

Lemma frame_trans keys (s1 s2 s3 : State) :
  frame keys s1 s2 -> frame keys s2 s3 -> frame keys s1 s3.
Proof. intros H12 H23 k Hk. rewrite (H23 k Hk). apply H12, Hk. Qed.

Lemma frame_weaken keys keys' (s s' : State) :
  keys ⊆ keys' -> frame keys s s' -> frame keys' s s'.
Proof. intros Hsub H k Hk. apply H. intros Hin. apply Hk, Hsub, Hin. Qed.

Lemma frame_insert keys k x (s s' : State) :
  k ∈ keys -> frame keys s s' -> frame keys s (<[k := x]> s').
Proof.
  intros Hin H j Hj. rewrite lookup_insert_ne; [apply H, Hj|].
  intros ->. contradiction.
Qed.

Lemma progress_refl keys (P : @event T R -> Prop) v : progress keys P v v.
Proof.
  exists []. rewrite !count_nil. simpl.
  split; [reflexivity|]. split; [constructor|].
  split; [lia|]. split; [lia | apply frame_refl].
Qed.

Lemma progress_trans keys (P : @event T R -> Prop) v1 v2 v3 :
  progress keys P v1 v2 -> progress keys P v2 v3 -> progress keys P v1 v3.
Proof.
  intros (n1 & Ht1 & HP1 & Hp1 & Hf1 & Hs1) (n2 & Ht2 & HP2 & Hp2 & Hf2 & Hs2).
  exists (n2 ++ n1). rewrite !count_app. repeat split.
  - rewrite Ht2, Ht1, app_assoc. reflexivity.
  - apply Forall_app. split; assumption.
  - lia.
  - lia.
  - eapply frame_trans; eassumption.
Qed.

Lemma progress_weaken keys keys' (P Q : @event T R -> Prop) v v' :
  keys ⊆ keys' -> (forall e, P e -> Q e) ->
  progress keys P v v' -> progress keys' Q v v'.
Proof.
  intros Hsub HPQ (new & Ht & HP & Hp & Hf & Hs).
  exists new. repeat split; try assumption.
  - eapply Forall_impl; eassumption.
  - eapply frame_weaken; eassumption.
Qed.

(** One event logged, with the counters and the state set to match. *)
Lemma progress_event keys (P : @event T R -> Prop) e v v' :
  trace v' = e :: trace v -> P e ->
  totalProcessed v' = totalProcessed v + (if is_item_success e then 1 else 0) ->
  totalFailed v' = totalFailed v + (if is_item_error e then 1 else 0) ->
  frame keys (currentState v) (currentState v') ->
  progress keys P v v'.
Proof.
  intros Ht HP Hp Hf Hs. exists [e]. rewrite !count_cons, !count_nil.
  repeat split; try assumption.
  - constructor; [assumption | constructor].
  - rewrite Hp. destruct (is_item_success e); lia.
  - rewrite Hf. destruct (is_item_error e); lia.
Qed.

Lemma progress_advance keys (P : @event T R -> Prop) v v' :
  progress keys P v v' -> advance keys P v v'.
Proof. intros (new & Ht & HP & _ & _ & Hs). exists new. repeat split; assumption. Qed.

Lemma advance_refl keys (P : @event T R -> Prop) v : advance keys P v v.
Proof. apply progress_advance, progress_refl. Qed.

Lemma advance_trans keys (P : @event T R -> Prop) v1 v2 v3 :
  advance keys P v1 v2 -> advance keys P v2 v3 -> advance keys P v1 v3.
Proof.
  intros (n1 & Ht1 & HP1 & Hs1) (n2 & Ht2 & HP2 & Hs2).
  exists (n2 ++ n1). repeat split.
  - rewrite Ht2, Ht1, app_assoc. reflexivity.
  - apply Forall_app. split; assumption.
  - eapply frame_trans; eassumption.
Qed.

Lemma advance_weaken keys keys' (P Q : @event T R -> Prop) v v' :
  keys ⊆ keys' -> (forall e, P e -> Q e) ->
  advance keys P v v' -> advance keys' Q v v'.
Proof.
  intros Hsub HPQ (new & Ht & HP & Hs).
  exists new. repeat split; try assumption.
  - eapply Forall_impl; eassumption.
  - eapply frame_weaken; eassumption.
Qed.

Lemma sum_list_with_insert {A} (w : A -> nat) (l : list A) k x y :
  l !! k = Some x ->
  (sum_list_with w (<[k := y]> l) + w x = sum_list_with w l + w y)%nat.
Proof.
  intros Hk. rewrite insert_take_drop by (eapply lookup_lt_Some; eassumption).
  rewrite <- (take_drop_middle l k x Hk) at 3.
  rewrite !sum_list_with_app. simpl. lia.
Qed.

Lemma sum_list_with_delete {A} (w : A -> nat) (l : list A) k x :
  l !! k = Some x ->
  (sum_list_with w (delete k l) + w x = sum_list_with w l)%nat.
Proof.
  intros Hk. rewrite delete_take_drop.
  rewrite <- (take_drop_middle l k x Hk) at 3.
  rewrite !sum_list_with_app. simpl. lia.
Qed.

Lemma fold_left_invariant {A C} (step : A -> C -> A) (I : A -> Prop) :
  (forall a c, I a -> I (step a c)) ->
  forall l a, I a -> I (fold_left step l a).
Proof.
  intros Hstep l. induction l as [|c l IH]; intros a Ha; simpl; [assumption|].
  apply IH, Hstep, Ha.
Qed.

Lemma slice_length {A} (l : list A) i n :
  0 <= i < Z.of_nat (length l) -> 0 <= n ->
  Z.of_nat (length (slice l i (i + n))) = Z.min n (Z.of_nat (length l) - i).
Proof.
  intros Hi Hn. unfold slice, slice_index.
  destruct (Z.ltb_spec i 0); [lia|]. destruct (Z.ltb_spec (i + n) 0); [lia|].
  rewrite length_take, length_drop. lia.
Qed.

Lemma seqZ_snoc page : 1 <= page -> seqZ 1 page = seqZ 1 (page - 1) ++ [page].
Proof.
  intros Hp. replace page with ((page - 1) + 1) at 1 by lia.
  rewrite seqZ_app by lia. f_equal.
  replace (1 + (page - 1)) with page by lia. reflexivity.
Qed.

Lemma pages_fetched_items new tr :
  Forall item_event new -> pages_fetched (new ++ tr) = pages_fetched tr.
Proof.
  intros H. induction H as [|e new He _ IH]; [reflexivity|].
  simpl. unfold pages_fetched in *. simpl. rewrite IH. destruct e; simpl in *; tauto.
Qed.

Lemma pages_completed_items new tr :
  Forall item_event new -> pages_completed (new ++ tr) = pages_completed tr.
Proof.
  intros H. induction H as [|e new He _ IH]; [reflexivity|].
  simpl. unfold pages_completed in *. simpl. rewrite IH. destruct e; simpl in *; tauto.
Qed.

Lemma advance_item_events keys (v v' : @vars T R) :
  advance keys (fun e => item_event e /\ error_wrapped e) v v' ->
  exists new, trace v' = new ++ trace v /\ Forall item_event new.
Proof.
  intros (new & Ht & Hev & _). exists new. split; [exact Ht|].
  eapply Forall_impl; [exact Hev|]. intros e [He _]. exact He.
Qed.

Lemma progress_item_events keys (v v' : @vars T R) :
  progress keys (fun e => item_event e /\ error_wrapped e) v v' ->
  exists new, trace v' = new ++ trace v /\ Forall item_event new.
Proof. intros H. eapply advance_item_events, progress_advance, H. Qed.

Lemma count_page_complete tr : count is_page_complete tr = length (pages_completed tr).
Proof.
  induction tr as [|e tr IH]; [reflexivity|].
  rewrite count_cons, IH. destruct e; reflexivity.
Qed.


Lemma pLimit_resolved concurrency (g : @gate T R) :
  pLimit concurrency = Resolved g ->
  1 <= concurrency /\ g = Gate (Z.to_nat concurrency) [] [].
Proof.
  unfold pLimit. destruct (Z.leb_spec 1 concurrency); intros [= <-].
  split; [assumption | reflexivity].
Qed.

End TraceFacts.

(** ** The item task and the gate *)

Section ItemTaskFacts.

Context {T R : Type}.
Variable clock : nat -> string.
Variable processFunction : T -> nat -> State -> settled R.
Variable onItemSuccess : T -> R -> Z -> State -> completion.
Variable onItemError : T -> value -> Z -> State -> completion.
Variable onStateUpdate : State -> option (jsnum * jsnum) -> completion.
Variable stateUpdateInterval : Z.
Variable info : option (jsnum * jsnum).
Variable batch_length : Z.

Local Abbreviation resume :=
  (resume_task clock onItemSuccess onItemError onStateUpdate
     stateUpdateInterval info batch_length).
Local Abbreviation gstep :=
  (gate_step clock processFunction onItemSuccess onItemError onStateUpdate
     stateUpdateInterval info batch_length).
Local Abbreviation sound :=
  (task_sound processFunction onItemSuccess onItemError onStateUpdate info).
Local Abbreviation einv :=
  (engine_inv processFunction onItemSuccess onItemError onStateUpdate info).
Local Abbreviation item_ok := (fun e : @event T R => item_event e /\ error_wrapped e).

(** The task a submission becomes when it starts, and the event of its
    call, both under the state [st] current at that time. *)
Local Abbreviation started st :=
  (fun p : T * nat => Task (fst p) (snd p) (AwaitProcess (processFunction (fst p) (snd p) st))).
Local Abbreviation start_event st :=
  (fun p : T * nat => @EvProcess T R (fst p) (snd p) st).

Lemma start_queued_spec slots c q act v :
  start_queued processFunction slots c q act v =
    (Gate c (drop slots q) (act ++ map (started (currentState v)) (take slots q)),
     Vars (totalProcessed v) (totalFailed v) (currentState v)
       (rev (map (start_event (currentState v)) (take slots q)) ++ trace v)).
Proof.
  revert q act v. induction slots as [|slots IH]; intros q act v.
  - simpl. rewrite drop_0, app_nil_r. destruct q, v; reflexivity.
  - destruct q as [|[item index] q]; simpl.
    + rewrite app_nil_r. destruct v; reflexivity.
    + rewrite IH. simpl. rewrite <- !app_assoc. reflexivity.
Qed.

Lemma as_Error_instance error e :
  as_Error error = Resolved e -> instanceof_Error e = true.
Proof.
  unfold as_Error. destruct (instanceof_Error error) eqn:Hi.
  - intros [= <-]. exact Hi.
  - destruct (js_String error); [intros [= <-]; reflexivity | discriminate].
Qed.

Lemma as_Error_convertible error :
  convertible error = true -> exists e, as_Error error = Resolved e.
Proof.
  unfold convertible. destruct (as_Error error) as [e|thrown]; [eauto | discriminate].
Qed.

Lemma frame_snapshot (v : @vars T R) :
  frame counter_fields (currentState v) (snapshot clock v).
Proof.
  unfold snapshot. repeat apply frame_insert; try apply frame_refl;
    unfold counter_fields; set_solver.
Qed.

(** Every path through the task body. *)
Ltac resume_cases H :=
  unfold resume_task, on_catch in H;
  match type of H with
  | context [t_phase ?tk] =>
      let Hph := fresh "Hph" in
      destruct (t_phase tk) as [[?|?]|[|?]|[|?]|[|?]] eqn:Hph
  end;
  try match type of H with
      | context [if ?b then _ else _] =>
          let Hc := fresh "Hcond" in destruct b eqn:Hc
      end;
  try match type of H with
      | context [as_Error ?error] =>
          let Hw := fresh "Hwrap" in destruct (as_Error error) eqn:Hw
      end;
  simplify_eq.

Lemma advance_incr_failed keys (P : @event T R -> Prop) v :
  advance keys P v (incr_failed v).
Proof. exists []. split; [reflexivity|]. split; [constructor | apply frame_refl]. Qed.

(** A resumption that does not reject the task counts what it
    reports. *)
Lemma resume_progress tk bp v bp' v' res :
  resume tk bp v = (bp', (v', res)) ->
  match res with
  | TaskRejected _ => advance counter_fields item_ok v v'
  | _ => progress counter_fields item_ok v v'
  end.
Proof.
  intros H. resume_cases H; try apply progress_refl; try apply advance_refl;
    try apply advance_incr_failed;
    (eapply progress_event; [reflexivity | | simpl; lia | simpl; lia | ]);
    simpl; try (split; [exact I | first [exact I | eapply as_Error_instance; eassumption]]);
    first [apply frame_refl | apply frame_snapshot].
Qed.

Lemma resume_advance tk bp v bp' v' res :
  resume tk bp v = (bp', (v', res)) -> advance counter_fields item_ok v v'.
Proof.
  intros H. apply resume_progress in H.
  destruct res; [apply progress_advance, H | apply progress_advance, H | exact H].
Qed.

Lemma start_queued_progress slots c q act v g v' :
  start_queued processFunction slots c q act v = (g, v') ->
  progress counter_fields item_ok v v'.
Proof.
  rewrite start_queued_spec. intros [= <- <-].
  exists (rev (map (start_event (currentState v)) (take slots q))). simpl.
  assert (Hev : Forall item_ok (rev (map (start_event (currentState v)) (take slots q)))).
  { apply Forall_rev. induction (take slots q); constructor;
      [split; exact I | assumption]. }
  assert (Hc : forall f, (forall p st, f (start_event st p) = false) ->
            count f (rev (map (start_event (currentState v)) (take slots q))) = 0%nat).
  { clear Hev. intros f Hf.
    induction (take slots q) as [|p l IHl]; simpl; [reflexivity|].
    rewrite count_app, count_cons, count_nil, Hf, IHl. reflexivity. }
  rewrite !Hc by reflexivity.
  split; [reflexivity|]. split; [exact Hev|].
  split; [lia|]. split; [lia | apply frame_refl].
Qed.

Lemma gate_step_progress choice r :
  match gstep choice r with
  | inl r' => progress counter_fields item_ok (r_vars r) (r_vars r')
  | inr (_, v') => advance counter_fields item_ok (r_vars r) v'
  end.
Proof.
  unfold gate_step.
  destruct (active (r_gate r) !! _) as [tk|]; [|apply progress_refl].
  destruct (resume tk (r_counter r) (r_vars r)) as [bp [v res]] eqn:Hres.
  pose proof (resume_progress _ _ _ _ _ _ Hres) as Hp.
  destruct res as [ph| |e]; simpl; try exact Hp.
  destruct (start_queued _ _ _ _ _ v) as [g' v'] eqn:Hadm. simpl.
  eapply progress_trans; [exact Hp|]. eapply start_queued_progress, Hadm.
Qed.

Lemma gate_step_advance choice r :
  match gstep choice r with
  | inl r' => advance counter_fields item_ok (r_vars r) (r_vars r')
  | inr (_, v') => advance counter_fields item_ok (r_vars r) v'
  end.
Proof.
  pose proof (gate_step_progress choice r) as H.
  destruct (gstep choice r) as [r'|[e v']]; [apply progress_advance, H | exact H].
Qed.

Lemma calls_app (tr1 tr2 : list (@event T R)) :
  calls (tr1 ++ tr2) = calls tr1 ++ calls tr2.
Proof. apply omap_app. Qed.

Lemma calls_started st (l : list (T * nat)) :
  calls (rev (map (start_event st) l)) = rev l.
Proof.
  induction l as [|[item index] l IH]; simpl; [reflexivity|].
  rewrite calls_app, IH. reflexivity.
Qed.

Lemma started_sound st (l : list (T * nat)) : Forall sound (map (started st) l).
Proof.
  induction l as [|p l IH]; constructor; [|exact IH].
  unfold task_sound. simpl. exists st. reflexivity.
Qed.

(** Sums over the tasks that have just started. *)
Lemma started_sum (w : @task T R -> nat) n st (l : list (T * nat)) :
  (forall item index o, w (Task item index (AwaitProcess o)) = n) ->
  sum_list_with w (map (started st) l) = (n * length l)%nat.
Proof.
  intros Hw. induction l as [|p l IH]; simpl; [lia|]. rewrite Hw, IH. lia.
Qed.

Lemma started_rejections st (l : list (T * nat)) :
  sum_list_with awaits_rejection (map (started st) l) =
  count (is_rejected_call processFunction) (rev (map (start_event st) l)).
Proof.
  induction l as [|p l IH]; simpl; [reflexivity|].
  rewrite count_app, count_cons, count_nil, IH.
  unfold awaits_rejection. simpl.
  destruct (processFunction p.1 p.2 st); lia.
Qed.

(** What one resumption does to the task and to the counter. *)
Lemma resume_facts tk bp v bp' v' res :
  resume tk bp v = (bp', (v', res)) ->
  calls (trace v') = calls (trace v) /\
  match res with
  | Suspended ph =>
      let tk' := Task (t_item tk) (t_index tk) ph in
      (sound tk -> sound tk') /\
      (task_weight tk' < task_weight tk)%nat /\
      awaits_process tk' = 0%nat /\
      awaits_rejection tk' = 0%nat /\
      bp' = bp + Z.of_nat (awaits_item_success tk') /\
      (awaits_item_success tk = 1%nat -> awaits_item_success tk' = 0%nat)
  | Settled => bp' = bp /\ awaits_process tk = 0%nat
  | TaskRejected _ => bp' = bp
  end.
Proof.
  intros H. unfold task_sound, task_weight, awaits_process, awaits_rejection,
    awaits_item_success.
  resume_cases H; rewrite ?Hph; simpl; (split; [reflexivity|]);
    repeat split; try lia; intros; eauto.
Qed.

Lemma submit_all_inv limit batch v g v' :
  (1 <= limit)%nat ->
  submit_all processFunction (Gate limit [] []) batch v = (g, v') ->
  einv batch (Running 0 g v').
Proof.
  intros Hlimit. unfold submit_all. rewrite start_queued_spec. simpl. intros [= <- <-].
  set (subs := imap (fun index item => (item, index)) batch).
  split; simpl.
  - apply started_sound.
  - exact Hlimit.
  - rewrite length_map, length_take. lia.
  - intros Hq. rewrite length_map, length_take.
    destruct (decide (length subs <= limit)%nat) as [Hle|Hgt]; [|lia].
    rewrite drop_ge in Hq by exact Hle. contradiction.
  - rewrite (started_sum _ 0) by reflexivity. lia.
  - exists limit, (calls (trace v)). split; [reflexivity|].
    rewrite calls_app, calls_started. reflexivity.
Qed.

Lemma gate_step_inv batch choice r r' :
  einv batch r -> gstep choice r = inl r' -> einv batch r'.
Proof.
  intros [Hsound Hceil Hbound Hfull Hcount (n & older & Hq & Hcalls)].
  unfold gate_step.
  destruct (active (r_gate r) !! _) as [tk|] eqn:Hk.
  2:{ intros [= <-]. split; eauto. }
  destruct (resume tk (r_counter r) (r_vars r)) as [bp [v res]] eqn:Hres.
  pose proof (resume_facts _ _ _ _ _ _ Hres) as [Hcalls' Hfacts].
  pose proof (lookup_lt_Some _ _ _ Hk) as Hlt.
  destruct res as [ph| |e]; [| |discriminate].
  - intros [= <-]. destruct Hfacts as (Hs & _ & _ & _ & Hbp & Hleave).
    split; simpl.
    + apply Forall_insert; [exact Hsound|]. apply Hs.
      eapply Forall_lookup_1; eassumption.
    + exact Hceil.
    + rewrite length_insert. exact Hbound.
    + rewrite length_insert. exact Hfull.
    + pose proof (sum_list_with_insert awaits_item_success _ _ _
                    (Task (t_item tk) (t_index tk) ph) Hk) as Hsum.
      assert (awaits_item_success tk <= 1)%nat
        by (unfold awaits_item_success; destruct (t_phase tk); lia).
      destruct (decide (awaits_item_success tk = 1%nat)) as [H1|H1];
        [specialize (Hleave H1)|]; lia.
    + exists n, older. rewrite Hcalls'. split; assumption.
  - rewrite start_queued_spec. intros [= <-]. destruct Hfacts as [-> Hnp].
    pose proof (length_delete (active (r_gate r)) _ (mk_is_Some _ _ Hk)) as Hlen.
    set (slots := (ceiling (r_gate r) - length (delete _ (active (r_gate r))))%nat) in *.
    split; simpl.
    + apply Forall_app. split; [apply Forall_delete, Hsound | apply started_sound].
    + exact Hceil.
    + rewrite length_app, length_map, length_take. lia.
    + intros Hq'. rewrite length_app, length_map, length_take.
      destruct (decide (length (queue (r_gate r)) <= slots)%nat) as [Hle|Hgt]; [|lia].
      rewrite drop_ge in Hq' by exact Hle. contradiction.
    + rewrite sum_list_with_app, (started_sum _ 0) by reflexivity.
      pose proof (sum_list_with_delete awaits_item_success _ _ _ Hk). lia.
    + exists (n + slots)%nat, older. rewrite Hq, drop_drop. split; [reflexivity|].
      rewrite calls_app, calls_started, Hcalls', Hcalls, <- take_take_drop.
      rewrite rev_app_distr, app_assoc. reflexivity.
Qed.

Lemma task_weight_pos (tk : @task T R) : (1 <= task_weight tk)%nat.
Proof. unfold task_weight. destruct (t_phase tk); lia. Qed.

Lemma awaits_rejection_le (tk : @task T R) :
  (awaits_rejection tk <= awaits_process tk)%nat.
Proof.
  unfold awaits_rejection, awaits_process.
  destruct (t_phase tk) as [[?|?]| | |]; lia.
Qed.

Lemma choice_lookup (act : list (@task T R)) choice :
  act <> [] -> exists tk, act !! (choice `mod` length act)%nat = Some tk.
Proof.
  intros Hne. apply lookup_lt_is_Some_2, Nat.mod_upper_bound.
  destruct act; [contradiction | simpl; lia].
Qed.

Lemma gate_step_ceiling choice r r' :
  gstep choice r = inl r' -> ceiling (r_gate r') = ceiling (r_gate r).
Proof.
  unfold gate_step. destruct (active (r_gate r) !! _) as [tk|]; [|intros [= <-]; reflexivity].
  destruct (resume tk (r_counter r) (r_vars r)) as [bp [v res]].
  destruct res as [ph| |e]; [| |discriminate].
  - intros [= <-]. reflexivity.
  - rewrite start_queued_spec. intros [= <-]. reflexivity.
Qed.

Lemma einv_drained batch r :
  einv batch r -> active (r_gate r) = [] ->
  queue (r_gate r) = [] /\ pending (r_gate r) = 0%nat /\ gate_weight (r_gate r) = 0%nat.
Proof.
  intros Hinv Hact. pose proof (ei_ceiling _ _ _ _ _ _ _ Hinv) as Hc.
  pose proof (ei_full _ _ _ _ _ _ _ Hinv) as Hfull.
  unfold pending, gate_weight. rewrite Hact in *. simpl in *.
  destruct (queue (r_gate r)) as [|p q]; [repeat split; reflexivity|].
  specialize (Hfull ltac:(discriminate)). lia.
Qed.

(** Every resumption brings the batch closer to its end. *)
Lemma gate_step_weight choice r :
  active (r_gate r) <> [] ->
  match gstep choice r with
  | inl r' => (gate_weight (r_gate r') < gate_weight (r_gate r))%nat
  | inr _ => True
  end.
Proof.
  intros Hne. unfold gate_step.
  destruct (choice_lookup _ choice Hne) as [tk Hk]. rewrite Hk.
  destruct (resume tk (r_counter r) (r_vars r)) as [bp [v res]] eqn:Hres.
  pose proof (resume_facts _ _ _ _ _ _ Hres) as [_ Hfacts].
  destruct res as [ph| |e]; [| |exact I].
  - destruct Hfacts as (_ & Hw & _). unfold gate_weight. simpl.
    pose proof (sum_list_with_insert task_weight _ _ _
                  (Task (t_item tk) (t_index tk) ph) Hk). lia.
  - rewrite start_queued_spec. unfold gate_weight. simpl.
    rewrite sum_list_with_app, (started_sum _ 4) by reflexivity.
    pose proof (sum_list_with_delete task_weight _ _ _ Hk).
    pose proof (task_weight_pos tk).
    rewrite length_take, length_drop. lia.
Qed.










Section Failing.

Hypothesis always_rejected :
  forall item index st, exists e, processFunction item index st = Rejected e.




End Failing.

Section Accounting.

(** The two callbacks awaited inside the [try] block complete. *)
Hypothesis onItemSuccess_completes :
  forall item result n st, onItemSuccess item result n st = Completes.
Hypothesis onStateUpdate_completes :
  forall st, onStateUpdate st info = Completes.

Lemma resume_account tk bp v bp' v' res :
  sound tk ->
  resume tk bp v = (bp', (v', res)) ->
  (forall e, res <> TaskRejected e) ->
  totalProcessed v' + totalFailed v' =
    totalProcessed v + totalFailed v + Z.of_nat (awaits_process tk) /\
  count is_item_error (trace v') =
    (count is_item_error (trace v) + awaits_rejection tk)%nat /\
  count (is_rejected_call processFunction) (trace v') =
    count (is_rejected_call processFunction) (trace v).
Proof.
  intros Hs H Hnr. unfold task_sound, awaits_process, awaits_rejection in *.
  resume_cases H; simpl; rewrite ?count_cons; simpl;
    try (repeat split; lia); try (exfalso; eapply Hnr; reflexivity).
  - destruct Hs as (? & ? & ? & Hs). rewrite onItemSuccess_completes in Hs.
    discriminate.
  - destruct Hs as (? & Hs). rewrite onStateUpdate_completes in Hs.
    discriminate.
Qed.

(** Items are counted once: the counters and the items still to be
    counted add up to the same number after a resumption, and so do the
    reported errors and the rejected calls still to be reported. *)
Lemma gate_step_account batch choice r r' :
  einv batch r -> gstep choice r = inl r' ->
  totalProcessed (r_vars r') + totalFailed (r_vars r') + Z.of_nat (pending (r_gate r')) =
    totalProcessed (r_vars r) + totalFailed (r_vars r) + Z.of_nat (pending (r_gate r)) /\
  (count is_item_error (trace (r_vars r'))
     + sum_list_with awaits_rejection (active (r_gate r'))
     + count (is_rejected_call processFunction) (trace (r_vars r)) =
   count is_item_error (trace (r_vars r))
     + sum_list_with awaits_rejection (active (r_gate r))
     + count (is_rejected_call processFunction) (trace (r_vars r')))%nat.
Proof.
  intros Hinv. unfold gate_step.
  destruct (active (r_gate r) !! _) as [tk|] eqn:Hk.
  2:{ intros [= <-]. split; lia. }
  destruct (resume tk (r_counter r) (r_vars r)) as [bp [v res]] eqn:Hres.
  assert (Hs : sound tk) by (eapply Forall_lookup_1; [apply Hinv | exact Hk]).
  pose proof (resume_facts _ _ _ _ _ _ Hres) as [_ Hfacts].
  pose proof (awaits_rejection_le tk) as Hle.
  destruct res as [ph| |e]; [| |discriminate];
    pose proof (resume_account _ _ _ _ _ _ Hs Hres ltac:(discriminate)) as (Hsum & Herr & Hrej).
  - intros [= <-]. destruct Hfacts as (_ & _ & Hnp & Hnr & _). unfold pending. simpl.
    pose proof (sum_list_with_insert awaits_process _ _ _
                  (Task (t_item tk) (t_index tk) ph) Hk).
    pose proof (sum_list_with_insert awaits_rejection _ _ _
                  (Task (t_item tk) (t_index tk) ph) Hk).
    split; lia.
  - rewrite start_queued_spec. intros [= <-]. destruct Hfacts as [_ Hnp].
    unfold pending. simpl.
    rewrite !sum_list_with_app, (started_sum _ 1) by reflexivity.
    rewrite started_rejections, !count_app.
    pose proof (sum_list_with_delete awaits_process _ _ _ Hk).
    pose proof (sum_list_with_delete awaits_rejection _ _ _ Hk).
    assert (Hnone : count is_item_error
              (rev (map (start_event (currentState v))
                 (take (ceiling (r_gate r) - length (delete (choice `mod` length (active (r_gate r)))%nat (active (r_gate r))))%nat (queue (r_gate r))))) = 0%nat).
    { induction (take _ (queue (r_gate r))) as [|p l IHl]; simpl; [reflexivity|].
      rewrite count_app, count_cons, count_nil, IHl. reflexivity. }
    rewrite Hnone, length_take, length_drop. split; lia.
Qed.

End Accounting.

(** A task rejects only when [onItemError] throws, or when its [catch]
    block cannot convert what it caught. *)
Lemma gate_step_no_reject batch choice r e v :
  (forall item err n st, onItemError item err n st = Completes) ->
  catches_convertible processFunction onItemSuccess onStateUpdate info ->
  einv batch r -> gstep choice r <> inr (e, v).
Proof.
  intros Hok (Hprocess & Hsuccess & Hupdate) Hinv. unfold gate_step.
  destruct (active (r_gate r) !! _) as [tk|] eqn:Hk; [|discriminate].
  destruct (resume tk (r_counter r) (r_vars r)) as [bp [v' res]] eqn:Hres.
  assert (Hs : sound tk) by (eapply Forall_lookup_1; [apply Hinv | exact Hk]).
  destruct res as [ph| |e']; try discriminate.
  - destruct (start_queued _ _ _ _ _ _). discriminate.
  - exfalso. unfold task_sound in Hs. resume_cases Hres.
    + destruct Hs as (st & Hs). symmetry in Hs. apply Hprocess in Hs.
      unfold convertible in Hs. rewrite Hwrap in Hs. discriminate.
    + destruct Hs as (result & n & st & Hs). symmetry in Hs. apply Hsuccess in Hs.
      unfold convertible in Hs. rewrite Hwrap in Hs. discriminate.
    + destruct Hs as (st & Hs). symmetry in Hs. apply Hupdate in Hs.
      unfold convertible in Hs. rewrite Hwrap in Hs. discriminate.
    + destruct Hs as (? & ? & ? & Hs).
      rewrite Hok in Hs. discriminate.
Qed.

Lemma completing_catches_convertible :
  rejections_convertible processFunction ->
  (forall item result n st, onItemSuccess item result n st = Completes) ->
  (forall st, onStateUpdate st info = Completes) ->
  catches_convertible processFunction onItemSuccess onStateUpdate info.
Proof.
  intros Hprocess Hsuccess Hupdate. split; [exact Hprocess|]. split.
  - intros item result n st error H. rewrite Hsuccess in H. discriminate.
  - intros st error H. rewrite Hupdate in H. discriminate.
Qed.

Lemma submit_all_account limit batch v g v' :
  submit_all processFunction (Gate limit [] []) batch v = (g, v') ->
  pending g = length batch /\
  gate_weight g = (4 * length batch)%nat /\
  totalProcessed v' = totalProcessed v /\
  totalFailed v' = totalFailed v /\
  currentState v' = currentState v /\
  count is_item_error (trace v') = count is_item_error (trace v) /\
  count (is_rejected_call processFunction) (trace v') =
    (sum_list_with awaits_rejection (active g)
     + count (is_rejected_call processFunction) (trace v))%nat.
Proof.
  unfold submit_all. rewrite start_queued_spec. simpl. intros [= <- <-].
  unfold pending, gate_weight. simpl.
  rewrite (started_sum _ 1), (started_sum _ 4) by reflexivity.
  rewrite started_rejections, !count_app, length_take, length_drop, length_imap.
  assert (Hnone : forall l : list (T * nat),
            count is_item_error (rev (map (start_event (currentState v)) l)) = 0%nat).
  { induction l as [|p l IHl]; simpl; [reflexivity|].
    rewrite count_app, count_cons, count_nil, IHl. reflexivity. }
  rewrite Hnone. repeat split; lia.
Qed.

End ItemTaskFacts.

(** ** processBatches *)

Section ProcessBatchesFacts.

Context {T R : Type}.
Variable clock : nat -> string.
Variable items : list T.
Variable processFunction : T -> nat -> State -> settled R.
Variable options : BatchOptions.t T R.

Import BatchOptions.

Local Abbreviation step := (batch_step clock items processFunction options).
Local Abbreviation run := (processBatches clock items processFunction options).
Local Abbreviation init := (processBatches_init options).
Local Abbreviation inv := (batch_inv items processFunction options).
Local Abbreviation len := (Z.of_nat (length items)).

Lemma progress_log keys (P : @event T R -> Prop) e v :
  P e -> is_item_success e = false -> is_item_error e = false ->
  progress keys P v (log e v).
Proof.
  intros HP Hs He. eapply progress_event; [reflexivity | exact HP | | |].
  - rewrite Hs. simpl. lia.
  - rewrite He. simpl. lia.
  - apply frame_refl.
Qed.

Lemma progress_set_state keys (P : @event T R -> Prop) s v :
  frame keys (currentState v) s -> progress keys P v (set_state s v).
Proof.
  intros Hs. exists []. rewrite !count_nil. simpl.
  split; [reflexivity|]. split; [constructor|].
  split; [lia|]. split; [lia | exact Hs].
Qed.

Lemma item_ok_wrapped (e : @event T R) : item_event e /\ error_wrapped e -> error_wrapped e.
Proof. intros [_ H]. exact H. Qed.

Lemma batch_begin_progress i v :
  progress counter_fields error_wrapped v
    (m_vars (batch_begin items processFunction options i v)).
Proof.
  unfold batch_begin. destruct (i <? len); [|apply progress_refl].
  set (v1 := log _ v).
  assert (H1 : progress counter_fields error_wrapped v v1)
    by (apply progress_log; [exact I | reflexivity | reflexivity]).
  destruct (onBatchStart options _ _ _ _); [|exact H1].
  destruct (pLimit _) as [limit|e]; [|exact H1].
  destruct (submit_all _ _ _ _) as [g v2] eqn:Hsub. simpl.
  eapply progress_trans; [exact H1|].
  eapply progress_weaken; [reflexivity | apply item_ok_wrapped |].
  eapply start_queued_progress, Hsub.
Qed.

Lemma batch_end_progress i batch batchNumber v :
  progress counter_fields error_wrapped v
    (m_vars (batch_end clock items options i batch batchNumber v)).
Proof.
  unfold batch_end.
  set (v1 := set_state _ v). set (v2 := log _ v1). set (v3 := log _ v2).
  assert (H1 : progress counter_fields error_wrapped v v2).
  { eapply progress_trans; [apply progress_set_state, frame_snapshot|].
    apply progress_log; [exact I | reflexivity | reflexivity]. }
  assert (H2 : progress counter_fields error_wrapped v v3).
  { eapply progress_trans; [exact H1|].
    apply progress_log; [exact I | reflexivity | reflexivity]. }
  destruct (onStateUpdate options _ _); [|exact H1].
  destruct (onBatchComplete options _ _ _ _ _ _); [exact H2 | exact H2].
Qed.

(** A step that does not reject the run counts what it reports. *)
Lemma batch_step_progress choice m :
  ~ is_aborted (step choice m) ->
  progress counter_fields error_wrapped (m_vars m) (m_vars (step choice m)).
Proof.
  destruct m as [i v|i batch batchNumber r|res v|e v]; simpl;
    try (intros _; apply progress_refl).
  - intros _. apply batch_begin_progress.
  - destruct (active (r_gate r)) eqn:Hact; [intros _; apply batch_end_progress|].
    pose proof (gate_step_progress clock processFunction (onItemSuccess options)
                  (onItemError options) (onStateUpdate options)
                  (stateUpdateInterval options) (Some (batchNumber, totalBatches items options))
                  (Z.of_nat (length batch)) choice r) as Hp.
    destruct (gate_step _ _ _ _ _ _ _ _ _ _) as [r'|[e v']]; simpl; [intros _|tauto].
    eapply progress_weaken; [reflexivity | apply item_ok_wrapped | exact Hp].
Qed.

Lemma batch_step_advance choice m :
  advance counter_fields error_wrapped (m_vars m) (m_vars (step choice m)).
Proof.
  destruct m as [i v|i batch batchNumber r|res v|e v]; simpl;
    try apply advance_refl.
  - apply progress_advance, batch_begin_progress.
  - destruct (active (r_gate r)) eqn:Hact;
      [apply progress_advance, batch_end_progress|].
    pose proof (gate_step_advance clock processFunction (onItemSuccess options)
                  (onItemError options) (onStateUpdate options)
                  (stateUpdateInterval options) (Some (batchNumber, totalBatches items options))
                  (Z.of_nat (length batch)) choice r) as Hp.
    destruct (gate_step _ _ _ _ _ _ _ _ _ _) as [r'|[e v']]; simpl;
      (eapply advance_weaken; [reflexivity | apply item_ok_wrapped | exact Hp]).
Qed.

Lemma run_app s1 s2 :
  run (s1 ++ s2) = fold_left (fun m choice => step choice m) s2 (run s1).
Proof. unfold processBatches. apply fold_left_app. Qed.

(** A run that is rejected stays rejected. *)
Lemma steps_aborted s e v :
  fold_left (fun m choice => step choice m) s (Aborted e v) = Aborted e v.
Proof. induction s as [|c s IH]; simpl; [reflexivity | exact IH]. Qed.

Lemma steps_progress s m :
  ~ is_aborted (fold_left (fun m choice => step choice m) s m) ->
  progress counter_fields error_wrapped (m_vars m)
    (m_vars (fold_left (fun m choice => step choice m) s m)).
Proof.
  revert m. induction s as [|c s IH]; intros m; simpl; [intros _; apply progress_refl|].
  intros Hna.
  assert (Hstep : ~ is_aborted (step c m)).
  { intros Hab. destruct (step c m) as [| | |e v] eqn:Hm; try exact Hab.
    rewrite steps_aborted in Hna. apply Hna. exact I. }
  eapply progress_trans; [apply batch_step_progress, Hstep | apply IH, Hna].
Qed.

Lemma steps_advance s m :
  advance counter_fields error_wrapped (m_vars m)
    (m_vars (fold_left (fun m choice => step choice m) s m)).
Proof.
  revert m. induction s as [|c s IH]; intros m; simpl; [apply advance_refl|].
  eapply advance_trans; [apply batch_step_advance | apply IH].
Qed.

Lemma run_progress s :
  ~ is_aborted (run s) ->
  progress counter_fields error_wrapped (m_vars init) (m_vars (run s)).
Proof. apply steps_progress. Qed.

Lemma run_advance s :
  advance counter_fields error_wrapped (m_vars init) (m_vars (run s)).
Proof. apply steps_advance. Qed.

Lemma batch_inv_init : inv init.
Proof. exact I. Qed.

Lemma batch_inv_step choice m : inv m -> inv (step choice m).
Proof.
  destruct m as [i v|i batch batchNumber r|res v|e v]; simpl; try (intros H; exact H).
  - intros _. unfold batch_begin. destruct (i <? len); [|reflexivity].
    destruct (onBatchStart options _ _ _ _); [|exact I].
    destruct (pLimit _) as [limit|e] eqn:Hlimit; [|exact I].
    apply pLimit_resolved in Hlimit as [Hc ->].
    destruct (submit_all _ _ _ _) as [g v2] eqn:Hsub. simpl. split.
    + eapply submit_all_inv; [|exact Hsub]. lia.
    + unfold submit_all in Hsub. rewrite start_queued_spec in Hsub.
      injection Hsub as <- _. reflexivity.
  - intros [Hinv Hceil]. destruct (active (r_gate r)) eqn:Hact.
    + unfold batch_end. destruct (onStateUpdate options _ _); [|exact I].
      destruct (onBatchComplete options _ _ _ _ _ _); exact I.
    + destruct (gate_step _ _ _ _ _ _ _ _ _ _) as [r'|[e v']] eqn:Hstep; [|exact I].
      simpl. split.
      * eapply gate_step_inv; eassumption.
      * erewrite gate_step_ceiling by eassumption. exact Hceil.
Qed.

Lemma run_inv s : inv (run s).
Proof.
  unfold processBatches.
  apply (fold_left_invariant (fun m c => step c m)); [|exact batch_inv_init].
  intros m c. apply batch_inv_step.
Qed.

Lemma batch_pos_step choice m :
  1 <= batchSize options ->
  batch_pos items options m -> batch_pos items options (step choice m).
Proof.
  intros Hbs. destruct m as [i v|i batch batchNumber r|res v|e v]; simpl;
    try (intros H; exact H).
  - intros Hi. unfold batch_begin. destruct (Z.ltb_spec i len); [|exact I].
    destruct (onBatchStart options _ _ _ _); [|exact I].
    destruct (pLimit _) as [limit|e]; [|exact I].
    destruct (submit_all _ _ _ _) as [g v2]. simpl.
    split; [lia|]. apply slice_length; lia.
  - intros [Hi Hlen]. destruct (active (r_gate r)).
    + unfold batch_end. destruct (onStateUpdate options _ _); [|exact I].
      destruct (onBatchComplete options _ _ _ _ _ _); simpl; [lia | exact I].
    + destruct (gate_step _ _ _ _ _ _ _ _ _ _) as [r'|[e v']]; simpl; [|exact I].
      split; assumption.
Qed.

Lemma batch_stuck_step choice m :
  batchSize options <= 0 ->
  batch_stuck items m -> batch_stuck items (step choice m).
Proof.
  intros Hbs. destruct m as [i v|i batch batchNumber r|res v|e v]; simpl;
    try (intros H; exact H).
  - intros Hi. unfold batch_begin. destruct (Z.ltb_spec i len).
    + destruct (onBatchStart options _ _ _ _); [|exact I].
      destruct (pLimit _) as [limit|e]; [|exact I].
      destruct (submit_all _ _ _ _) as [g v2]. simpl. exact Hi.
    + simpl. destruct items; [reflexivity | simpl in *; lia].
  - intros Hi. destruct (active (r_gate r)).
    + unfold batch_end. destruct (onStateUpdate options _ _); [|exact I].
      destruct (onBatchComplete options _ _ _ _ _ _); simpl; [lia | exact I].
    + destruct (gate_step _ _ _ _ _ _ _ _ _ _) as [r'|[e v']]; simpl; [|exact I].
      exact Hi.
Qed.

(** With a [batchSize] that is not positive the loop never ends on a
    non-empty array. *)
Lemma run_stuck s :
  batchSize options <= 0 -> batch_stuck items (run s).
Proof.
  intros Hbs. unfold processBatches.
  apply (fold_left_invariant (fun m c => step c m)); [|simpl; lia].
  intros m c. apply batch_stuck_step, Hbs.
Qed.

Lemma batch_measure_step choice m :
  1 <= batchSize options ->
  inv m -> batch_pos items options m ->
  (batch_measure items (step choice m) < batch_measure items m)%nat
  \/ batch_measure items m = 0%nat.
Proof.
  intros Hbs. destruct m as [i v|i batch batchNumber r|res v|e v]; simpl;
    try (intros _ _; right; reflexivity).
  - intros _ Hi. left. unfold batch_begin. destruct (Z.ltb_spec i len); [|simpl; lia].
    destruct (onBatchStart options _ _ _ _); [|simpl; lia].
    destruct (pLimit _) as [limit|e] eqn:Hlimit; [|simpl; lia].
    apply pLimit_resolved in Hlimit as [Hc ->].
    destruct (submit_all _ _ _ _) as [g v2] eqn:Hsub. simpl.
    apply submit_all_account in Hsub as (_ & -> & _).
    pose proof (slice_length items i (batchSize options) ltac:(lia) ltac:(lia)).
    lia.
  - intros [Hinv Hceil] [Hi Hlen]. left. destruct (active (r_gate r)) eqn:Hact.
    + destruct (einv_drained _ _ _ _ _ _ _ Hinv Hact) as (_ & _ & ->).
      unfold batch_end. destruct (onStateUpdate options _ _); [|simpl; lia].
      destruct (onBatchComplete options _ _ _ _ _ _); simpl; lia.
    + pose proof (gate_step_weight clock processFunction (onItemSuccess options)
                    (onItemError options) (onStateUpdate options)
                    (stateUpdateInterval options) (Some (batchNumber, totalBatches items options))
                    (Z.of_nat (length batch)) choice r) as Hw.
      rewrite Hact in Hw. specialize (Hw ltac:(discriminate)).
      destruct (gate_step _ _ _ _ _ _ _ _ _ _) as [r'|[e v']]; simpl; lia.
Qed.

Lemma batch_measure_fixed choice m :
  batch_measure items m = 0%nat -> step choice m = m.
Proof.
  destruct m as [i v|i batch batchNumber r|res v|e v]; simpl;
    try reflexivity; lia.
Qed.

Lemma steps_terminate s m :
  1 <= batchSize options ->
  inv m -> batch_pos items options m ->
  (batch_measure items m <= length s)%nat ->
  batch_measure items (fold_left (fun m choice => step choice m) s m) = 0%nat.
Proof.
  intros Hbs. revert m. induction s as [|c s IH]; intros m Hinv Hpos Hlen; simpl in *.
  - lia.
  - destruct (batch_measure_step c m Hbs Hinv Hpos) as [Hlt|H0].
    + apply IH; [apply batch_inv_step, Hinv | apply batch_pos_step; assumption | lia].
    + rewrite (batch_measure_fixed c m H0).
      apply IH; [assumption | assumption | lia].
Qed.

(** With a positive [batchSize] every run ends, whatever the schedule. *)
Lemma run_terminates s :
  1 <= batchSize options ->
  (6 * length items + 1 <= length s)%nat ->
  batch_measure items (run s) = 0%nat.
Proof.
  intros Hbs Hlen. unfold processBatches.
  apply steps_terminate; [exact Hbs | exact I | simpl; lia | simpl; lia].
Qed.

Section Completing.

(** The two callbacks awaited inside the [try] block complete. *)
Hypothesis onItemSuccess_completes :
  forall item result n st, onItemSuccess options item result n st = Completes.
Hypothesis onStateUpdate_completes :
  forall st info, onStateUpdate options st info = Completes.

Lemma batch_account_step choice m :
  1 <= batchSize options ->
  inv m -> batch_pos items options m ->
  batch_account items processFunction options m ->
  batch_account items processFunction options (step choice m).
Proof.
  intros Hbs. destruct m as [i v|i batch batchNumber r|res v|e v]; simpl;
    try (intros _ _ H; exact H).
  - intros _ Hi [Hsum Hbal]. unfold batch_begin. destruct (Z.ltb_spec i len).
    + destruct (onBatchStart options _ _ _ _); [|exact I].
      destruct (pLimit _) as [limit|e] eqn:Hlimit; [|exact I].
      apply pLimit_resolved in Hlimit as [Hc ->].
      destruct (submit_all _ _ _ _) as [g v2] eqn:Hsub. simpl.
      apply submit_all_account in Hsub as (-> & _ & -> & -> & _ & -> & ->).
      simpl. rewrite !count_cons. simpl. split; lia.
    + simpl. split; [lia | exact Hbal].
  - intros [Hinv Hceil] [Hi Hlen] [Hsum Hbal]. destruct (active (r_gate r)) eqn:Hact.
    + destruct (einv_drained _ _ _ _ _ _ _ Hinv Hact) as (_ & Hpend & _).
      rewrite Hpend in Hsum. simpl in Hbal.
      unfold batch_end. destruct (onStateUpdate options _ _); [|exact I].
      destruct (onBatchComplete options _ _ _ _ _ _); [|exact I].
      simpl. rewrite !count_cons. simpl. split; lia.
    + rewrite <- Hact in Hbal.
      destruct (gate_step _ _ _ _ _ _ _ _ _ _) as [r'|[e v']] eqn:Hstep; [|exact I].
      simpl.
      pose proof (gate_step_account clock processFunction (onItemSuccess options)
                    (onItemError options) (onStateUpdate options)
                    (stateUpdateInterval options) (Some (batchNumber, totalBatches items options))
                    (Z.of_nat (length batch)) onItemSuccess_completes
                    (fun st => onStateUpdate_completes st _)
                    batch choice r r' Hinv Hstep) as [Hsum' Hbal'].
      split; lia.
Qed.

Lemma run_account s :
  1 <= batchSize options ->
  batch_account items processFunction options (run s).
Proof.
  intros Hbs.
  enough (inv (run s) /\ batch_pos items options (run s)
          /\ batch_account items processFunction options (run s)) by tauto.
  unfold processBatches.
  apply (fold_left_invariant (fun m c => step c m)
           (fun m => inv m /\ batch_pos items options m
                     /\ batch_account items processFunction options m)).
  - intros m c (Hinv & Hpos & Hacc). split; [apply batch_inv_step, Hinv|].
    split; [apply batch_pos_step; assumption | apply batch_account_step; assumption].
  - split; [exact I|]. split; simpl; [lia|]. rewrite !count_nil. split; [lia | reflexivity].
Qed.

End Completing.

Lemma batch_step_not_aborted choice m :
  callbacks_complete options -> 1 <= concurrencyLimit options ->
  rejections_convertible processFunction ->
  inv m -> ~ is_aborted m -> ~ is_aborted (step choice m).
Proof.
  intros (Hstart & Hcomplete & Hsuccess & Herror & Hupdate) Hlimit Hconv.
  destruct m as [i v|i batch batchNumber r|res v|e v]; simpl;
    try (intros _ H; exact H).
  - intros _ _. unfold batch_begin. destruct (i <? len); [|simpl; tauto].
    rewrite Hstart. unfold pLimit. destruct (Z.leb_spec 1 (concurrencyLimit options)); [|lia].
    destruct (submit_all _ _ _ _). simpl. tauto.
  - intros [Hinv _] _. destruct (active (r_gate r)).
    + unfold batch_end. rewrite Hupdate, Hcomplete. simpl. tauto.
    + destruct (gate_step _ _ _ _ _ _ _ _ _ _) as [r'|[e v']] eqn:Hstep; simpl; [tauto|].
      exfalso. eapply gate_step_no_reject; [exact Herror | | exact Hinv | exact Hstep].
      apply completing_catches_convertible; [exact Hconv | exact Hsuccess|].
      intros st. apply Hupdate.
Qed.

Lemma run_not_aborted s :
  callbacks_complete options -> 1 <= concurrencyLimit options ->
  rejections_convertible processFunction ->
  ~ is_aborted (run s).
Proof.
  intros Hcb Hlimit Hconv.
  enough (inv (run s) /\ ~ is_aborted (run s)) by tauto.
  unfold processBatches.
  apply (fold_left_invariant (fun m c => step c m) (fun m => inv m /\ ~ is_aborted m)).
  - intros m c [Hinv Hna]. split; [apply batch_inv_step, Hinv|].
    apply batch_step_not_aborted; assumption.
  - split; [exact I | simpl; tauto].
Qed.

(** With a positive [batchSize] and gate ceiling, callbacks that
    complete and rejections that the [catch] block can wrap, every run
    returns. *)
Lemma run_finishes s :
  1 <= batchSize options -> 1 <= concurrencyLimit options ->
  callbacks_complete options ->
  rejections_convertible processFunction ->
  (6 * length items + 1 <= length s)%nat ->
  exists v, run s = Finished {| processed := totalProcessed v;
                                failed := totalFailed v;
                                state := currentState v |} v.
Proof.
  intros Hbs Hlimit Hcb Hconv Hlen.
  pose proof (run_terminates s Hbs Hlen) as Hend.
  pose proof (run_not_aborted s Hcb Hlimit Hconv) as Hna.
  pose proof (run_inv s) as Hinv.
  destruct (run s) as [i v|i batch batchNumber r|res v|e v]; simpl in *;
    try lia; try tauto.
  exists v. rewrite Hinv. reflexivity.
Qed.



Lemma steps_fixed s m :
  batch_measure items m = 0%nat ->
  fold_left (fun m choice => step choice m) s m = m.
Proof.
  intros H0. induction s as [|c s IH]; simpl; [reflexivity|].
  rewrite (batch_measure_fixed c m H0). exact IH.
Qed.

(** Nothing to do: the first test of the loop fails. *)
Lemma run_empty choice s :
  items = [] ->
  run (choice :: s) =
    Finished {| processed := num_or (initialState options !! "totalProcessed") 0;
                failed := num_or (initialState options !! "totalFailed") 0;
                state := initialState options |}
      (Vars (num_or (initialState options !! "totalProcessed") 0)
            (num_or (initialState options !! "totalFailed") 0)
            (initialState options) []).
Proof.
  intros Hitems. unfold processBatches. simpl. unfold batch_begin.
  assert (Hlen : (0 <? Z.of_nat (length items)) = false)
    by (rewrite Hitems; reflexivity).
  rewrite Hlen. apply steps_fixed. reflexivity.
Qed.

(** The result is the driver's variables at the end. *)
Lemma run_result s res v :
  run s = Finished res v ->
  res = {| processed := totalProcessed v; failed := totalFailed v; state := currentState v |}.
Proof. intros H. pose proof (run_inv s) as Hinv. rewrite H in Hinv. exact Hinv. Qed.

End ProcessBatchesFacts.

(** ** processPaginatedBatches *)

Section ProcessPaginatedBatchesFacts.

Context {T R : Type}.
Variable clock : nat -> string.
Variable fetchPageFunction : Z -> State -> settled (PageData T).
Variable processFunction : T -> nat -> State -> settled R.
Variable options : PaginatedBatchOptions.t T R.

Import PaginatedBatchOptions.

Local Abbreviation pstep := (page_step clock fetchPageFunction processFunction options).
Local Abbreviation prun :=
  (processPaginatedBatches clock fetchPageFunction processFunction options).
Local Abbreviation pinit := (processPaginatedBatches_init options).
Local Abbreviation pinv := (page_inv processFunction options).
Local Abbreviation page_fields := (counter_fields ++ cursor_fields).

Lemma counter_fields_sub : counter_fields ⊆ page_fields.
Proof. intros k Hk. apply elem_of_app. left. exact Hk. Qed.

Lemma cursor_field_in k : k ∈ cursor_fields -> k ∈ page_fields.
Proof. intros Hk. apply elem_of_app. right. exact Hk. Qed.

Lemma frame_snapshot_page (v : @vars T R) :
  frame page_fields (currentState v) (snapshot clock v).
Proof.
  eapply frame_weaken; [apply counter_fields_sub | apply frame_snapshot].
Qed.

Lemma progress_set_cursor (P : @event T R -> Prop) k x s v :
  k ∈ cursor_fields -> frame page_fields (currentState v) s ->
  progress page_fields P v (set_state (<[k := x]> s) v).
Proof.
  intros Hk Hs. apply progress_set_state, frame_insert; [apply cursor_field_in, Hk | exact Hs].
Qed.

Lemma currentPage_cursor : "currentPage" ∈ cursor_fields.
Proof. unfold cursor_fields. apply list_elem_of_here. Qed.

Lemma totalPages_cursor : "totalPages" ∈ cursor_fields.
Proof. unfold cursor_fields. apply list_elem_of_further, list_elem_of_here. Qed.

Lemma page_items_step_progress page total pageData v :
  progress page_fields error_wrapped v
    (pm_vars (page_items_step processFunction options page total pageData v)).
Proof.
  unfold page_items_step. destruct (page_items pageData) as [|item rest].
  - set (v1 := log _ v). set (v2 := set_state _ v1). set (v3 := log _ v2).
    assert (H1 : progress page_fields error_wrapped v v1)
      by (apply progress_log; [exact I | reflexivity | reflexivity]).
    assert (H2 : progress page_fields error_wrapped v1 v2)
      by (apply progress_set_cursor; [apply currentPage_cursor | apply frame_refl]).
    assert (H3 : progress page_fields error_wrapped v2 v3)
      by (apply progress_log; [exact I | reflexivity | reflexivity]).
    pose proof (progress_trans _ _ _ _ _ H1 (progress_trans _ _ _ _ _ H2 H3)) as H.
    destruct (onStateUpdate options _); exact H.
  - destruct (pLimit _) as [limit|e]; [|apply progress_refl].
    destruct (submit_all _ _ _ _) as [g v2] eqn:Hsub. simpl.
    eapply progress_weaken;
      [apply counter_fields_sub | apply item_ok_wrapped | eapply start_queued_progress, Hsub].
Qed.

Lemma page_begin_progress page total v :
  progress page_fields error_wrapped v
    (pm_vars (page_begin fetchPageFunction processFunction options page total v)).
Proof.
  unfold page_begin. destruct (page <=? total); [|apply progress_refl].
  set (v1 := log _ v).
  assert (H1 : progress page_fields error_wrapped v v1)
    by (apply progress_log; [exact I | reflexivity | reflexivity]).
  destruct (onPageStart options _ _ _); [|exact H1].
  set (v2 := log _ v1).
  assert (H2 : progress page_fields error_wrapped v v2).
  { eapply progress_trans; [exact H1|].
    apply progress_log; [exact I | reflexivity | reflexivity]. }
  destruct (fetchPageFunction _ _) as [pageData|e]; [|exact H2].
  destruct (totalPages_changed _ _) as [total'|].
  - set (v3 := set_state _ v2). set (v4 := log _ v3).
    assert (H3 : progress page_fields error_wrapped v2 v3)
      by (apply progress_set_cursor; [apply totalPages_cursor | apply frame_refl]).
    assert (H34 : progress page_fields error_wrapped v3 v4)
      by (apply progress_log; [exact I | reflexivity | reflexivity]).
    pose proof (progress_trans _ _ _ _ _ H2 (progress_trans _ _ _ _ _ H3 H34)) as H4.
    destruct (onStateUpdate options _); [|exact H4].
    eapply progress_trans; [exact H4 | apply page_items_step_progress].
  - eapply progress_trans; [exact H2 | apply page_items_step_progress].
Qed.

Lemma page_end_progress page total pageProcessed v :
  progress page_fields error_wrapped v
    (pm_vars (page_end clock options page total pageProcessed v)).
Proof.
  unfold page_end.
  set (v1 := set_state _ v). set (v2 := log _ v1). set (v3 := log _ v2).
  assert (H1 : progress page_fields error_wrapped v v1)
    by (apply progress_set_cursor; [apply currentPage_cursor | apply frame_snapshot_page]).
  assert (H12 : progress page_fields error_wrapped v1 v2)
    by (apply progress_log; [exact I | reflexivity | reflexivity]).
  pose proof (progress_trans _ _ _ _ _ H1 H12) as H2.
  assert (H3 : progress page_fields error_wrapped v v3).
  { eapply progress_trans; [exact H2|].
    apply progress_log; [exact I | reflexivity | reflexivity]. }
  destruct (onStateUpdate options _); [|exact H2].
  destruct (onPageComplete options _ _ _ _ _); exact H3.
Qed.

(** A step that does not reject the run counts what it reports. *)
Lemma page_step_progress choice m :
  ~ is_paborted (pstep choice m) ->
  progress page_fields error_wrapped (pm_vars m) (pm_vars (pstep choice m)).
Proof.
  destruct m as [page total v|page total its r|res v|e v]; simpl;
    try (intros _; apply progress_refl).
  - intros _. apply page_begin_progress.
  - destruct (active (r_gate r)) eqn:Hact; [intros _; apply page_end_progress|].
    pose proof (gate_step_progress clock processFunction (onItemSuccess options)
                  (onItemError options) (fun st _ => onStateUpdate options st)
                  (stateUpdateInterval options) None
                  (Z.of_nat (length its)) choice r) as Hp.
    destruct (gate_step _ _ _ _ _ _ _ _ _ _) as [r'|[e v']]; simpl; [intros _|tauto].
    eapply progress_weaken;
      [apply counter_fields_sub | apply item_ok_wrapped | exact Hp].
Qed.

Lemma page_step_advance choice m :
  advance page_fields error_wrapped (pm_vars m) (pm_vars (pstep choice m)).
Proof.
  destruct m as [page total v|page total its r|res v|e v]; simpl;
    try apply advance_refl.
  - apply progress_advance, page_begin_progress.
  - destruct (active (r_gate r)) eqn:Hact;
      [apply progress_advance, page_end_progress|].
    pose proof (gate_step_advance clock processFunction (onItemSuccess options)
                  (onItemError options) (fun st _ => onStateUpdate options st)
                  (stateUpdateInterval options) None
                  (Z.of_nat (length its)) choice r) as Hp.
    destruct (gate_step _ _ _ _ _ _ _ _ _ _) as [r'|[e v']]; simpl;
      (eapply advance_weaken;
         [apply counter_fields_sub | apply item_ok_wrapped | exact Hp]).
Qed.

Lemma prun_app s1 s2 :
  prun (s1 ++ s2) = fold_left (fun m choice => pstep choice m) s2 (prun s1).
Proof. unfold processPaginatedBatches. apply fold_left_app. Qed.

(** A run that is rejected stays rejected. *)
Lemma psteps_aborted s e v :
  fold_left (fun m choice => pstep choice m) s (PAborted e v) = PAborted e v.
Proof. induction s as [|c s IH]; simpl; [reflexivity | exact IH]. Qed.

Lemma psteps_progress s m :
  ~ is_paborted (fold_left (fun m choice => pstep choice m) s m) ->
  progress page_fields error_wrapped (pm_vars m)
    (pm_vars (fold_left (fun m choice => pstep choice m) s m)).
Proof.
  revert m. induction s as [|c s IH]; intros m; simpl; [intros _; apply progress_refl|].
  intros Hna.
  assert (Hstep : ~ is_paborted (pstep c m)).
  { intros Hab. destruct (pstep c m) as [| | |e v] eqn:Hm; try exact Hab.
    rewrite psteps_aborted in Hna. apply Hna. exact I. }
  eapply progress_trans; [apply page_step_progress, Hstep | apply IH, Hna].
Qed.

Lemma psteps_advance s m :
  advance page_fields error_wrapped (pm_vars m)
    (pm_vars (fold_left (fun m choice => pstep choice m) s m)).
Proof.
  revert m. induction s as [|c s IH]; intros m; simpl; [apply advance_refl|].
  eapply advance_trans; [apply page_step_advance | apply IH].
Qed.

Lemma prun_progress s :
  ~ is_paborted (prun s) ->
  progress page_fields error_wrapped (pm_vars pinit) (pm_vars (prun s)).
Proof. apply psteps_progress. Qed.

Lemma prun_advance s :
  advance page_fields error_wrapped (pm_vars pinit) (pm_vars (prun s)).
Proof. apply psteps_advance. Qed.

Lemma page_inv_step choice m : pinv m -> pinv (pstep choice m).
Proof.
  destruct m as [page total v|page total its r|res v|e v]; simpl;
    try (intros H; exact H).
  - intros _. unfold page_begin. destruct (page <=? total); [|reflexivity].
    destruct (onPageStart options _ _ _); [|exact I].
    destruct (fetchPageFunction _ _) as [pageData|e]; [|exact I].
    assert (Hitems : forall v', pinv (page_items_step processFunction options
                                        page total pageData v')).
    { intros v'. unfold page_items_step. destruct (page_items pageData) as [|item rest].
      - destruct (onStateUpdate options _); exact I.
      - destruct (pLimit _) as [limit|e] eqn:Hlimit; [|exact I].
        apply pLimit_resolved in Hlimit as [Hc ->].
        destruct (submit_all _ _ _ _) as [g v2] eqn:Hsub. simpl. split.
        + eapply submit_all_inv; [|exact Hsub]. lia.
        + unfold submit_all in Hsub. rewrite start_queued_spec in Hsub.
          injection Hsub as <- _. reflexivity. }
    destruct (totalPages_changed _ _) as [total'|]; [|apply Hitems].
    destruct (onStateUpdate options _); [|exact I].
    unfold page_items_step. destruct (page_items pageData) as [|item rest].
    + destruct (onStateUpdate options _); exact I.
    + destruct (pLimit _) as [limit|e] eqn:Hlimit; [|exact I].
      apply pLimit_resolved in Hlimit as [Hc ->].
      destruct (submit_all _ _ _ _) as [g v2] eqn:Hsub. simpl. split.
      * eapply submit_all_inv; [|exact Hsub]. lia.
      * unfold submit_all in Hsub. rewrite start_queued_spec in Hsub.
        injection Hsub as <- _. reflexivity.
  - intros [Hinv Hceil]. destruct (active (r_gate r)) eqn:Hact.
    + unfold page_end. destruct (onStateUpdate options _); [|exact I].
      destruct (onPageComplete options _ _ _ _ _); exact I.
    + destruct (gate_step _ _ _ _ _ _ _ _ _ _) as [r'|[e v']] eqn:Hstep; [|exact I].
      simpl. split.
      * eapply gate_step_inv; eassumption.
      * erewrite gate_step_ceiling by eassumption. exact Hceil.
Qed.

Lemma prun_inv s : pinv (prun s).
Proof.
  unfold processPaginatedBatches.
  apply (fold_left_invariant (fun m c => pstep c m)); [|exact I].
  intros m c. apply page_inv_step.
Qed.

Lemma visited_items_items (new tr : list (@event T R)) :
  Forall item_event new ->
  visited_items fetchPageFunction (new ++ tr) = visited_items fetchPageFunction tr.
Proof.
  intros H. induction H as [|e new He _ IH]; [reflexivity|].
  unfold visited_items in *. simpl. rewrite IH. destruct e; simpl in *; tauto.
Qed.

Lemma prun_result s res v :
  prun s = PFinished res v ->
  res = {| processed := totalProcessed v; failed := totalFailed v; state := currentState v |}.
Proof. intros H. pose proof (prun_inv s) as Hinv. rewrite H in Hinv. exact Hinv. Qed.

Lemma pinit_frame :
  frame page_fields (initialState options) (currentState (pm_vars pinit)).
Proof.
  unfold processPaginatedBatches_init. simpl.
  repeat apply frame_insert; try apply frame_refl;
    first [apply cursor_field_in; first [apply currentPage_cursor | apply totalPages_cursor]
          | apply counter_fields_sub; unfold counter_fields; set_solver].
Qed.

Lemma psteps_finished s res v :
  fold_left (fun m choice => pstep choice m) s (PFinished res v) = PFinished res v.
Proof. induction s as [|c s IH]; simpl; [reflexivity | exact IH]. Qed.

(** What the rest of the loop body does once the page is at hand: it
    only adds to the trace, and it leaves [totalPages] alone. *)
Lemma page_items_step_shape page total pageData v :
  let m := page_items_step processFunction options page total pageData v in
  (exists post, trace (pm_vars m) = post ++ trace v) /\
  currentState (pm_vars m) !! "totalPages" = currentState v !! "totalPages" /\
  match m with
  | PageLoop _ total' _ | InPage _ total' _ _ => total' = total
  | PFinished _ _ => False
  | PAborted _ _ => True
  end.
Proof.
  cbv zeta.
  destruct (page_items_step_progress page total pageData v) as (post & Ht & _).
  split; [exists post; exact Ht|]. clear Ht.
  unfold page_items_step. destruct (page_items pageData) as [|item rest].
  - destruct (onStateUpdate options _); simpl;
      (split; [apply lookup_insert_ne; discriminate | first [exact I | reflexivity]]).
  - destruct (pLimit _) as [limit|e]; [|split; [reflexivity | exact I]].
    destruct (submit_all _ _ _ _) as [g v2] eqn:Hsub. simpl.
    unfold submit_all in Hsub. rewrite start_queued_spec in Hsub.
    injection Hsub as _ <-. split; reflexivity.
Qed.

(** The loop is left at its test, and only there. *)
Lemma page_step_exit choice m :
  is_pfinished (pstep choice m) ->
  is_pfinished m \/ exists page total v, m = PageLoop page total v /\ total < page.
Proof.
  destruct m as [page total v|page total its r|res v|e v]; simpl.
  - intros Hfin. right. exists page, total, v. split; [reflexivity|].
    unfold page_begin in Hfin. destruct (Z.leb_spec page total); [exfalso|assumption].
    destruct (onPageStart options _ _ _); [|exact Hfin].
    destruct (fetchPageFunction _ _) as [pageData|e]; [|exact Hfin].
    destruct (totalPages_changed _ _) as [total'|].
    + destruct (onStateUpdate options _); [|exact Hfin].
      match type of Hfin with context [page_items_step _ _ ?p ?t ?d ?v'] =>
        destruct (page_items_step_shape p t d v') as (_ & _ & Hshape) end.
      destruct (page_items_step _ _ _ _ _ _); simpl in *; contradiction.
    + match type of Hfin with context [page_items_step _ _ ?p ?t ?d ?v'] =>
        destruct (page_items_step_shape p t d v') as (_ & _ & Hshape) end.
      destruct (page_items_step _ _ _ _ _ _); simpl in *; contradiction.
  - intros Hfin. exfalso. destruct (active (r_gate r)).
    + unfold page_end in Hfin. destruct (onStateUpdate options _); [|exact Hfin].
      destruct (onPageComplete options _ _ _ _ _); exact Hfin.
    + destruct (gate_step _ _ _ _ _ _ _ _ _ _) as [r'|[e v']]; exact Hfin.
  - intros _. left. exact I.
  - intros [].
Qed.

Section PCompleting.

Hypothesis onItemSuccess_completes :
  forall item result n st, onItemSuccess options item result n st = Completes.
Hypothesis onStateUpdate_completes :
  forall st, onStateUpdate options st = Completes.

Local Abbreviation account := (page_account fetchPageFunction processFunction options).
Local Abbreviation seed :=
  (num_or (initialState options !! "totalProcessed") 0
   + num_or (initialState options !! "totalFailed") 0).

Lemma page_items_step_account page total pageData v :
  totalProcessed v + totalFailed v + Z.of_nat (length (page_items pageData))
    = seed + Z.of_nat (visited_items fetchPageFunction (trace v)) ->
  count is_item_error (trace v) = count (is_rejected_call processFunction) (trace v) ->
  account (page_items_step processFunction options page total pageData v).
Proof.
  intros Hsum Hbal. unfold page_items_step.
  destruct (page_items pageData) as [|item rest] eqn:Hitems.
  - rewrite onStateUpdate_completes. simpl in *. rewrite !count_cons. simpl. split; lia.
  - rewrite <- Hitems in *. destruct (pLimit _) as [limit|e] eqn:Hlimit; [|exact I].
    apply pLimit_resolved in Hlimit as [Hc ->].
    destruct (submit_all _ _ _ _) as [g v2] eqn:Hsub. simpl.
    pose proof (start_queued_progress _ _ _ _ _ _ _ _ Hsub) as Hp.
    apply progress_item_events in Hp as (new & Ht & Hnew).
    apply submit_all_account in Hsub as (-> & _ & -> & -> & _ & -> & ->).
    rewrite Ht, visited_items_items by exact Hnew. split; lia.
Qed.

Lemma page_account_step choice m :
  pinv m -> account m -> account (pstep choice m).
Proof.
  destruct m as [page total v|page total its r|res v|e v]; simpl;
    try (intros _ H; exact H).
  - intros _ [Hsum Hbal]. unfold page_begin. destruct (page <=? total).
    + destruct (onPageStart options _ _ _); [|exact I].
      destruct (fetchPageFunction page (currentState (log _ v))) as [pageData|e] eqn:Hfetch;
        [|exact I].
      simpl in Hfetch.
      destruct (totalPages_changed _ _) as [total'|];
        [rewrite onStateUpdate_completes|];
        (apply page_items_step_account;
         [unfold visited_items; simpl; rewrite Hfetch; fold (visited_items fetchPageFunction (trace v)); lia
         | simpl; rewrite !count_cons; simpl; lia]).
    + simpl. split; [lia | exact Hbal].
  - intros [Hinv Hceil] [Hsum Hbal]. destruct (active (r_gate r)) eqn:Hact.
    + destruct (einv_drained _ _ _ _ _ _ _ Hinv Hact) as (_ & Hpend & _).
      rewrite Hpend in Hsum. simpl in Hbal.
      unfold page_end. rewrite onStateUpdate_completes.
      destruct (onPageComplete options _ _ _ _ _); [|exact I].
      simpl. rewrite !count_cons. simpl. split; lia.
    + rewrite <- Hact in Hbal.
      pose proof (gate_step_advance clock processFunction (onItemSuccess options)
                    (onItemError options) (fun st _ => onStateUpdate options st)
                    (stateUpdateInterval options) None
                    (Z.of_nat (length its)) choice r) as Hp.
      destruct (gate_step _ _ _ _ _ _ _ _ _ _) as [r'|[e v']] eqn:Hstep; [|exact I].
      simpl. apply advance_item_events in Hp as (new & Ht & Hnew).
      pose proof (gate_step_account clock processFunction (onItemSuccess options)
                    (onItemError options) (fun st _ => onStateUpdate options st)
                    (stateUpdateInterval options) None
                    (Z.of_nat (length its)) onItemSuccess_completes
                    onStateUpdate_completes
                    its choice r r' Hinv Hstep) as [Hsum' Hbal'].
      rewrite Ht at 1. rewrite visited_items_items by exact Hnew. split; lia.
Qed.

Lemma prun_account s : account (prun s).
Proof.
  enough (pinv (prun s) /\ account (prun s)) by tauto.
  unfold processPaginatedBatches.
  apply (fold_left_invariant (fun m c => pstep c m) (fun m => pinv m /\ account m)).
  - intros m c [Hinv Hacc]. split; [apply page_inv_step, Hinv|].
    apply page_account_step; assumption.
  - split; [exact I|]. simpl. rewrite !count_nil. split; [lia | reflexivity].
Qed.

End PCompleting.

Local Abbreviation cause := (abort_cause fetchPageFunction).

(** With callbacks that complete and a valid ceiling, only a rejected
    fetch rejects the run. *)
Lemma page_step_abort_cause choice m :
  callbacks_complete options -> 1 <= concurrencyLimit options ->
  rejections_convertible processFunction ->
  pinv m -> cause m -> cause (pstep choice m).
Proof.
  intros (Hstart & Hcomplete & Hsuccess & Herror & Hupdate) Hlimit Hconv.
  destruct m as [page total v|page total its r|res v|e v]; simpl;
    try (intros _ H; exact H).
  - intros _ _. unfold page_begin. destruct (page <=? total); [|exact I].
    rewrite Hstart.
    destruct (fetchPageFunction page (currentState (log _ v))) as [pageData|e] eqn:Hfetch.
    2:{ simpl. eexists _, _, _. split; [reflexivity | exact Hfetch]. }
    assert (Hitems : forall v', cause (page_items_step processFunction options
                                         page total pageData v')).
    { intros v'. unfold page_items_step. destruct (page_items pageData); [rewrite Hupdate; exact I|].
      unfold pLimit. destruct (Z.leb_spec 1 (concurrencyLimit options)); [|lia].
      destruct (submit_all _ _ _ _). exact I. }
    destruct (totalPages_changed _ _) as [total'|]; [rewrite Hupdate|apply Hitems].
    unfold page_items_step. destruct (page_items pageData); [rewrite Hupdate; exact I|].
    unfold pLimit. destruct (Z.leb_spec 1 (concurrencyLimit options)); [|lia].
    destruct (submit_all _ _ _ _). exact I.
  - intros [Hinv _] _. destruct (active (r_gate r)).
    + unfold page_end. rewrite Hupdate, Hcomplete. exact I.
    + destruct (gate_step _ _ _ _ _ _ _ _ _ _) as [r'|[e v']] eqn:Hstep; [exact I|].
      exfalso. eapply gate_step_no_reject; [exact Herror | | exact Hinv | exact Hstep].
      apply completing_catches_convertible; [exact Hconv | exact Hsuccess|].
      intros st. apply Hupdate.
Qed.

Lemma prun_abort_cause s :
  callbacks_complete options -> 1 <= concurrencyLimit options ->
  rejections_convertible processFunction ->
  cause (prun s).
Proof.
  intros Hcb Hlimit Hconv.
  enough (pinv (prun s) /\ cause (prun s)) by tauto.
  unfold processPaginatedBatches.
  apply (fold_left_invariant (fun m c => pstep c m) (fun m => pinv m /\ cause m)).
  - intros m c [Hinv Hc]. split; [apply page_inv_step, Hinv|].
    apply page_step_abort_cause; assumption.
  - split; exact I.
Qed.

Section UniformPages.

Variable n : Z.
Variable k : nat.
Hypothesis pages_uniform : uniform_pages fetchPageFunction n k.
Hypothesis n_pos : 1 <= n.
Hypothesis k_pos : (1 <= k)%nat.

Local Abbreviation paged := (paged_inv n k).
Local Abbreviation measure := (paged_measure n k).

Lemma page_items_step_paged page pageData v :
  1 <= page <= n -> length (page_items pageData) = k ->
  pages_fetched (trace v) = rev (seqZ 1 page) ->
  pages_completed (trace v) = rev (seqZ 1 (page - 1)) ->
  paged (page_items_step processFunction options page n pageData v) /\
  (measure (page_items_step processFunction options page n pageData v)
   <= 2 + (2 + 4 * k) * Z.to_nat (n - page) + 4 * k)%nat.
Proof.
  intros Hpage Hlen Hf Hc. unfold page_items_step.
  destruct (page_items pageData) as [|item rest] eqn:Hitems; [simpl in Hlen; lia|].
  rewrite <- Hitems in *. destruct (pLimit _) as [limit|e] eqn:Hlimit;
    [|split; [exact I | apply Nat.le_0_l]].
  apply pLimit_resolved in Hlimit as [Hlim ->].
  destruct (submit_all _ _ _ _) as [g v2] eqn:Hsub.
  pose proof (start_queued_progress _ _ _ _ _ _ _ _ Hsub) as Hp.
  apply progress_item_events in Hp as (new & Ht & Hnew).
  apply submit_all_account in Hsub as (_ & Hw & _).
  cbv beta iota zeta. unfold paged_inv, paged_measure. cbn [r_vars r_gate].
  rewrite Ht, pages_fetched_items, pages_completed_items, Hw, Hlen by exact Hnew.
  repeat split; try assumption; nia.
Qed.

Ltac msimpl :=
  cbv beta iota zeta;
  cbn [page_step paged_inv paged_measure page_inv r_vars r_gate pm_vars].

Lemma paged_step choice m :
  pinv m -> paged m ->
  paged (pstep choice m) /\
  ((measure (pstep choice m) < measure m)%nat \/ measure m = 0%nat).
Proof.
  destruct m as [page total v|page total its r|res v|e v]; msimpl;
    try (intros _ H; split; [exact H | right; reflexivity]).
  - intros _ (Hpage & Htotal & Hf & Hc). unfold page_begin.
    destruct (Z.leb_spec page total) as [Hle|Hgt].
    + assert (Hpn : 1 <= page <= n) by lia.
      destruct (onPageStart options _ _ _); [|msimpl; split; [exact I | left; nia]].
      destruct (pages_uniform page (currentState (log (EvPageStart page total (currentState v)) v)))
        as (pageData & Hfetch & Htp & Hlen).
      rewrite Hfetch, Htp.
      assert (Hitems : forall v',
                pages_fetched (trace v') = page :: pages_fetched (trace v) ->
                pages_completed (trace v') = pages_completed (trace v) ->
                paged (page_items_step processFunction options page n pageData v') /\
                (measure (page_items_step processFunction options page n pageData v')
                 < 1 + (2 + 4 * k) * Z.to_nat (n + 1 - page))%nat).
      { intros v' Hf' Hc'.
        destruct (page_items_step_paged page pageData v' Hpn Hlen) as [Hinv Hm].
        - rewrite Hf', Hf, (seqZ_snoc page) by lia. rewrite rev_app_distr. reflexivity.
        - rewrite Hc', Hc. reflexivity.
        - split; [exact Hinv|].
          replace (Z.to_nat (n + 1 - page)) with (S (Z.to_nat (n - page))) by lia. nia. }
      unfold totalPages_changed.
      destruct (Z.eqb_spec n 0); [lia|]. destruct (Z.eqb_spec n total) as [->|Hne]; msimpl.
      * destruct (Hitems (log (EvFetchPage page (currentState v))
                            (log (EvPageStart page total (currentState v)) v)))
          as [Hinv Hm]; [reflexivity | reflexivity |].
        split; [exact Hinv | left; exact Hm].
      * cbn [orb]. msimpl.
        destruct (onStateUpdate options _); [|msimpl; split; [exact I | left; nia]].
        match goal with |- context [page_items_step _ _ _ _ _ ?v'] =>
          destruct (Hitems v') as [Hinv Hm]; [reflexivity | reflexivity |] end.
        split; [exact Hinv | left; exact Hm].
    + msimpl. assert (page = n + 1) as -> by lia.
      replace (n + 1 - 1) with n in * by lia. split; [split; assumption | left; nia].
  - intros [Hinv Hceil] (Hpage & -> & Hlen & Hf & Hc).
    destruct (active (r_gate r)) eqn:Hact.
    + destruct (einv_drained _ _ _ _ _ _ _ Hinv Hact) as (_ & _ & Hw). rewrite Hw.
      unfold page_end. destruct (onStateUpdate options _); [|msimpl; split; [exact I | left; nia]].
      destruct (onPageComplete options _ _ _ _ _); msimpl; [|split; [exact I | left; nia]].
      replace (page + 1 - 1) with page by lia.
      split; [|left; nia].
      split; [lia|]. split; [left; reflexivity|].
      split; [exact Hf|].
      change (page :: pages_completed (trace (r_vars r)) = rev (seqZ 1 page)).
      rewrite Hc, (seqZ_snoc page) by lia.
      rewrite rev_app_distr. reflexivity.
    + pose proof (gate_step_advance clock processFunction (onItemSuccess options)
                    (onItemError options) (fun st _ => onStateUpdate options st)
                    (stateUpdateInterval options) None
                    (Z.of_nat (length its)) choice r) as Hp.
      pose proof (gate_step_weight clock processFunction (onItemSuccess options)
                    (onItemError options) (fun st _ => onStateUpdate options st)
                    (stateUpdateInterval options) None
                    (Z.of_nat (length its)) choice r) as Hw.
      rewrite Hact in Hw. specialize (Hw ltac:(discriminate)).
      destruct (gate_step _ _ _ _ _ _ _ _ _ _) as [r'|[e v']] eqn:Hstep; msimpl;
        [|split; [exact I | left; nia]].
      apply advance_item_events in Hp as (new & Ht & Hnew).
      rewrite Ht, pages_fetched_items, pages_completed_items by exact Hnew.
      split; [repeat split; try assumption; lia | left; nia].
Qed.

Lemma measure_fixed choice m : measure m = 0%nat -> pstep choice m = m.
Proof.
  destruct m as [page total v|page total its r|res v|e v]; simpl;
    try reflexivity; lia.
Qed.

Lemma psteps_paged s m :
  pinv m -> paged m ->
  paged (fold_left (fun m choice => pstep choice m) s m) /\
  ((measure m <= length s)%nat ->
   measure (fold_left (fun m choice => pstep choice m) s m) = 0%nat).
Proof.
  revert m. induction s as [|c s IH]; intros m Hinv Hpaged; simpl.
  - split; [exact Hpaged | lia].
  - destruct (paged_step c m Hinv Hpaged) as [Hpaged' Hm].
    destruct (IH (pstep c m) (page_inv_step c m Hinv) Hpaged') as [IH1 IH2].
    split; [exact IH1|]. intros Hlen. destruct Hm as [Hlt|H0].
    + apply IH2. lia.
    + rewrite (measure_fixed c m H0) in *. apply IH2. lia.
Qed.

End UniformPages.

End ProcessPaginatedBatchesFacts.

(** ** What the tasks caught *)

Section CaughtFacts.

Context {T R : Type}.

Variable clock : nat -> string.
Variable processFunction : T -> nat -> State -> settled R.
Variable onItemSuccess : T -> R -> Z -> State -> completion.
Variable onItemError : T -> value -> Z -> State -> completion.
Variable onStateUpdate : State -> option (jsnum * jsnum) -> completion.
Variable stateUpdateInterval : Z.
Variable info : option (jsnum * jsnum).
Variable batch_length : Z.

Local Abbreviation in_trace :=
  (call_logged processFunction onItemSuccess onItemError onStateUpdate).
Local Abbreviation caught := (caught_in processFunction onItemSuccess onStateUpdate).
Local Abbreviation reports := (reports_caught processFunction onItemSuccess onStateUpdate).
Local Abbreviation threw := (conversion_threw processFunction onItemSuccess onStateUpdate).

Lemma as_Error_resolved error e : as_Error error = Resolved e -> wraps error e.
Proof.
  unfold as_Error, wraps. destruct (instanceof_Error error).
  - intros [= <-]. reflexivity.
  - destruct (js_String error) as [msg|thrown]; [|discriminate].
    intros [= <-]. exists msg. split; reflexivity.
Qed.

Lemma as_Error_rejected error e :
  as_Error error = Rejected e ->
  instanceof_Error error = false /\ js_String error = Rejected e.
Proof.
  unfold as_Error. destruct (instanceof_Error error); [discriminate|].
  destruct (js_String error) as [msg|thrown]; [discriminate|].
  intros [= <-]. split; reflexivity.
Qed.

Lemma call_logged_later (new tr : list (@event T R)) tk :
  in_trace tr tk -> in_trace (new ++ tr) tk.
Proof.
  unfold call_logged. destruct (t_phase tk).
  - intros (st & Hin & Hc). exists st. split; [apply elem_of_app; right; exact Hin | exact Hc].
  - intros (result & n & st & Hin & Hc). exists result, n, st.
    split; [apply elem_of_app; right; exact Hin | exact Hc].
  - intros (st & inf & Hin & Hc). exists st, inf.
    split; [apply elem_of_app; right; exact Hin | exact Hc].
  - intros (error & n & st & Hin & Hc). exists error, n, st.
    split; [apply elem_of_app; right; exact Hin | exact Hc].
Qed.

Lemma caught_in_later (new tr : list (@event T R)) item error :
  caught tr item error -> caught (new ++ tr) item error.
Proof.
  intros [(index & st & Hin & H)|[(result & n & st & Hin & H)|(st & inf & Hin & H)]].
  - left. exists index, st. split; [apply elem_of_app; right; exact Hin | exact H].
  - right; left. exists result, n, st. split; [apply elem_of_app; right; exact Hin | exact H].
  - right; right. exists st, inf. split; [apply elem_of_app; right; exact Hin | exact H].
Qed.

Lemma reports_caught_later (new tr : list (@event T R)) e :
  reports tr e -> reports (new ++ tr) e.
Proof.
  destruct e; simpl; try exact id.
  intros (c & Hc & Hw). exists c. split; [apply caught_in_later, Hc | exact Hw].
Qed.

(** Events that report nothing add nothing to explain. *)
Lemma reports_caught_grow (new tr : list (@event T R)) :
  Forall (fun e => is_item_error e = false) new ->
  Forall (reports tr) tr -> Forall (reports (new ++ tr)) (new ++ tr).
Proof.
  intros Hnew Hall. apply Forall_app. split.
  - eapply Forall_impl; [exact Hnew|]. intros e He. destruct e; try exact I. discriminate.
  - eapply Forall_impl; [exact Hall|]. intros e. apply reports_caught_later.
Qed.

Lemma started_logged tr st (l : list (T * nat)) :
  Forall (in_trace (rev (map (fun p : T * nat => @EvProcess T R (fst p) (snd p) st) l) ++ tr))
    (map (fun p : T * nat =>
            Task (fst p) (snd p) (AwaitProcess (processFunction (fst p) (snd p) st))) l).
Proof.
  apply Forall_forall. intros tk Htk. apply list_elem_of_fmap in Htk as (p & -> & Hp).
  unfold call_logged. simpl. exists st. split; [|reflexivity].
  apply elem_of_app. left. apply list_elem_of_In, in_rev. rewrite rev_involutive.
  apply list_elem_of_In, list_elem_of_fmap. exists p. split; [reflexivity | exact Hp].
Qed.

Lemma start_events_silent st (l : list (T * nat)) :
  Forall (fun e : @event T R => is_item_error e = false)
    (rev (map (fun p : T * nat => @EvProcess T R (fst p) (snd p) st) l)).
Proof. apply Forall_rev, Forall_forall. intros e He. apply list_elem_of_fmap in He as (p & -> & _). reflexivity. Qed.

Lemma start_queued_logged slots c q act v g v' :
  start_queued processFunction slots c q act v = (g, v') ->
  Forall (in_trace (trace v)) act ->
  Forall (reports (trace v)) (trace v) ->
  logged processFunction onItemSuccess onItemError onStateUpdate (Running 0 g v').
Proof.
  rewrite start_queued_spec. intros [= <- <-] Hact Hall. split; simpl.
  - apply Forall_app. split; [|apply started_logged].
    eapply Forall_impl; [exact Hact|]. intros tk. apply call_logged_later.
  - apply reports_caught_grow; [apply start_events_silent | exact Hall].
Qed.

(** What one resumption adds: the call it makes, and the report of what
    it caught; a task that rejects leaves the cause in the trace. *)
Lemma resume_logged tk bp v bp' v' res :
  resume_task clock onItemSuccess onItemError onStateUpdate stateUpdateInterval info
    batch_length tk bp v = (bp', (v', res)) ->
  in_trace (trace v) tk ->
  Forall (reports (trace v)) (trace v) ->
  (exists new, trace v' = new ++ trace v) /\
  Forall (reports (trace v')) (trace v') /\
  match res with
  | Suspended ph => in_trace (trace v') (Task (t_item tk) (t_index tk) ph)
  | Settled => True
  | TaskRejected e =>
      (exists item error n st,
          EvItemError item error n st ∈ trace v' /\ onItemError item error n st = Throws e) \/
      threw e (trace v')
  end.
Proof.
  intros H Htk Hall. unfold call_logged in Htk.
  unfold resume_task, on_catch in H.
  destruct (t_phase tk) as [[result|error]|[|error]|[|error]|[|error]] eqn:Hph;
    try match type of H with
        | context [if ?b then _ else _] => destruct b
        end;
    try match type of H with
        | context [as_Error ?x] => destruct (as_Error x) as [e|thrown] eqn:Hwrap
        end;
    simplify_eq; simpl.
  all: try (split; [exists []; reflexivity|]; split; [exact Hall|]).
  all: try exact I.
  all: try (split; [eexists [_]; reflexivity|]).
  - (* success *)
    split; [apply (reports_caught_grow [_]); [repeat constructor | exact Hall]|].
    unfold call_logged. simpl. eexists _, _, _. split; [apply list_elem_of_here | reflexivity].
  - (* process rejected, wrapped *)
    destruct Htk as (st & Hin & Ho).
    assert (Hc : caught (trace v) (t_item tk) error).
    { left. exists (t_index tk), st. split; [exact Hin | symmetry; exact Ho]. }
    split.
    + constructor.
      * simpl. exists error. split; [apply (caught_in_later [_]), Hc | apply as_Error_resolved, Hwrap].
      * eapply Forall_impl; [exact Hall|]. intros e'. apply (reports_caught_later [_]).
    + unfold call_logged. simpl. eexists _, _, _. split; [apply list_elem_of_here | reflexivity].
  - (* process rejected, conversion failed *)
    destruct Htk as (st & Hin & Ho). right. exists (t_item tk), error.
    apply as_Error_rejected in Hwrap as [Hi Hs].
    split; [|split; [exact Hi | exact Hs]].
    left. exists (t_index tk), st. split; [exact Hin | symmetry; exact Ho].
  - (* snapshot *)
    split; [apply (reports_caught_grow [_]); [repeat constructor | exact Hall]|].
    unfold call_logged. simpl. eexists _, _. split; [apply list_elem_of_here | reflexivity].
  - (* onItemSuccess threw, wrapped *)
    destruct Htk as (result & n & st & Hin & Ho).
    assert (Hc : caught (trace v) (t_item tk) error).
    { right; left. exists result, n, st. split; [exact Hin | symmetry; exact Ho]. }
    split.
    + constructor.
      * simpl. exists error. split; [apply (caught_in_later [_]), Hc | apply as_Error_resolved, Hwrap].
      * eapply Forall_impl; [exact Hall|]. intros e'. apply (reports_caught_later [_]).
    + unfold call_logged. simpl. eexists _, _, _. split; [apply list_elem_of_here | reflexivity].
  - destruct Htk as (result & n & st & Hin & Ho). right. exists (t_item tk), error.
    apply as_Error_rejected in Hwrap as [Hi Hs].
    split; [|split; [exact Hi | exact Hs]].
    right; left. exists result, n, st. split; [exact Hin | symmetry; exact Ho].
  - (* onStateUpdate threw, wrapped *)
    destruct Htk as (st & inf & Hin & Ho).
    assert (Hc : caught (trace v) (t_item tk) error).
    { right; right. exists st, inf. split; [exact Hin | symmetry; exact Ho]. }
    split.
    + constructor.
      * simpl. exists error. split; [apply (caught_in_later [_]), Hc | apply as_Error_resolved, Hwrap].
      * eapply Forall_impl; [exact Hall|]. intros e'. apply (reports_caught_later [_]).
    + unfold call_logged. simpl. eexists _, _, _. split; [apply list_elem_of_here | reflexivity].
  - destruct Htk as (st & inf & Hin & Ho). right. exists (t_item tk), error.
    apply as_Error_rejected in Hwrap as [Hi Hs].
    split; [|split; [exact Hi | exact Hs]].
    right; right. exists st, inf. split; [exact Hin | symmetry; exact Ho].
  - (* onItemError threw *)
    destruct Htk as (err & n & st & Hin & Ho). left. exists (t_item tk), err, n, st.
    split; [exact Hin | symmetry; exact Ho].
Qed.

Lemma gate_step_logged choice r :
  logged processFunction onItemSuccess onItemError onStateUpdate r ->
  match gate_step clock processFunction onItemSuccess onItemError onStateUpdate
          stateUpdateInterval info batch_length choice r with
  | inl r' => logged processFunction onItemSuccess onItemError onStateUpdate r'
  | inr (e, v') =>
      Forall (reports (trace v')) (trace v') /\
      ((exists item error n st,
           EvItemError item error n st ∈ trace v' /\ onItemError item error n st = Throws e) \/
       threw e (trace v'))
  end.
Proof.
  intros [Hact Hall]. unfold gate_step.
  destruct (active (r_gate r) !! _) as [tk|] eqn:Hk; [|split; assumption].
  destruct (resume_task _ _ _ _ _ _ _ tk (r_counter r) (r_vars r)) as [bp [v res]] eqn:Hres.
  assert (Htk : in_trace (trace (r_vars r)) tk) by (eapply Forall_lookup_1; eassumption).
  destruct (resume_logged _ _ _ _ _ _ Hres Htk Hall) as ((new & Ht) & Hall' & Hres').
  assert (Hact' : Forall (in_trace (trace v)) (active (r_gate r))).
  { rewrite Ht. eapply Forall_impl; [exact Hact|]. intros tk'. apply call_logged_later. }
  destruct res as [ph| |e]; simpl.
  - split; simpl; [|exact Hall']. apply Forall_insert; [exact Hact' | exact Hres'].
  - destruct (start_queued _ _ _ _ _ v) as [g' v'] eqn:Hstart.
    destruct (start_queued_logged _ _ _ _ _ _ _ Hstart) as [H1 H2]; [|exact Hall'|].
    + apply Forall_delete, Hact'.
    + split; assumption.
  - split; assumption.
Qed.

Lemma submit_all_logged g batch v g' v' :
  submit_all processFunction g batch v = (g', v') ->
  Forall (reports (trace v)) (trace v) ->
  logged processFunction onItemSuccess onItemError onStateUpdate (Running 0 g' v').
Proof.
  intros Hsub Hall. unfold submit_all in Hsub.
  eapply start_queued_logged; [exact Hsub | constructor | exact Hall].
Qed.

End CaughtFacts.

Section BatchLoggedFacts.

Context {T R : Type}.

Variable clock : nat -> string.
Variable items : list T.
Variable processFunction : T -> nat -> State -> settled R.
Variable options : BatchOptions.t T R.
Import BatchOptions.

Local Abbreviation step := (batch_step clock items processFunction options).
Local Abbreviation run := (processBatches clock items processFunction options).
Local Abbreviation reports :=
  (reports_caught processFunction (onItemSuccess options) (onStateUpdate options)).

(** The driver is rejected by its own awaits or by a task, and its own
    calls report nothing. *)
Lemma batch_step_logged choice m :
  batch_logged processFunction options m ->
  batch_logged processFunction options (step choice m).
Proof.
  destruct m as [i v|i batch batchNumber r|res v|e v]; simpl; try exact id.
  - intros [Hall _]. simpl in Hall. unfold batch_begin. destruct (i <? _); [|split; [exact Hall | exact I]].
    set (v1 := log _ v).
    assert (Hall1 : Forall (reports (trace v1)) (trace v1))
      by (apply (reports_caught_grow _ _ _ [_]); [repeat constructor | exact Hall]).
    destruct (onBatchStart options _ _ _ _) eqn:Hstart.
    2:{ split; [exact Hall1|]. left. eexists _, _, _, _, _.
        split; [reflexivity | left; exact Hstart]. }
    destruct (pLimit _) as [limit|e] eqn:Hlimit.
    2:{ split; [exact Hall1|]. left. eexists _, _, _, _, _.
        split; [reflexivity | right; exact Hlimit]. }
    destruct (submit_all _ _ _ _) as [g v2] eqn:Hsub.
    destruct (submit_all_logged processFunction (onItemSuccess options) (onItemError options)
                (onStateUpdate options) _ _ _ _ _ Hsub Hall1) as [H1 H2].
    split; [exact H2 | exact H1].
  - intros [Hall Hact]. simpl in Hall. destruct (active (r_gate r)) eqn:Hactive.
    + unfold batch_end.
      set (v1 := set_state _ (r_vars r)). set (v2 := log _ v1). set (v3 := log _ v2).
      assert (Hall2 : Forall (reports (trace v2)) (trace v2))
        by (apply (reports_caught_grow _ _ _ [_]); [repeat constructor | exact Hall]).
      assert (Hall3 : Forall (reports (trace v3)) (trace v3))
        by (apply (reports_caught_grow _ _ _ [_]); [repeat constructor | exact Hall2]).
      destruct (onStateUpdate options _ _) eqn:Hupdate.
      2:{ split; [exact Hall2|]. right; left. eexists _, _, _.
          split; [reflexivity | exact Hupdate]. }
      destruct (onBatchComplete options _ _ _ _ _ _) eqn:Hcomplete;
        [split; [exact Hall3 | exact I]|].
      split; [exact Hall3|]. right; right; left. eexists _, _, _, _, _, _, _.
      split; [reflexivity | exact Hcomplete].
    + rewrite <- Hactive in Hact.
      pose proof (gate_step_logged clock processFunction (onItemSuccess options)
                    (onItemError options) (onStateUpdate options)
                    (stateUpdateInterval options) (Some (batchNumber, totalBatches items options))
                    (Z.of_nat (length batch)) choice r (conj Hact Hall)) as Hstep.
      destruct (gate_step _ _ _ _ _ _ _ _ _ _) as [r'|[e v']].
      * destruct Hstep as [H1 H2]. split; [exact H2 | exact H1].
      * destruct Hstep as [H1 [H2|H2]]; (split; [exact H1|]);
          [right; right; right; left; exact H2 | right; right; right; right; exact H2].
Qed.

Lemma run_logged s : batch_logged processFunction options (run s).
Proof.
  unfold processBatches.
  apply (fold_left_invariant (fun m c => step c m)); [|split; [constructor | exact I]].
  intros m c. apply batch_step_logged.
Qed.

End BatchLoggedFacts.

Section PageLoggedFacts.

Context {T R : Type}.

Variable clock : nat -> string.
Variable fetchPageFunction : Z -> State -> settled (PageData T).
Variable processFunction : T -> nat -> State -> settled R.
Variable options : PaginatedBatchOptions.t T R.
Import PaginatedBatchOptions.

Local Abbreviation pstep := (page_step clock fetchPageFunction processFunction options).
Local Abbreviation prun :=
  (processPaginatedBatches clock fetchPageFunction processFunction options).
Local Abbreviation reports :=
  (reports_caught processFunction (onItemSuccess options)
     (fun st _ => onStateUpdate options st)).




End PageLoggedFacts.

(** ** A page that has begun is completed *)

Section PageCompletes.

Context {T R : Type}.

Variable clock : nat -> string.
Variable fetchPageFunction : Z -> State -> settled (PageData T).
Variable processFunction : T -> nat -> State -> settled R.
Variable options : PaginatedBatchOptions.t T R.
Import PaginatedBatchOptions.

Local Abbreviation pstep := (page_step clock fetchPageFunction processFunction options).
Local Abbreviation prun :=
  (processPaginatedBatches clock fetchPageFunction processFunction options).
Local Abbreviation pinv := (page_inv processFunction options).

Lemma page_step_weight choice m : page_weight m -> page_weight (pstep choice m).
Proof.
  destruct m as [page total v|page total its r|res v|e v]; simpl; try exact id.
  - intros _. unfold page_begin. destruct (page <=? total); [|exact I].
    destruct (onPageStart options _ _ _); [|exact I].
    destruct (fetchPageFunction _ _) as [pageData|e]; [|exact I].
    assert (Hitems : forall v', page_weight (page_items_step processFunction options
                                               page total pageData v')).
    { intros v'. unfold page_items_step. destruct (page_items pageData) eqn:Hitems.
      - destruct (onStateUpdate options _); exact I.
      - rewrite <- Hitems. destruct (pLimit _) as [limit|e] eqn:Hlimit; [|exact I].
        apply pLimit_resolved in Hlimit as [_ ->].
        destruct (submit_all _ _ _ _) as [g v2] eqn:Hsub.
        apply submit_all_account in Hsub as (_ & Hw & _). simpl. lia. }
    destruct (totalPages_changed _ _) as [total'|]; [|apply Hitems].
    destruct (onStateUpdate options _); [|exact I].
    unfold page_items_step. destruct (page_items pageData) eqn:Hpage.
    + destruct (onStateUpdate options _); exact I.
    + rewrite <- Hpage. destruct (pLimit _) as [limit|e] eqn:Hlimit; [|exact I].
      apply pLimit_resolved in Hlimit as [_ ->].
      destruct (submit_all _ _ _ _) as [g v2] eqn:Hsub.
      apply submit_all_account in Hsub as (_ & Hw & _). simpl. lia.
  - intros Hw. destruct (active (r_gate r)) eqn:Hact.
    + unfold page_end. destruct (onStateUpdate options _); [|exact I].
      destruct (onPageComplete options _ _ _ _ _); exact I.
    + pose proof (gate_step_weight clock processFunction (onItemSuccess options)
                    (onItemError options) (fun st _ => onStateUpdate options st)
                    (stateUpdateInterval options) None
                    (Z.of_nat (length its)) choice r) as Hlt.
      rewrite Hact in Hlt. specialize (Hlt ltac:(discriminate)).
      destruct (gate_step _ _ _ _ _ _ _ _ _ _) as [r'|[e v']]; [simpl; lia | exact I].
Qed.

Lemma prun_weight s : page_weight (prun s).
Proof.
  unfold processPaginatedBatches.
  apply (fold_left_invariant (fun m c => pstep c m)); [|exact I].
  intros m c. apply page_step_weight.
Qed.

Lemma pages_completed_later (new tr : list (@event T R)) page :
  page ∈ pages_completed tr -> page ∈ pages_completed (new ++ tr).
Proof.
  unfold pages_completed. rewrite omap_app. intros H. apply elem_of_app. right. exact H.
Qed.

(** Once the items of a page are submitted, the page is completed after
    at most one step per resumption its tasks need and one more, whatever
    the items do, as long as the callbacks complete and the [catch]
    blocks can wrap what they catch. *)
Lemma page_completes s page total its r :
  callbacks_complete options ->
  rejections_convertible processFunction ->
  pinv (InPage page total its r) ->
  (gate_weight (r_gate r) < length s)%nat ->
  page ∈ pages_completed
           (trace (pm_vars (fold_left (fun m choice => pstep choice m) s
                              (InPage page total its r)))).
Proof.
  intros Hcb Hconv. pose proof Hcb as (Hstart & Hcomplete & Hsuccess & Herror & Hupdate).
  revert r. induction s as [|c s IH]; intros r Hinv Hlen; [simpl in Hlen; lia|].
  simpl. destruct (active (r_gate r)) eqn:Hact.
  - unfold page_end. rewrite Hupdate, Hcomplete.
    match goal with |- context [fold_left _ s (PageLoop ?p ?t ?v3)] =>
      destruct (psteps_advance clock fetchPageFunction processFunction options s
                  (PageLoop p t v3)) as (new & Ht & _)
    end.
    rewrite Ht. apply pages_completed_later. simpl.
    replace (page + 1 - 1) with page by lia. apply list_elem_of_here.
  - pose proof (page_inv_step clock fetchPageFunction processFunction options c
                  (InPage page total its r) Hinv) as Hinv'.
    simpl in Hinv'. rewrite Hact in Hinv'.
    pose proof (gate_step_weight clock processFunction (onItemSuccess options)
                  (onItemError options) (fun st _ => onStateUpdate options st)
                  (stateUpdateInterval options) None
                  (Z.of_nat (length its)) c r) as Hlt.
    rewrite Hact in Hlt. specialize (Hlt ltac:(discriminate)).
    destruct (gate_step _ _ _ _ _ _ _ _ _ _) as [r'|[e v']] eqn:Hstep.
    + apply IH; [exact Hinv'|]. simpl in Hlen. lia.
    + exfalso. destruct Hinv as [Hinv _].
      eapply gate_step_no_reject; [exact Herror | | exact Hinv | exact Hstep].
      apply completing_catches_convertible; [exact Hconv | exact Hsuccess|].
      intros st. apply Hupdate.
Qed.

End PageCompletes.

(** ** Calls that never reject *)

Lemma no_rejected_calls {T R : Type} (processFunction : T -> nat -> State -> settled R)
    (tr : list (@event T R)) :
  (forall item index st, exists result, processFunction item index st = Resolved result) ->
  count (is_rejected_call processFunction) tr = 0%nat.
Proof.
  intros Hok. induction tr as [|e tr IH]; [reflexivity|].
  rewrite count_cons, IH. destruct e; simpl; try reflexivity.
  destruct (Hok item index st) as [result ->]. reflexivity.
Qed.

(** ** The example of the README and of the spec *)

(** [processBatches([1,2,3,4,5], ok, { batchSize: 2, concurrencyLimit: 1 })]:
    [onBatchStart] is called for batches 1, 2, 3 of 3, and the result is
    [{ processed: 5, failed: 0 }]. *)
Example five_items_in_batches_of_two :
  exists st v,
    processBatches example_clock [1; 2; 3; 4; 5]%nat always_succeeds small_batches
      (replicate 22 0%nat) = Finished {| processed := 5; failed := 0; state := st |} v /\
    batches_started (trace v) = [(JNum 1, JNum 3); (JNum 2, JNum 3); (JNum 3, JNum 3)].
Proof. eexists. eexists. split; vm_compute; reflexivity. Qed.

(** * The claims *)

(** C1, as the code has it.  With a positive [batchSize] and
    [concurrencyLimit], callbacks that complete, an empty [initialState]
    and a [processFunction] that always resolves, every run of
    [processBatches] returns, under every schedule, with [processed] the
    number of items and [failed] zero. *)
Theorem C1_all_succeed :
  forall (T R : Type) (clock : nat -> string) (items : list T)
         (processFunction : T -> nat -> State -> settled R)
         (options : BatchOptions.t T R) (schedule : list nat),
    1 <= BatchOptions.batchSize options ->
    1 <= BatchOptions.concurrencyLimit options ->
    BatchOptions.callbacks_complete options ->
    BatchOptions.initialState options = ∅ ->
    (forall item index st, exists result, processFunction item index st = Resolved result) ->
    (6 * length items + 1 <= length schedule)%nat ->
    exists v,
      processBatches clock items processFunction options schedule =
        Finished {| processed := Z.of_nat (length items);
                    failed := 0;
                    state := currentState v |} v.
Proof.
  intros T R clock items processFunction options schedule
    Hbs Hlimit Hcb Hinit Hok Hlen.
  assert (Hconv : rejections_convertible processFunction).
  { intros item index st error Hrej. destruct (Hok item index st) as [result Hres].
    congruence. }
  destruct (run_finishes clock items processFunction options schedule Hbs Hlimit Hcb
              Hconv Hlen) as [v Hrun].
  destruct Hcb as (_ & _ & Hsuccess & _ & Hupdate).
  pose proof (run_account clock items processFunction options Hsuccess Hupdate
                schedule Hbs) as Hacc.
  destruct (run_progress clock items processFunction options schedule)
    as (new & Ht & _ & _ & Hf & _); [rewrite Hrun; simpl; tauto|].
  rewrite Hrun in Hacc, Ht, Hf. simpl in Hacc, Ht, Hf.
  rewrite app_nil_r in Ht. subst new.
  destruct Hacc as [Hsum Hbal].
  rewrite (no_rejected_calls processFunction _ Hok) in Hbal.
  rewrite Hinit in Hsum, Hf. rewrite ?lookup_empty in Hsum, Hf.
  unfold num_or in Hsum, Hf. rewrite ?lookup_empty in Hsum.
  assert (Hfailed : totalFailed v = 0) by lia.
  assert (Hprocessed : totalProcessed v = Z.of_nat (length items)) by lia.
  exists v. rewrite Hrun, Hfailed, Hprocessed. reflexivity.
Qed.

(** Five items in batches of two, one task at a time. *)
Lemma C1_witness :
  1 <= BatchOptions.batchSize small_batches /\
  1 <= BatchOptions.concurrencyLimit small_batches /\
  BatchOptions.callbacks_complete small_batches /\
  BatchOptions.initialState small_batches = ∅ /\
  (forall item index st, exists result, always_succeeds item index st = Resolved result) /\
  exists v,
    processBatches example_clock [1; 2; 3; 4; 5]%nat always_succeeds small_batches
      (replicate 31 0%nat) =
      Finished {| processed := 5; failed := 0; state := currentState v |} v.
Proof.
  assert (Hbs : 1 <= BatchOptions.batchSize small_batches) by (simpl; lia).
  assert (Hlimit : 1 <= BatchOptions.concurrencyLimit small_batches) by (simpl; lia).
  assert (Hcb : BatchOptions.callbacks_complete small_batches) by (repeat split).
  assert (Hok : forall (item index : nat) (st : State),
            exists result, always_succeeds item index st = Resolved result)
    by (intros; exists tt; reflexivity).
  repeat (split; [assumption || reflexivity|]).
  apply (C1_all_succeed nat unit example_clock [1; 2; 3; 4; 5]%nat always_succeeds
           small_batches (replicate 31 0%nat) Hbs Hlimit Hcb eq_refl Hok).
  simpl. lia.
Defined.

(** C1 as stated fails: [batchSize] 0 is non-negative, and with it the
    loop index never moves, so on a non-empty array no schedule, however
    long, reaches the [return]. *)
Lemma C1_counterexample :
  0 <= BatchOptions.batchSize zero_batchSize /\
  0 <= BatchOptions.concurrencyLimit zero_batchSize /\
  ~ exists schedule res v,
      processBatches example_clock [7%nat] always_succeeds zero_batchSize schedule
        = Finished res v.
Proof.
  split; [simpl; lia|]. split; [simpl; lia|].
  intros (schedule & res & v & Hrun).
  pose proof (run_stuck example_clock [7%nat] always_succeeds zero_batchSize schedule) as Hstuck.
  rewrite Hrun in Hstuck. simpl in Hstuck. specialize (Hstuck ltac:(lia)).
  discriminate.
Qed.

(** C2, at an input where the code breaks it.  One item whose
    [processFunction] resolves, and an [onItemSuccess] that throws: the
    exception is caught by the [catch] block of the same task, after
    [totalProcessed] was incremented, so the item is counted as processed
    and as failed, [onItemError] is called for an item whose processing
    succeeded, and the result adds up to 2 for an array of 1. *)
Theorem C2_item_counted_twice :
  exists res v,
    processBatches example_clock [7%nat] always_succeeds throwing_onItemSuccess
      (replicate 6 0%nat) = Finished res v /\
    BatchOptions.initialState throwing_onItemSuccess = ∅ /\
    calls (trace v) = [(7%nat, 0%nat)] /\
    always_succeeds 7%nat 0%nat ∅ = Resolved tt /\
    EvItemSuccess 7%nat tt 1 ∅ ∈ trace v /\
    EvItemError 7%nat (VError "Error" "observer failed") 1 ∅ ∈ trace v /\
    processed res = 1 /\ failed res = 1 /\
    processed res + failed res <> Z.of_nat (length [7%nat]).
Proof.
  eexists. eexists. split; [vm_compute; reflexivity|].
  split; [reflexivity|]. split; [reflexivity|]. split; [reflexivity|].
  split; [do 3 apply list_elem_of_further; apply list_elem_of_here|].
  split; [do 2 apply list_elem_of_further; apply list_elem_of_here|].
  split; [reflexivity|]. split; [reflexivity|].
  vm_compute. discriminate.
Qed.

(** The items of the pages visited, when every page has [k] items. *)
Lemma visited_items_uniform {T R : Type}
    (fetchPageFunction : Z -> State -> settled (PageData T)) n k (tr : list (@event T R)) :
  uniform_pages fetchPageFunction n k ->
  visited_items fetchPageFunction tr = (length (pages_fetched tr) * k)%nat.
Proof.
  intros Huniform. unfold visited_items.
  induction tr as [|e tr IH]; [reflexivity|].
  cbn [sum_list_with]. rewrite IH. destruct e; simpl; try reflexivity.
  destruct (Huniform page st) as (pageData & -> & _ & ->). reflexivity.
Qed.

(** C3, as the code has it.  When [processFunction] rejects with an Error,
    or with a value that [String] can convert, and the callbacks complete,
    the failure stays with its item.  With a positive [batchSize] and
    [concurrencyLimit], [processBatches] returns under every schedule:
    every item has been counted, every rejected call has been reported to
    [onItemError], and [failed] has grown by their number.  Under the same
    conditions [processPaginatedBatches] is rejected only with the
    rejection of a fetch; a page whose items have been submitted is
    completed, within four steps per item and one more; a result accounts
    for all the items of the pages visited; and when every fetch returns
    [k] items and announces [n] pages, every run returns after pages 1 to
    [n], with [failed] the number of rejected calls.  A fetch that
    rejects, on the other hand, rejects the run with the same value, and
    no later step changes that. *)
Theorem C3_item_failures_recovered_fetch_failures_fatal :
  forall (T R : Type) (clock : nat -> string)
         (processFunction : T -> nat -> State -> settled R),
    (rejections_convertible processFunction ->
     (forall (items : list T) (options : BatchOptions.t T R) schedule,
        1 <= BatchOptions.batchSize options ->
        1 <= BatchOptions.concurrencyLimit options ->
        BatchOptions.callbacks_complete options ->
        (6 * length items + 1 <= length schedule)%nat ->
        exists v,
          processBatches clock items processFunction options schedule =
            Finished {| processed := totalProcessed v;
                        failed := totalFailed v;
                        state := currentState v |} v /\
          totalProcessed v + totalFailed v =
            num_or (BatchOptions.initialState options !! "totalProcessed") 0
            + num_or (BatchOptions.initialState options !! "totalFailed") 0
            + Z.of_nat (length items) /\
          totalFailed v =
            num_or (BatchOptions.initialState options !! "totalFailed") 0
            + Z.of_nat (count is_item_error (trace v)) /\
          count is_item_error (trace v) =
            count (is_rejected_call processFunction) (trace v)) /\
     (forall (fetchPageFunction : Z -> State -> settled (PageData T))
             (options : PaginatedBatchOptions.t T R),
        let run := processPaginatedBatches clock fetchPageFunction processFunction options in
        PaginatedBatchOptions.callbacks_complete options ->
        1 <= PaginatedBatchOptions.concurrencyLimit options ->
        (forall schedule e v,
           run schedule = PAborted e v ->
           exists page st tr,
             trace v = EvFetchPage page st :: tr /\
             fetchPageFunction page st = Rejected e) /\
        (forall schedule page total its r more,
           run schedule = InPage page total its r ->
           (4 * length its + 1 <= length more)%nat ->
           page ∈ pages_completed (trace (pm_vars (run (schedule ++ more))))) /\
        (forall schedule res v,
           run schedule = PFinished res v ->
           processed res + failed res =
             num_or (PaginatedBatchOptions.initialState options !! "totalProcessed") 0
             + num_or (PaginatedBatchOptions.initialState options !! "totalFailed") 0
             + Z.of_nat (visited_items fetchPageFunction (trace v)) /\
           failed res =
             num_or (PaginatedBatchOptions.initialState options !! "totalFailed") 0
             + Z.of_nat (count is_item_error (trace v)) /\
           count is_item_error (trace v) =
             count (is_rejected_call processFunction) (trace v)) /\
        (forall (n : Z) (k : nat) schedule,
           uniform_pages fetchPageFunction n k ->
           1 <= n -> (1 <= k)%nat ->
           PaginatedBatchOptions.initialState options = ∅ ->
           PaginatedBatchOptions.initialPage options = 1 ->
           (1 + (2 + 4 * k) * Z.to_nat n <= length schedule)%nat ->
           exists res v,
             run schedule = PFinished res v /\
             rev (pages_completed (trace v)) = seqZ 1 n /\
             processed res + failed res = n * Z.of_nat k /\
             failed res =
               Z.of_nat (count (is_rejected_call processFunction) (trace v))))) /\
    (forall (fetchPageFunction : Z -> State -> settled (PageData T))
            (options : PaginatedBatchOptions.t T R)
            schedule page total v e choice more,
       let run := processPaginatedBatches clock fetchPageFunction processFunction options in
       run schedule = PageLoop page total v ->
       page <= total ->
       PaginatedBatchOptions.onPageStart options page total (currentState v) = Completes ->
       fetchPageFunction page (currentState v) = Rejected e ->
       exists v', run (schedule ++ choice :: more) = PAborted e v').
Proof.
  intros T R clock processFunction. split.
  - intros Hconv. split.
    + intros items options schedule Hbs Hlimit Hcb Hlen.
      destruct (run_finishes clock items processFunction options schedule Hbs Hlimit Hcb
                  Hconv Hlen) as [v Hrun].
      destruct Hcb as (_ & _ & Hsuccess & _ & Hupdate).
      pose proof (run_account clock items processFunction options Hsuccess Hupdate
                    schedule Hbs) as Hacc.
      destruct (run_progress clock items processFunction options schedule)
        as (new & Ht & _ & _ & Hf & _); [rewrite Hrun; simpl; tauto|].
      rewrite Hrun in Hacc, Ht, Hf. simpl in Hacc, Ht, Hf.
      rewrite app_nil_r in Ht. subst new. destruct Hacc as [Hsum Hbal].
      exists v. split; [exact Hrun|]. split; [exact Hsum|]. split; [exact Hf | lia].
    + intros fetchPageFunction options run Hcb Hlimit. subst run.
      assert (Hfinished : forall schedule res v,
                processPaginatedBatches clock fetchPageFunction processFunction options
                  schedule = PFinished res v ->
                processed res + failed res =
                  num_or (PaginatedBatchOptions.initialState options !! "totalProcessed") 0
                  + num_or (PaginatedBatchOptions.initialState options !! "totalFailed") 0
                  + Z.of_nat (visited_items fetchPageFunction (trace v)) /\
                failed res =
                  num_or (PaginatedBatchOptions.initialState options !! "totalFailed") 0
                  + Z.of_nat (count is_item_error (trace v)) /\
                count is_item_error (trace v) =
                  count (is_rejected_call processFunction) (trace v)).
      { intros schedule res v Hrun. pose proof Hcb as (_ & _ & Hsuccess & _ & Hupdate).
        pose proof (prun_account clock fetchPageFunction processFunction options
                      Hsuccess Hupdate schedule) as Hacc.
        destruct (prun_progress clock fetchPageFunction processFunction options schedule)
          as (new & Ht & _ & _ & Hf & _); [rewrite Hrun; simpl; tauto|].
        rewrite Hrun in Hacc, Ht, Hf. simpl in Hacc, Ht, Hf.
        rewrite app_nil_r in Ht. subst new. destruct Hacc as [Hsum Hbal].
        rewrite (prun_result _ _ _ _ _ _ _ Hrun). simpl.
        split; [rewrite (prun_result _ _ _ _ _ _ _ Hrun) in Hsum; exact Hsum|].
        split; [exact Hf|]. rewrite Nat.add_0_r in Hbal. exact Hbal. }
      split; [|split; [|split; [exact Hfinished|]]].
      * intros schedule e v Hrun.
        pose proof (prun_abort_cause clock fetchPageFunction processFunction options
                      schedule Hcb Hlimit Hconv) as Hcause.
        rewrite Hrun in Hcause. exact Hcause.
      * intros schedule page total its r more Hrun Hlen.
        pose proof (prun_inv clock fetchPageFunction processFunction options schedule)
          as Hinv.
        pose proof (prun_weight clock fetchPageFunction processFunction options schedule)
          as Hweight.
        rewrite Hrun in Hinv, Hweight. simpl in Hweight.
        rewrite prun_app, Hrun.
        apply page_completes; [exact Hcb | exact Hconv | exact Hinv | lia].
      * intros n k schedule Huniform Hn Hk Hinit Hpage Hlen.
        assert (Hstart : exists v0,
                  processPaginatedBatches_init options = PageLoop 1 1 v0 /\ trace v0 = []).
        { unfold processPaginatedBatches_init. rewrite Hinit, !lookup_empty, Hpage. simpl.
          eexists. split; reflexivity. }
        destruct Hstart as (v0 & Hstart & Htrace0).
        destruct (psteps_paged clock fetchPageFunction processFunction options n k
                    Huniform Hn Hk schedule (PageLoop 1 1 v0)) as [Hpaged Hend].
        { exact I. }
        { simpl. rewrite Htrace0. repeat split; try lia; reflexivity. }
        specialize (Hend ltac:(simpl; lia)).
        pose proof (prun_abort_cause clock fetchPageFunction processFunction options
                      schedule Hcb Hlimit Hconv) as Hcause.
        pose proof (Hfinished schedule) as Hfin.
        unfold processPaginatedBatches in Hcause, Hfin. rewrite Hstart in Hcause, Hfin.
        unfold processPaginatedBatches. rewrite Hstart.
        destruct (fold_left _ schedule (PageLoop 1 1 v0))
          as [page total v|page total its r|res v|e v];
          cbn [paged_measure] in Hend; try nia.
        -- exists res, v. destruct Hpaged as [Hf Hc].
           destruct (Hfin res v eq_refl) as (Hsum & Hfailed & Hbal).
           split; [reflexivity|]. split; [rewrite Hc, rev_involutive; reflexivity|].
           rewrite Hinit, !lookup_empty in Hsum, Hfailed. simpl in Hsum, Hfailed.
           rewrite (visited_items_uniform fetchPageFunction n k _ Huniform), Hf,
             length_rev, length_seqZ in Hsum.
           rewrite ?lookup_empty in Hsum. simpl in Hsum.
           split; [nia | lia].
        -- exfalso. destruct Hcause as (page & st & tr & _ & Hrej).
           destruct (Huniform page st) as (pageData & Hres & _). congruence.
  - intros fetchPageFunction options schedule page total v e choice more run
      Hrun Hle Hstart Hfetch. subst run.
    rewrite prun_app, Hrun. simpl. unfold page_begin.
    destruct (Z.leb_spec page total); [|lia].
    rewrite Hstart. simpl. rewrite Hfetch.
    eexists. apply psteps_aborted.
Qed.

(** Three items that all reject with the string "boom": the run returns
    with three failures.  Three pages of ten such items: the first page
    is completed, and the run returns after the three pages with thirty
    failures.  A first page that cannot be fetched: the run is rejected,
    with the rejection of the fetch. *)
Lemma C3_witness :
  rejections_convertible always_rejects /\
  (exists v,
     processBatches example_clock [1; 2; 3]%nat always_rejects small_batches
       (replicate 19 0%nat) =
       Finished {| processed := totalProcessed v;
                   failed := totalFailed v;
                   state := currentState v |} v /\
     totalProcessed v + totalFailed v = 0 + 0 + Z.of_nat (length [1; 2; 3]%nat) /\
     totalFailed v = 0 + Z.of_nat (count is_item_error (trace v)) /\
     count is_item_error (trace v) = count (is_rejected_call always_rejects) (trace v)) /\
  (exists page total its r,
     processPaginatedBatches example_clock three_pages always_rejects paginated_defaults
       [0%nat] = InPage page total its r /\
     page ∈ pages_completed
              (trace (pm_vars (processPaginatedBatches example_clock three_pages
                                 always_rejects paginated_defaults
                                 ([0%nat] ++ replicate 41 0%nat))))) /\
  (exists res v,
     processPaginatedBatches example_clock three_pages always_rejects paginated_defaults
       (replicate 127 0%nat) = PFinished res v /\
     rev (pages_completed (trace v)) = seqZ 1 3 /\
     processed res + failed res = 3 * Z.of_nat 10 /\
     failed res = Z.of_nat (count (is_rejected_call always_rejects) (trace v))) /\
  (exists v',
     processPaginatedBatches example_clock failing_fetch always_rejects paginated_defaults
       ([] ++ [0%nat]) = PAborted (VError "Error" "network down") v').
Proof.
  assert (Hconv : rejections_convertible always_rejects).
  { intros item index st error [= <-]. reflexivity. }
  assert (Hcb : PaginatedBatchOptions.callbacks_complete paginated_defaults)
    by (repeat split).
  assert (Hlimit : 1 <= PaginatedBatchOptions.concurrencyLimit paginated_defaults)
    by (simpl; lia).
  assert (Huniform : uniform_pages three_pages 3 10).
  { intros page st. eexists. split; [reflexivity|]. split; reflexivity. }
  destruct (C3_item_failures_recovered_fetch_failures_fatal nat unit example_clock
              always_rejects) as [Hlocal Hfatal].
  destruct (Hlocal Hconv) as [Harray Hpaged].
  destruct (Hpaged three_pages paginated_defaults Hcb Hlimit)
    as (_ & Hpage & _ & Hrun).
  split; [exact Hconv|]. split; [|split; [|split]].
  - apply (Harray [1; 2; 3]%nat small_batches (replicate 19 0%nat)).
    + simpl. lia.
    + simpl. lia.
    + repeat split.
    + simpl. lia.
  - assert (Hshape : match processPaginatedBatches example_clock three_pages always_rejects
                             paginated_defaults [0%nat] with
                     | InPage _ _ its _ => length its = 10%nat
                     | _ => False
                     end)
      by (vm_compute; reflexivity).
    destruct (processPaginatedBatches example_clock three_pages always_rejects
                paginated_defaults [0%nat])
      as [page total v|page total its r|res v|e v] eqn:Hstate;
      try (exfalso; exact Hshape).
    exists page, total, its, r. split; [reflexivity|].
    apply (Hpage [0%nat] page total its r (replicate 41 0%nat) Hstate).
    rewrite Hshape, length_replicate. lia.
  - apply (Hrun 3 10%nat (replicate 127 0%nat) Huniform); try reflexivity; lia.
  - exact (Hfatal failing_fetch paginated_defaults [] 1 1 _ (VError "Error" "network down")
             0%nat [] eq_refl ltac:(lia) eq_refl eq_refl).
Defined.

(** C3 as stated fails: an item failure is not always recovered.  When
    [onItemError] throws, the task of the failed item rejects and with it
    the run: the failure has been counted and [onItemError] invoked, and
    no schedule, however long, reaches the [return]. *)
Lemma C3_counterexample :
  (exists v,
     processBatches example_clock [7%nat] always_rejects throwing_onItemError
       [0; 0; 0]%nat = Aborted (VStr "handler failed") v /\
     totalFailed v = 1 /\
     EvItemError 7%nat (VError "Error" "boom") 1 ∅ ∈ trace v) /\
  ~ exists schedule res v,
      processBatches example_clock [7%nat] always_rejects throwing_onItemError schedule
        = Finished res v.
Proof.
  split.
  - eexists. split; [vm_compute; reflexivity|]. split; [reflexivity|].
    apply list_elem_of_here.
  - intros (schedule & res & v & Hrun).
    destruct schedule as [|c1 [|c2 [|c3 rest]]];
      [vm_compute in Hrun; discriminate ..|].
    change (c1 :: c2 :: c3 :: rest) with ([c1; c2; c3] ++ rest) in Hrun.
    rewrite run_app in Hrun.
    assert (Hab : is_aborted (processBatches example_clock [7%nat] always_rejects
                                throwing_onItemError [c1; c2; c3]))
      by (vm_compute; exact I).
    destruct (processBatches example_clock [7%nat] always_rejects throwing_onItemError
                [c1; c2; c3]) as [i v0|i batch batchNumber r|res0 v0|e v0];
      try (exfalso; exact Hab).
    rewrite steps_aborted in Hrun. discriminate.
Qed.

(** C4, as the code has it.  When a fetched page announces a
    [totalPages] that is not zero and differs from the driver's, the
    driver takes it over, writes it into [currentState] and calls
    [onStateUpdate] with that state right after the fetch: anything else
    this iteration does, the calls of [processFunction] included, comes
    later in the trace.  When the page announces no [totalPages], or 0, or
    the driver's own value, the driver goes straight on to the items of
    the page with its [totalPages] and [currentState] as they were. *)
Theorem C4_fetched_totalPages_taken_over :
  forall (T R : Type) (clock : nat -> string)
         (fetchPageFunction : Z -> State -> settled (PageData T))
         (processFunction : T -> nat -> State -> settled R)
         (options : PaginatedBatchOptions.t T R)
         (page total : Z) (v : vars) (pageData : PageData T) (choice : nat),
    page <= total ->
    PaginatedBatchOptions.onPageStart options page total (currentState v) = Completes ->
    fetchPageFunction page (currentState v) = Resolved pageData ->
    let m := page_step clock fetchPageFunction processFunction options choice
               (PageLoop page total v) in
    (forall n,
       pd_totalPages pageData = Some n -> n <> 0 -> n <> total ->
       (exists post,
          trace (pm_vars m) =
            post ++ EvStateUpdate (<["totalPages" := VNum n]> (currentState v)) None
                 :: EvFetchPage page (currentState v)
                 :: EvPageStart page total (currentState v)
                 :: trace v) /\
       currentState (pm_vars m) !! "totalPages" = Some (VNum n) /\
       match m with
       | PageLoop _ total' _ | InPage _ total' _ _ => total' = n
       | PFinished _ _ => False
       | PAborted _ _ => True
       end) /\
    (pd_totalPages pageData = None \/ pd_totalPages pageData = Some 0
     \/ pd_totalPages pageData = Some total ->
     m = page_items_step processFunction options page total pageData
           (log (EvFetchPage page (currentState v))
              (log (EvPageStart page total (currentState v)) v))).
Proof.
  intros T R clock fetchPageFunction processFunction options page total v pageData choice
    Hle Hstart Hfetch. cbv zeta. simpl. unfold page_begin.
  destruct (Z.leb_spec page total); [|lia].
  rewrite Hstart. simpl. rewrite Hfetch. split.
  - intros n Htotal Hn0 Hne. rewrite Htotal. unfold totalPages_changed.
    destruct (Z.eqb_spec n 0); [contradiction|].
    destruct (Z.eqb_spec n total); [contradiction|]. simpl.
    destruct (PaginatedBatchOptions.onStateUpdate options _).
    + match goal with |- context [page_items_step _ _ _ _ _ ?v'] =>
        destruct (page_items_step_shape processFunction options page n pageData v')
          as ((post & Ht) & Hstate & Hvar) end.
      split; [exists post; exact Ht|]. split; [|exact Hvar].
      rewrite Hstate. simpl. apply lookup_insert_eq.
    + simpl. split; [exists []; reflexivity|]. split; [apply lookup_insert_eq | exact I].
  - intros [-> | [-> | ->]]; unfold totalPages_changed; simpl; [reflexivity..|].
    rewrite Z.eqb_refl, orb_true_r. reflexivity.
Qed.

(** A first page that announces seven pages while the driver holds 1. *)
Lemma C4_witness :
  exists post,
    trace (pm_vars (page_step example_clock
                      (fun _ _ => Resolved {| items := Some [7%nat]; results := None;
                                              pd_totalPages := Some 7 |})
                      always_succeeds paginated_defaults 0%nat
                      (PageLoop 1 1 (Vars 0 0 ∅ []))))
    = post ++ [EvStateUpdate (<["totalPages" := VNum 7]> ∅) None;
               EvFetchPage 1 ∅; EvPageStart 1 1 ∅].
Proof.
  destruct (C4_fetched_totalPages_taken_over nat unit example_clock
              (fun _ _ => Resolved {| items := Some [7%nat]; results := None;
                                      pd_totalPages := Some 7 |})
              always_succeeds paginated_defaults 1 1 (Vars 0 0 ∅ [])
              {| items := Some [7%nat]; results := None; pd_totalPages := Some 7 |}
              0%nat ltac:(lia) eq_refl eq_refl)
    as (Hchanged & _).
  destruct (Hchanged 7 eq_refl ltac:(lia) ltac:(lia)) as (Htrace & _).
  exact Htrace.
Defined.

(** C4 as stated fails for a fetched [totalPages] of 0: the test
    [pageData.totalPages && ...] is false, so the driver keeps its own
    value 1, does not touch [currentState] and goes on to the items of the
    page without calling [onStateUpdate]. *)
Lemma C4_counterexample :
  exists st pageData,
    zero_totalPages 1 st = Resolved pageData /\
    pd_totalPages pageData = Some 0 /\
    processPaginatedBatches example_clock zero_totalPages always_succeeds
      paginated_defaults [0%nat] =
      InPage 1 1 [7%nat]
        (Running 0
           (Gate 10 [] [Task 7%nat 0%nat (AwaitProcess (Resolved tt))])
           (Vars 0 0 st [EvProcess 7%nat 0%nat st; EvFetchPage 1 st; EvPageStart 1 1 st])) /\
    st !! "totalPages" = Some (VNum 1).
Proof.
  eexists. eexists. split; [reflexivity|]. split; [reflexivity|].
  split; [vm_compute; reflexivity | reflexivity].
Qed.





(** C6. With no items the loop body never runs: the first step of
    [processBatches] returns the counters read from [initialState] and the
    copy of [initialState], and no callback has been invoked.  Seeded with
    [{ totalProcessed: 5, totalFailed: 1 }] it returns 5 and 1. *)
Theorem C6_empty_items_returns_seed :
  (forall (T R : Type) (clock : nat -> string)
          (processFunction : T -> nat -> State -> settled R)
          (options : BatchOptions.t T R) (choice : nat) (schedule : list nat),
     processBatches clock [] processFunction options (choice :: schedule) =
       Finished
         {| processed := num_or (BatchOptions.initialState options !! "totalProcessed") 0;
            failed := num_or (BatchOptions.initialState options !! "totalFailed") 0;
            state := BatchOptions.initialState options |}
         (Vars (num_or (BatchOptions.initialState options !! "totalProcessed") 0)
               (num_or (BatchOptions.initialState options !! "totalFailed") 0)
               (BatchOptions.initialState options) [])) /\
  (forall (choice : nat) (schedule : list nat),
     exists v,
       processBatches example_clock [] always_succeeds (with_initialState seeded_state)
         (choice :: schedule) =
         Finished {| processed := 5; failed := 1; state := seeded_state |} v /\
       trace v = []).
Proof.
  split.
  - intros. apply run_empty. reflexivity.
  - intros choice schedule. rewrite run_empty by reflexivity.
    eexists. split; reflexivity.
Qed.

(** C7. At every point of every run of either driver the item tasks
    that have started and not settled number at most [concurrencyLimit],
    and the gate starts the submissions of a batch in the order they were
    submitted: the tasks started so far in the current batch are its first
    [n] items in order, and the rest wait in order. *)
Theorem C7_concurrency_is_bounded :
  forall (T R : Type) (clock : nat -> string)
         (processFunction : T -> nat -> State -> settled R),
    (forall (items : list T) (options : BatchOptions.t T R) schedule,
       (in_flight (processBatches clock items processFunction options schedule)
        <= Z.to_nat (BatchOptions.concurrencyLimit options))%nat /\
       match processBatches clock items processFunction options schedule with
       | InBatch _ batch _ r =>
           exists n older,
             queue (r_gate r) = drop n (imap (fun index item => (item, index)) batch) /\
             calls (trace (r_vars r)) =
               rev (take n (imap (fun index item => (item, index)) batch)) ++ older
       | _ => True
       end) /\
    (forall (fetchPageFunction : Z -> State -> settled (PageData T))
            (options : PaginatedBatchOptions.t T R) schedule,
       (p_in_flight (processPaginatedBatches clock fetchPageFunction processFunction
                       options schedule)
        <= Z.to_nat (PaginatedBatchOptions.concurrencyLimit options))%nat /\
       match processPaginatedBatches clock fetchPageFunction processFunction
               options schedule with
       | InPage _ _ page r =>
           exists n older,
             queue (r_gate r) = drop n (imap (fun index item => (item, index)) page) /\
             calls (trace (r_vars r)) =
               rev (take n (imap (fun index item => (item, index)) page)) ++ older
       | _ => True
       end).
Proof.
  intros T R clock processFunction. split.
  - intros items options schedule.
    pose proof (run_inv clock items processFunction options schedule) as Hinv.
    destruct (processBatches _ _ _ _ _) as [i v|i batch batchNumber r|res v|e v];
      simpl; try (split; [lia | exact I]).
    destruct Hinv as [Hinv Hceil]. rewrite <- Hceil.
    split; [apply Hinv | apply Hinv].
  - intros fetchPageFunction options schedule.
    pose proof (prun_inv clock fetchPageFunction processFunction options schedule) as Hinv.
    destruct (processPaginatedBatches _ _ _ _ _) as [page total v|page total its r|res v|e v];
      simpl; try (split; [lia | exact I]).
    destruct Hinv as [Hinv Hceil]. rewrite <- Hceil.
    split; [apply Hinv | apply Hinv].
Qed.

(** C8, as the code has it.  The paginated loop is left exactly at its
    test, when [currentPage] exceeds [totalPages].  When every fetch
    announces three pages and returns ten items, with an empty
    [initialState], the default [initialPage], callbacks that complete, a
    valid [concurrencyLimit] and a [processFunction] that resolves or
    rejects with something its [catch] block can wrap, every run returns,
    under every schedule, having fetched pages 1, 2, 3 in that order and
    called [onPageComplete] for pages 1, 2, 3: three times. *)
Theorem C8_three_pages_then_return :
  forall (T R : Type) (clock : nat -> string)
         (fetchPageFunction : Z -> State -> settled (PageData T))
         (processFunction : T -> nat -> State -> settled R)
         (options : PaginatedBatchOptions.t T R),
    let step := page_step clock fetchPageFunction processFunction options in
    let run := processPaginatedBatches clock fetchPageFunction processFunction options in
    (forall choice page total v,
       total < page ->
       step choice (PageLoop page total v) =
         PFinished {| processed := totalProcessed v;
                      failed := totalFailed v;
                      state := currentState v |} v) /\
    (forall choice m,
       is_pfinished (step choice m) ->
       is_pfinished m \/ exists page total v, m = PageLoop page total v /\ total < page) /\
    (uniform_pages fetchPageFunction 3 10 ->
     PaginatedBatchOptions.initialState options = ∅ ->
     PaginatedBatchOptions.initialPage options = 1 ->
     PaginatedBatchOptions.callbacks_complete options ->
     1 <= PaginatedBatchOptions.concurrencyLimit options ->
     rejections_convertible processFunction ->
     forall schedule,
       (127 <= length schedule)%nat ->
       exists res v,
         run schedule = PFinished res v /\
         rev (pages_fetched (trace v)) = [1; 2; 3] /\
         rev (pages_completed (trace v)) = [1; 2; 3] /\
         count is_page_complete (trace v) = 3%nat).
Proof.
  intros T R clock fetchPageFunction processFunction options step run.
  subst step run. cbv beta. split; [|split].
  - intros choice page total v Hgt. simpl. unfold page_begin.
    destruct (Z.leb_spec page total); [lia | reflexivity].
  - intros choice m. apply page_step_exit.
  - intros Huniform Hinit Hpage Hcb Hlimit Hconv schedule Hlen.
    assert (Hstart : exists v0,
              processPaginatedBatches_init options = PageLoop 1 1 v0 /\ trace v0 = []).
    { unfold processPaginatedBatches_init. rewrite Hinit, !lookup_empty, Hpage. simpl.
      eexists. split; reflexivity. }
    destruct Hstart as (v0 & Hstart & Htrace0).
    unfold processPaginatedBatches. rewrite Hstart.
    destruct (psteps_paged clock fetchPageFunction processFunction options 3 10
                Huniform ltac:(lia) ltac:(lia) schedule (PageLoop 1 1 v0))
      as [Hpaged Hend].
    { exact I. }
    { simpl. rewrite Htrace0. repeat split; try lia; reflexivity. }
    specialize (Hend ltac:(simpl; lia)).
    pose proof (prun_abort_cause clock fetchPageFunction processFunction options
                  schedule Hcb Hlimit Hconv) as Hcause.
    unfold processPaginatedBatches in Hcause. rewrite Hstart in Hcause.
    destruct (fold_left _ schedule (PageLoop 1 1 v0))
      as [page total v|page total its r|res v|e v];
      cbn [paged_measure] in Hend; try nia.
    + exists res, v. destruct Hpaged as [Hf Hc].
      split; [reflexivity|]. rewrite count_page_complete, Hf, Hc, rev_involutive.
      repeat split; reflexivity.
    + exfalso. destruct Hcause as (page & st & tr & _ & Hrej).
      destruct (Huniform page st) as (pageData & Hres & _). congruence.
Qed.

(** The default options on the three pages of C8. *)
Lemma C8_witness :
  uniform_pages three_pages 3 10 /\
  rejections_convertible always_succeeds /\
  exists res v,
    processPaginatedBatches example_clock three_pages always_succeeds paginated_defaults
      (replicate 127 0%nat) = PFinished res v /\
    rev (pages_fetched (trace v)) = [1; 2; 3] /\
    rev (pages_completed (trace v)) = [1; 2; 3] /\
    count is_page_complete (trace v) = 3%nat.
Proof.
  assert (Huniform : uniform_pages three_pages 3 10).
  { intros page st. eexists. split; [reflexivity|]. split; reflexivity. }
  assert (Hconv : rejections_convertible always_succeeds)
    by (intros item index st error H; discriminate).
  split; [exact Huniform|]. split; [exact Hconv|].
  destruct (C8_three_pages_then_return nat unit example_clock three_pages always_succeeds
              paginated_defaults) as (_ & _ & Hrun).
  apply Hrun.
  - exact Huniform.
  - reflexivity.
  - reflexivity.
  - repeat split.
  - simpl. lia.
  - exact Hconv.
  - rewrite length_replicate. lia.
Defined.

(** C8 as stated fails: three announced pages do not make the driver
    fetch three pages and return.  When [onPageComplete] throws, the run
    is rejected at the end of page 1: one page has been fetched,
    [onPageComplete] has been called once, and no schedule, however long,
    reaches the [return]. *)
Lemma C8_counterexample :
  uniform_pages three_pages 3 10 /\
  PaginatedBatchOptions.initialState throwing_onPageComplete = ∅ /\
  PaginatedBatchOptions.initialPage throwing_onPageComplete = 1 /\
  (exists v,
     processPaginatedBatches example_clock three_pages always_succeeds
       throwing_onPageComplete (replicate 42 0%nat) = PAborted (VStr "observer failed") v /\
     rev (pages_fetched (trace v)) = [1] /\
     count is_page_complete (trace v) = 1%nat) /\
  ~ exists schedule res v,
      processPaginatedBatches example_clock three_pages always_succeeds
        throwing_onPageComplete schedule = PFinished res v.
Proof.
  split; [|split; [reflexivity|split; [reflexivity|split]]].
  - intros page st. eexists. split; [reflexivity|]. split; reflexivity.
  - assert (Hab : match processPaginatedBatches example_clock three_pages always_succeeds
                          throwing_onPageComplete (replicate 42 0%nat) with
                  | PAborted e v =>
                      e = VStr "observer failed" /\
                      rev (pages_fetched (trace v)) = [1] /\
                      count is_page_complete (trace v) = 1%nat
                  | _ => False
                  end)
      by (vm_compute; repeat split).
    destruct (processPaginatedBatches example_clock three_pages always_succeeds
                throwing_onPageComplete (replicate 42 0%nat))
      as [page total v|page total its r|res v|e v]; try (exfalso; exact Hab).
    destruct Hab as (-> & Hf & Hc). exists v. split; [reflexivity|]. split; assumption.
  - intros (schedule & res & v & Hrun).
    pose (ahead := fun m : @pmachine nat unit =>
                     match m with
                     | PageLoop page total _ => page <= total
                     | PFinished _ _ => False
                     | _ => True
                     end).
    assert (Hinv : ahead (processPaginatedBatches example_clock three_pages always_succeeds
                            throwing_onPageComplete schedule)).
    { unfold processPaginatedBatches.
      apply (fold_left_invariant
               (fun m c => page_step example_clock three_pages always_succeeds
                             throwing_onPageComplete c m) ahead).
      - intros m c. destruct m as [page total v0|page total its r|res0 v0|e v0];
          simpl; try exact id.
        + intros Hle. unfold page_begin. destruct (Z.leb_spec page total); [|lia].
          simpl.
          assert (Hitems : forall total' v',
                    ahead (page_items_step always_succeeds throwing_onPageComplete page total'
                             {| items := Some (replicate 10 7%nat);
                                results := None;
                                pd_totalPages := Some 3 |} v')).
          { intros total' v'. unfold page_items_step. simpl.
            exact I. }
          destruct (if match total with Z.pos q => (3 =? q)%positive | _ => false end
                    then None else Some 3); apply Hitems.
        + intros _. destruct (active (r_gate r)); [exact I|].
          destruct (gate_step _ _ _ _ _ _ _ _ _ _) as [r'|[e v']]; exact I.
      - vm_compute. discriminate. }
    rewrite Hrun in Hinv. exact Hinv.
Qed.

(** C9. Every step of either driver leaves the fields of the state
    outside the ones it writes ([totalProcessed], [totalFailed],
    [lastUpdated], and for the paginated driver [currentPage] and
    [totalPages]) as they were, so at every point of a run, and in the
    returned state, those fields are the ones of [initialState]. *)
Theorem C9_unreserved_fields_preserved :
  forall (T R : Type) (clock : nat -> string)
         (processFunction : T -> nat -> State -> settled R) (k : string),
    (forall (items : list T) (options : BatchOptions.t T R),
       k ∉ counter_fields ->
       (forall choice m,
          currentState (m_vars (batch_step clock items processFunction options choice m)) !! k
          = currentState (m_vars m) !! k) /\
       (forall schedule,
          currentState (m_vars (processBatches clock items processFunction options schedule)) !! k
          = BatchOptions.initialState options !! k) /\
       (forall schedule res v,
          processBatches clock items processFunction options schedule = Finished res v ->
          state res !! k = BatchOptions.initialState options !! k)) /\
    (forall (fetchPageFunction : Z -> State -> settled (PageData T))
            (options : PaginatedBatchOptions.t T R),
       k ∉ counter_fields ++ cursor_fields ->
       (forall choice m,
          currentState (pm_vars (page_step clock fetchPageFunction processFunction
                                   options choice m)) !! k
          = currentState (pm_vars m) !! k) /\
       (forall schedule,
          currentState (pm_vars (processPaginatedBatches clock fetchPageFunction
                                   processFunction options schedule)) !! k
          = PaginatedBatchOptions.initialState options !! k) /\
       (forall schedule res v,
          processPaginatedBatches clock fetchPageFunction processFunction options schedule
            = PFinished res v ->
          state res !! k = PaginatedBatchOptions.initialState options !! k)).
Proof.
  intros T R clock processFunction k. split.
  - intros items options Hk.
    assert (Hrun : forall schedule,
              currentState (m_vars (processBatches clock items processFunction options schedule)) !! k
              = BatchOptions.initialState options !! k).
    { intros schedule.
      destruct (run_advance clock items processFunction options schedule)
        as (_ & _ & _ & Hframe).
      apply Hframe, Hk. }
    split; [|split; [exact Hrun|]].
    + intros choice m.
      destruct (batch_step_advance clock items processFunction options choice m)
        as (_ & _ & _ & Hframe).
      apply Hframe, Hk.
    + intros schedule res v Hfin. specialize (Hrun schedule).
      rewrite (run_result _ _ _ _ _ _ _ Hfin). rewrite Hfin in Hrun. exact Hrun.
  - intros fetchPageFunction options Hk.
    assert (Hrun : forall schedule,
              currentState (pm_vars (processPaginatedBatches clock fetchPageFunction
                                       processFunction options schedule)) !! k
              = PaginatedBatchOptions.initialState options !! k).
    { intros schedule.
      destruct (prun_advance clock fetchPageFunction processFunction options schedule)
        as (_ & _ & _ & Hframe).
      rewrite (Hframe k Hk). apply pinit_frame, Hk. }
    split; [|split; [exact Hrun|]].
    + intros choice m.
      destruct (page_step_advance clock fetchPageFunction processFunction options choice m)
        as (_ & _ & _ & Hframe).
      apply Hframe, Hk.
    + intros schedule res v Hfin. specialize (Hrun schedule).
      rewrite (prun_result _ _ _ _ _ _ _ Hfin). rewrite Hfin in Hrun. exact Hrun.
Qed.

(** A caller's field survives a run of five items, and a run of three
    pages. *)
Lemma C9_witness :
  ("jobId" ∉ counter_fields ++ cursor_fields) /\
  (currentState (m_vars (processBatches example_clock [1; 2; 3; 4; 5]%nat always_succeeds
                           (with_initialState resumed_state) (replicate 30 0%nat)))
     !! "jobId") = Some (VStr "nightly") /\
  (currentState (pm_vars (processPaginatedBatches example_clock three_pages always_succeeds
                            (paginated_with_initialState resumed_state)
                            (replicate 127 0%nat)))
     !! "jobId") = Some (VStr "nightly").
Proof.
  assert (Hk : "jobId" ∉ counter_fields ++ cursor_fields).
  { unfold counter_fields, cursor_fields. simpl. intros H.
    repeat (apply elem_of_cons in H as [H|H]; [discriminate|]).
    inversion H. }
  assert (Hk' : "jobId" ∉ counter_fields).
  { intros H. apply Hk, elem_of_app. left. exact H. }
  destruct (C9_unreserved_fields_preserved nat unit example_clock always_succeeds "jobId")
    as [Harray Hpaged].
  destruct (Harray [1; 2; 3; 4; 5]%nat (with_initialState resumed_state) Hk')
    as (_ & Hrun & _).
  destruct (Hpaged three_pages (paginated_with_initialState resumed_state) Hk)
    as (_ & Hprun & _).
  split; [exact Hk|]. split; [rewrite Hrun | rewrite Hprun]; reflexivity.
Defined.




(** * Further properties *)

(** ** Lists, numbers and traces *)

(** [l.slice(i, i + n)] for a position inside the array. *)
Lemma slice_take_drop {A} (l : list A) i n :
  0 <= i <= Z.of_nat (length l) -> 0 <= n ->
  slice l i (i + n) = take (Z.to_nat n) (drop (Z.to_nat i) l).
Proof.
  intros Hi Hn. unfold slice, slice_index.
  destruct (Z.ltb_spec i 0); [lia|]. destruct (Z.ltb_spec (i + n) 0); [lia|].
  rewrite (Z.min_l i) by lia.
  destruct (Z.le_gt_cases (i + n) (Z.of_nat (length l))).
  - rewrite Z.min_l by lia. f_equal. lia.
  - rewrite Z.min_r by lia. rewrite !take_ge; [reflexivity | |]; rewrite length_drop; lia.
Qed.

(** [Math.ceil(len / bs)] is [k] when [k] batches of [bs] cover [len]
    items and [k - 1] do not. *)
Lemma js_ceil_div_spec len bs (k : nat) :
  1 <= bs -> len <= bs * Z.of_nat k ->
  (k = 0%nat /\ 0 <= len \/ bs * (Z.of_nat k - 1) < len) ->
  js_ceil_div len bs = JNum (Z.of_nat k).
Proof.
  intros Hbs Hle Hprev. unfold js_ceil_div, js_div_round.
  destruct (Z.eqb_spec bs 0); [lia|]. f_equal.
  assert (Hq : - Z.of_nat k = (- len) `div` bs).
  { apply (Z.div_unique _ _ _ (bs * Z.of_nat k - len)); [left; lia | lia]. }
  lia.
Qed.

(** [q = Math.ceil(len / bs)] is the least number of batches that cover
    [len] items. *)
Lemma js_ceil_div_bounds len bs q :
  1 <= bs -> js_ceil_div len bs = JNum q -> bs * (q - 1) < len <= bs * q.
Proof.
  intros Hbs. unfold js_ceil_div, js_div_round. destruct (Z.eqb_spec bs 0); [lia|].
  intros [= <-].
  pose proof (Z.div_mod (- len) bs ltac:(lia)) as Hdiv.
  pose proof (Z.mod_pos_bound (- len) bs ltac:(lia)) as Hmod. lia.
Qed.

Lemma fst_imap {A B} (f : nat -> B) (l : list A) :
  (imap (fun g item => (item, f g)) l).*1 = l.
Proof.
  revert f. induction l as [|x l IH]; intros f; [reflexivity|].
  simpl. f_equal. apply (IH (f ∘ S)).
Qed.

Lemma num_or_VNum n : num_or (Some (VNum n)) 0 = n.
Proof. unfold num_or. destruct (Z.eqb_spec n 0); congruence. Qed.

Lemma num_or_ne_0 o d : d <> 0 -> num_or o d <> 0.
Proof.
  intros Hd. unfold num_or. destruct o as [[]|]; try exact Hd.
  destruct (Z.eqb_spec n 0); assumption.
Qed.

Lemma totalPages_changed_ne_0 fetched total n :
  totalPages_changed fetched total = Some n -> n <> 0.
Proof.
  unfold totalPages_changed. destruct fetched as [k|]; [|discriminate].
  destruct (Z.eqb_spec k 0); simpl; [discriminate|].
  destruct (k =? total); [discriminate|]. intros [= <-]. assumption.
Qed.

Lemma seqZ_next m n : 0 <= n -> seqZ m (n + 1) = seqZ m n ++ [m + n].
Proof. intros Hn. rewrite seqZ_app by lia. reflexivity. Qed.

Lemma currentPage_not_counter : "currentPage" ∉ counter_fields.
Proof.
  unfold counter_fields. intros H.
  repeat (apply elem_of_cons in H as [H|H]; [discriminate|]). inversion H.
Qed.

Lemma totalPages_not_counter : "totalPages" ∉ counter_fields.
Proof.
  unfold counter_fields. intros H.
  repeat (apply elem_of_cons in H as [H|H]; [discriminate|]). inversion H.
Qed.

Section MoreTraceFacts.

Context {T R : Type}.

Lemma batches_begun_items (new tr : list (@event T R)) :
  Forall item_event new -> batches_begun (new ++ tr) = batches_begun tr.
Proof.
  intros H. induction H as [|e new He _ IH]; [reflexivity|].
  simpl. unfold batches_begun in *. simpl. rewrite IH. destruct e; simpl in *; tauto.
Qed.

Lemma batches_ended_items (new tr : list (@event T R)) :
  Forall item_event new -> batches_ended (new ++ tr) = batches_ended tr.
Proof.
  intros H. induction H as [|e new He _ IH]; [reflexivity|].
  simpl. unfold batches_ended in *. simpl. rewrite IH. destruct e; simpl in *; tauto.
Qed.

Lemma page_with_items_items fetchPageFunction (new tr : list (@event T R)) :
  Forall item_event new ->
  omap (page_with_items fetchPageFunction) (new ++ tr) = omap (page_with_items fetchPageFunction) tr.
Proof.
  intros H. induction H as [|e new He _ IH]; [reflexivity|].
  destruct e; simpl in He; try contradiction; exact IH.
Qed.

Lemma item_event_cursor (e : @event T R) : item_event e -> cursor_consistent e.
Proof. destruct e; simpl; tauto. Qed.

End MoreTraceFacts.

(** ** Histories *)

Section HistoryFacts.

Context {T R : Type}.
Implicit Types (e : @event T R) (tr older : list (@event T R)) (v : @vars T R).

Lemma history_nil (P : @event T R -> list (@event T R) -> Prop) : history P [].
Proof. intros new e older H. destruct new; discriminate. Qed.

(** A history grows by an event that fits the events before it. *)
Lemma history_cons (P : @event T R -> list (@event T R) -> Prop) e tr :
  history P tr -> P e tr -> history P (e :: tr).
Proof.
  intros Htr He new e' older Heq. destruct new as [|e0 new]; simpl in Heq.
  - injection Heq as <- <-. exact He.
  - injection Heq as _ Heq. exact (Htr _ _ _ Heq).
Qed.

Lemma last_update_cons e tr :
  is_state_update e = false -> last_update (e :: tr) = last_update tr.
Proof. destruct e; try discriminate; reflexivity. Qed.

Lemma carries_counters_cons p0 f0 (st : State) e tr :
  is_item_success e = false -> is_item_error e = false ->
  carries_counters p0 f0 st tr -> carries_counters p0 f0 st (e :: tr).
Proof.
  intros Hs He. unfold carries_counters, processed_after, failed_after.
  rewrite !count_cons, Hs, He. exact id.
Qed.

Lemma carries_counters_insert p0 f0 (st : State) k x tr :
  k <> "totalProcessed" -> k <> "totalFailed" ->
  carries_counters p0 f0 st tr -> carries_counters p0 f0 (<[k := x]> st) tr.
Proof.
  intros Hp Hf [H1 H2]. split; rewrite lookup_insert_ne by congruence; assumption.
Qed.

Section Tracked.

Variables (p0 f0 : Z) (s0 : State).
Local Abbreviation ok := (tracked p0 f0 s0).

Lemma tracked_log e v :
  ok v -> counts_passed p0 f0 e (trace v) -> snapshot_current p0 f0 e (trace v) ->
  is_item_success e = false -> is_item_error e = false -> is_state_update e = false ->
  ok (log e v).
Proof.
  intros [Hc Hs Hp Hf Hst] Hce Hse Hns Hne Hnu. split; simpl.
  - apply history_cons; assumption.
  - apply history_cons; assumption.
  - unfold processed_after in *. rewrite count_cons, Hns. exact Hp.
  - unfold failed_after in *. rewrite count_cons, Hne. exact Hf.
  - rewrite last_update_cons by exact Hnu. exact Hst.
Qed.

Lemma tracked_success item result st v :
  ok v -> ok (log (EvItemSuccess item result (totalProcessed v + 1) st) (incr_processed v)).
Proof.
  intros [Hc Hs Hp Hf Hst]. split; simpl.
  - apply history_cons; [exact Hc|]. simpl. rewrite Hp. reflexivity.
  - apply history_cons; [exact Hs | exact I].
  - unfold processed_after in *. rewrite count_cons. simpl. lia.
  - unfold failed_after in *. rewrite count_cons. exact Hf.
  - exact Hst.
Qed.

Lemma tracked_error item error st v :
  ok v -> ok (log (EvItemError item error (totalFailed v + 1) st) (incr_failed v)).
Proof.
  intros [Hc Hs Hp Hf Hst]. split; simpl.
  - apply history_cons; [exact Hc|]. simpl. rewrite Hf. reflexivity.
  - apply history_cons; [exact Hs | exact I].
  - unfold processed_after in *. rewrite count_cons. exact Hp.
  - unfold failed_after in *. rewrite count_cons. simpl. lia.
  - exact Hst.
Qed.

Lemma tracked_update (s : State) info v :
  ok v -> carries_counters p0 f0 s (trace v) ->
  ok (log (EvStateUpdate s info) (set_state s v)).
Proof.
  intros [Hc Hs Hp Hf Hst] Hcar. split; simpl.
  - apply history_cons; [exact Hc | exact I].
  - apply history_cons; [exact Hs | exact Hcar].
  - unfold processed_after in *. rewrite count_cons. exact Hp.
  - unfold failed_after in *. rewrite count_cons. exact Hf.
  - reflexivity.
Qed.

Lemma carries_snapshot (clock : nat -> string) v :
  ok v -> carries_counters p0 f0 (snapshot clock v) (trace v).
Proof.
  intros [_ _ Hp Hf _]. unfold carries_counters, snapshot. rewrite <- Hp, <- Hf. split.
  - rewrite !lookup_insert_ne by discriminate. apply lookup_insert_eq.
  - rewrite lookup_insert_ne by discriminate. apply lookup_insert_eq.
Qed.

Lemma tracked_traced v : ok v -> traced p0 f0 s0 v.
Proof. intros [Hc Hs Hp Hf Hst]. split; try assumption. lia. Qed.

(** A [catch] block that fails has counted the failure and called
    nothing. *)
Lemma traced_incr_failed v : ok v -> traced p0 f0 s0 (incr_failed v).
Proof. intros [Hc Hs Hp Hf Hst]. split; simpl; try assumption. lia. Qed.

Variable clock : nat -> string.
Variable processFunction : T -> nat -> State -> settled R.
Variable onItemSuccess : T -> R -> Z -> State -> completion.
Variable onItemError : T -> value -> Z -> State -> completion.
Variable onStateUpdate : State -> option (jsnum * jsnum) -> completion.
Variable stateUpdateInterval : Z.
Variable info : option (jsnum * jsnum).
Variable batch_length : Z.

(** The task body keeps the variables and the trace in step, until a
    task is rejected. *)
Lemma resume_tracked tk bp v bp' v' res :
  resume_task clock onItemSuccess onItemError onStateUpdate stateUpdateInterval info
    batch_length tk bp v = (bp', (v', res)) ->
  ok v ->
  match res with
  | TaskRejected _ => traced p0 f0 s0 v'
  | _ => ok v'
  end.
Proof.
  intros H Hv. unfold resume_task, on_catch in H.
  destruct (t_phase tk) as [[?|?]|[|?]|[|?]|[|?]];
    try match type of H with
        | context [if ?b then _ else _] => destruct b
        end;
    try match type of H with
        | context [as_Error ?x] => destruct (as_Error x)
        end;
    simplify_eq; try exact Hv;
    first [apply tracked_success, Hv | apply tracked_error, Hv
          | apply traced_incr_failed, Hv | apply tracked_traced, Hv | idtac].
  apply tracked_update; [exact Hv | exact (carries_snapshot clock v Hv)].
Qed.

Lemma start_queued_tracked slots c q act v g v' :
  start_queued processFunction slots c q act v = (g, v') -> ok v -> ok v'.
Proof.
  revert q act v. induction slots as [|slots IH]; intros q act v; simpl.
  - intros [= _ <-]. exact id.
  - destruct q as [|[item index] q]; [intros [= _ <-]; exact id|].
    intros H Hv. apply IH in H; [exact H|].
    apply tracked_log; [exact Hv | exact I | exact I | reflexivity..].
Qed.

Lemma gate_step_tracked choice r :
  ok (r_vars r) ->
  match gate_step clock processFunction onItemSuccess onItemError onStateUpdate
          stateUpdateInterval info batch_length choice r with
  | inl r' => ok (r_vars r')
  | inr (_, v') => traced p0 f0 s0 v'
  end.
Proof.
  intros Hv. unfold gate_step.
  destruct (active (r_gate r) !! _) as [tk|]; [|exact Hv].
  destruct (resume_task _ _ _ _ _ _ _ tk (r_counter r) (r_vars r)) as [bp [v res]] eqn:Hres.
  apply resume_tracked in Hres; [|exact Hv].
  destruct res as [ph| |e]; simpl; try exact Hres.
  destruct (start_queued _ _ _ _ _ v) as [g' v'] eqn:Hstart. simpl.
  eapply start_queued_tracked; eassumption.
Qed.

End Tracked.

End HistoryFacts.

(** ** The gate *)

Section GateCallFacts.

Context {T R : Type}.

Variable clock : nat -> string.
Variable processFunction : T -> nat -> State -> settled R.
Variable onItemSuccess : T -> R -> Z -> State -> completion.
Variable onItemError : T -> value -> Z -> State -> completion.
Variable onStateUpdate : State -> option (jsnum * jsnum) -> completion.
Variable stateUpdateInterval : Z.
Variable info : option (jsnum * jsnum).
Variable batch_length : Z.

Local Abbreviation gstep :=
  (gate_step clock processFunction onItemSuccess onItemError onStateUpdate
     stateUpdateInterval info batch_length).

(** The gate starts queued submissions oldest first, and nothing else
    calls [processFunction]. *)
Lemma gate_step_calls choice r r' :
  gstep choice r = inl r' ->
  exists m,
    queue (r_gate r') = drop m (queue (r_gate r)) /\
    calls (trace (r_vars r')) = rev (take m (queue (r_gate r))) ++ calls (trace (r_vars r)).
Proof.
  unfold gate_step.
  destruct (active (r_gate r) !! _) as [tk|] eqn:Hk.
  2:{ intros [= <-]. exists 0%nat. rewrite drop_0. split; reflexivity. }
  destruct (resume_task _ _ _ _ _ _ _ tk (r_counter r) (r_vars r)) as [bp [v res]] eqn:Hres.
  pose proof (resume_facts clock processFunction _ _ _ _ _ _ _ _ _ _ _ _ Hres) as [Hcalls _].
  destruct res as [ph| |e]; [| |discriminate].
  - intros [= <-]. exists 0%nat. simpl. rewrite drop_0. split; [reflexivity | exact Hcalls].
  - rewrite start_queued_spec. intros [= <-]. eexists. simpl. split; [reflexivity|].
    rewrite calls_app, calls_started, Hcalls. reflexivity.
Qed.

(** Submitting a batch to a fresh gate starts its first [limit] items,
    in order, and calls nothing else. *)
Lemma submit_all_calls limit batch v g v' :
  submit_all processFunction (Gate limit [] []) batch v = (g, v') ->
  exists new : list (@event T R),
    trace v' = new ++ trace v /\ Forall item_event new /\
    queue g = drop limit (imap (fun index item => (item, index)) batch) /\
    calls new = rev (take limit (imap (fun index item => (item, index)) batch)).
Proof.
  intros Hsub.
  pose proof (start_queued_progress _ _ _ _ _ _ _ _ Hsub) as Hp.
  apply progress_item_events in Hp as (new & Ht & Hnew).
  exists new. split; [exact Ht|]. split; [exact Hnew|].
  unfold submit_all in Hsub. rewrite start_queued_spec in Hsub. simpl in Hsub.
  injection Hsub as <- <-. simpl in Ht. apply app_inv_tail in Ht. subst new.
  split; [reflexivity | apply calls_started].
Qed.

End GateCallFacts.


Section PageCounterFacts.

Context {T R : Type}.

Variable clock : nat -> string.
Variable processFunction : T -> nat -> State -> settled R.
Variable onItemSuccess : T -> R -> Z -> State -> completion.
Variable onItemError : T -> value -> Z -> State -> completion.
Variable onStateUpdate : State -> option (jsnum * jsnum) -> completion.
Variable stateUpdateInterval : Z.
Variable info : option (jsnum * jsnum).
Variable batch_length : Z.

Local Abbreviation counted bp v :=
  (history (@page_count_passed T R) (trace v) /\ bp = Z.of_nat (successes_on_page (trace v))).

(** [pageProcessed] goes up with each [onItemSuccess] call, and only
    then. *)
Lemma resume_counted tk bp v bp' v' res :
  resume_task clock onItemSuccess onItemError onStateUpdate stateUpdateInterval info
    batch_length tk bp v = (bp', (v', res)) ->
  counted bp v -> counted bp' v'.
Proof.
  intros H [Hh Hbp]. unfold resume_task, on_catch in H.
  destruct (t_phase tk) as [[?|?]|[|?]|[|?]|[|?]];
    try match type of H with
        | context [if ?b then _ else _] => destruct b
        end;
    try match type of H with
        | context [as_Error ?x] => destruct (as_Error x)
        end;
    simplify_eq; try (split; [exact Hh | reflexivity]);
    (split; [apply history_cons; [exact Hh | exact I] | simpl; lia]).
Qed.

Lemma start_queued_counted slots c q act bp v g v' :
  start_queued processFunction slots c q act v = (g, v') -> counted bp v -> counted bp v'.
Proof.
  revert q act v. induction slots as [|slots IH]; intros q act v; simpl.
  - intros [= _ <-]. exact id.
  - destruct q as [|[item index] q]; [intros [= _ <-]; exact id|].
    intros H [Hh Hbp]. apply IH in H; [exact H|].
    split; [apply history_cons; [exact Hh | exact I] | exact Hbp].
Qed.

Lemma gate_step_counted choice r :
  counted (r_counter r) (r_vars r) ->
  match gate_step clock processFunction onItemSuccess onItemError onStateUpdate
          stateUpdateInterval info batch_length choice r with
  | inl r' => counted (r_counter r') (r_vars r')
  | inr (_, v') => history (@page_count_passed T R) (trace v')
  end.
Proof.
  intros Hr. unfold gate_step.
  destruct (active (r_gate r) !! _) as [tk|]; [|exact Hr].
  destruct (resume_task _ _ _ _ _ _ _ tk (r_counter r) (r_vars r)) as [bp [v res]] eqn:Hres.
  apply resume_counted in Hres; [|exact Hr].
  destruct res as [ph| |e]; simpl; [exact Hres | | apply Hres].
  destruct (start_queued _ _ _ _ _ v) as [g' v'] eqn:Hstart. simpl.
  eapply start_queued_counted; eassumption.
Qed.

End PageCounterFacts.

(** ** The steps of processBatches *)

Section BatchLayoutFacts.

Context {T R : Type}.

Variable clock : nat -> string.
Variable items : list T.
Variable processFunction : T -> nat -> State -> settled R.
Variable options : BatchOptions.t T R.

Import BatchOptions.

Local Abbreviation step := (batch_step clock items processFunction options).
Local Abbreviation run := (processBatches clock items processFunction options).
Local Abbreviation inv := (batch_inv items processFunction options).
Local Abbreviation layout := (batch_layout items options).
Local Abbreviation len := (Z.of_nat (length items)).
Local Abbreviation size := (Z.to_nat (batchSize options)).

Lemma numbered_batches_next k :
  numbered_batches items options k
    ++ [(JNum (Z.of_nat k + 1), totalBatches items options, nth_batch items options k)]
  = numbered_batches items options (S k).
Proof. unfold numbered_batches. rewrite seq_S, fmap_app. reflexivity. Qed.

(** The calls for one more batch: its items with their indexes. *)
Lemma batch_calls_next k :
  (1 <= size)%nat -> (k * size <= length items)%nat ->
  batch_calls options (take (k * size) items)
    ++ imap (fun index item => (item, index)) (nth_batch items options k)
  = batch_calls options (take (k * size + size) items).
Proof.
  intros Hsize Hk. unfold nth_batch. rewrite <- take_take_drop.
  unfold batch_calls. rewrite imap_app. f_equal.
  apply imap_ext. intros index x Hx. simpl. f_equal.
  apply lookup_lt_Some in Hx. rewrite length_take in Hx.
  rewrite length_take, Nat.min_l by exact Hk.
  rewrite Nat.add_comm, Nat.Div0.mod_add. symmetry. apply Nat.mod_small. lia.
Qed.

(** Every step keeps the layout. *)
Lemma batch_layout_step choice m :
  1 <= batchSize options ->
  inv m -> layout m -> layout (step choice m).
Proof.
  intros Hbs. destruct m as [i v|i batch batchNumber r|res v|e v]; simpl;
    try (intros _ H; exact H).
  - intros _ (k & Hi & Hprev & Hb & He & Hc). unfold batch_begin.
    destruct (Z.ltb_spec i len) as [Hlt|Hge].
    + destruct (onBatchStart options _ _ _ _); [|exact I].
      destruct (pLimit _) as [limit|e] eqn:Hlimit; [|exact I].
      apply pLimit_resolved in Hlimit as [Hc1 ->].
      destruct (submit_all _ _ _ _) as [g v2] eqn:Hsub.
      apply submit_all_calls in Hsub as (new & Ht & Hnew & Hq & Hcalls).
      assert (Hbatch : slice items i (i + batchSize options) = nth_batch items options k).
      { rewrite slice_take_drop by lia. unfold nth_batch. do 2 f_equal. lia. }
      simpl in Ht. simpl. exists k, (Z.to_nat (concurrencyLimit options)).
      rewrite Ht, batches_begun_items, batches_ended_items, calls_app by exact Hnew.
      rewrite Hbatch in *.
      split; [exact Hi|]. split; [exact Hlt|]. split; [reflexivity|].
      split.
      { unfold js_floor_div, js_div_round. destruct (Z.eqb_spec (batchSize options) 0); [lia|].
        simpl. f_equal. rewrite Hi, Z.mul_comm, Z.div_mul by lia. reflexivity. }
      split.
      { simpl. rewrite Hb. unfold js_floor_div, js_div_round.
        destruct (Z.eqb_spec (batchSize options) 0); [lia|]. simpl.
        rewrite Hi, (Z.mul_comm (batchSize options)), Z.div_mul by lia.
        apply numbered_batches_next. }
      split; [exact He|]. split; [exact Hq|].
      simpl. rewrite rev_app_distr, Hc, Hcalls, rev_involutive. reflexivity.
    + simpl. exists k. split.
      { apply js_ceil_div_spec; [exact Hbs | lia | ].
        destruct Hprev as [->|Hprev]; [left; split; lia | right; exact Hprev]. }
      split; [exact Hb|]. split; [exact He|].
      rewrite Hc, take_ge by lia. reflexivity.
  - intros [Hinv Hceil] (k & n & Hi & Hlt & Hbatch & Hbn & Hb & He & Hq & Hc).
    destruct (active (r_gate r)) eqn:Hact.
    + destruct (einv_drained _ _ _ _ _ _ _ Hinv Hact) as (Hempty & _ & _).
      unfold batch_end. destruct (onStateUpdate options _ _); [|exact I].
      destruct (onBatchComplete options _ _ _ _ _ _); [|exact I].
      simpl. exists (S k). split; [lia|]. split; [right; lia|].
      split; [exact Hb|]. split.
      { rewrite He, Hbn, Hbatch. apply numbered_batches_next. }
      rewrite Hc. rewrite Hempty in Hq. symmetry in Hq. apply drop_nil_inv in Hq.
      rewrite (take_ge (imap _ batch)) by exact Hq. rewrite Hbatch.
      replace (Z.to_nat i) with (k * size)%nat by lia.
      replace (Z.to_nat (i + batchSize options)) with (k * size + size)%nat by lia.
      apply batch_calls_next; lia.
    + pose proof (gate_step_advance clock processFunction (onItemSuccess options)
                    (onItemError options) (onStateUpdate options)
                    (stateUpdateInterval options) (Some (batchNumber, totalBatches items options))
                    (Z.of_nat (length batch)) choice r) as Hp.
      destruct (gate_step _ _ _ _ _ _ _ _ _ _) as [r'|[e v']] eqn:Hstep; [|exact I].
      apply advance_item_events in Hp as (new & Ht & Hnew).
      apply gate_step_calls in Hstep as (m & Hq' & Hc').
      simpl. exists k, (n + m)%nat.
      rewrite Ht, batches_begun_items, batches_ended_items by exact Hnew.
      rewrite <- Ht, Hq', Hc', Hq, drop_drop, rev_app_distr, rev_involutive, Hc.
      rewrite <- app_assoc, take_take_drop. repeat split; assumption.
Qed.

Lemma run_layout s : 1 <= batchSize options -> layout (run s).
Proof.
  intros Hbs.
  enough (inv (run s) /\ layout (run s)) by tauto.
  unfold processBatches.
  apply (fold_left_invariant (fun m c => step c m) (fun m => inv m /\ layout m)).
  - intros m c [Hinv Hl]. split; [apply batch_inv_step, Hinv|].
    apply batch_layout_step; assumption.
  - split; [exact I|]. exists 0%nat. simpl. repeat split; try lia; reflexivity.
Qed.

(** The first [k] batches put together. *)
Lemma concat_nth_batches k :
  concat (nth_batch items options <$> seq 0 k)
  = take (k * Z.to_nat (batchSize options)) items.
Proof.
  induction k as [|k IH]; [reflexivity|].
  rewrite seq_S, fmap_app, concat_app, IH. simpl. rewrite app_nil_r.
  unfold nth_batch. rewrite take_take_drop. f_equal. lia.
Qed.

Lemma nth_batch_length k :
  1 <= batchSize options ->
  batchSize options * Z.of_nat k < Z.of_nat (length items) ->
  (1 <= length (nth_batch items options k) <= Z.to_nat (batchSize options))%nat.
Proof.
  intros Hbs Hk. unfold nth_batch. rewrite length_take, length_drop. nia.
Qed.

End BatchLayoutFacts.

Section BatchTrackedFacts.

Context {T R : Type}.

Variable clock : nat -> string.
Variable items : list T.
Variable processFunction : T -> nat -> State -> settled R.
Variable options : BatchOptions.t T R.
Import BatchOptions.

Local Abbreviation step := (batch_step clock items processFunction options).
Local Abbreviation run := (processBatches clock items processFunction options).
Local Abbreviation ok :=
  (tracked (num_or (initialState options !! "totalProcessed") 0)
     (num_or (initialState options !! "totalFailed") 0) (initialState options)).

Lemma batch_step_tracked choice m :
  batch_tracked options m -> batch_tracked options (step choice m).
Proof.
  unfold batch_tracked.
  destruct m as [i v|i batch batchNumber r|res v|e v]; simpl; try exact id.
  - intros Hv. unfold batch_begin. destruct (i <? _); [|exact Hv].
    match goal with |- context [log ?e v] =>
      assert (H1 : ok (log e v))
        by (apply tracked_log; [exact Hv | exact I | exact I | reflexivity..])
    end.
    destruct (onBatchStart options _ _ _ _); [|apply tracked_traced, H1].
    destruct (pLimit _) as [limit|e]; [|apply tracked_traced, H1].
    destruct (submit_all _ _ _ _) as [g v2] eqn:Hsub. simpl.
    eapply start_queued_tracked; eassumption.
  - intros Hv. destruct (active (r_gate r)) eqn:Hact.
    + unfold batch_end.
      pose proof (tracked_update _ _ _ _ (Some (batchNumber, totalBatches items options)) _ Hv
                    (carries_snapshot _ _ _ clock _ Hv)) as H1.
      destruct (onStateUpdate options _ _); [|apply tracked_traced, H1].
      match goal with |- context [log ?e (log ?e1 ?v1)] =>
        assert (H2 : ok (log e (log e1 v1)))
      end.
      { apply tracked_log; [exact H1 | | | reflexivity..].
        - simpl. unfold processed_after, failed_after. rewrite !count_cons. simpl.
          destruct Hv as [_ _ Hp Hf _]. split; [exact Hp | exact Hf].
        - simpl. apply carries_counters_cons; [reflexivity..|].
          exact (carries_snapshot _ _ _ clock _ Hv). }
      destruct (onBatchComplete options _ _ _ _ _ _);
        [exact H2 | apply tracked_traced, H2].
    + pose proof (gate_step_tracked _ _ _ clock processFunction (onItemSuccess options)
                    (onItemError options) (onStateUpdate options)
                    (stateUpdateInterval options) (Some (batchNumber, totalBatches items options))
                    (Z.of_nat (length batch)) choice r Hv) as Hstep.
      destruct (gate_step _ _ _ _ _ _ _ _ _ _) as [r'|[e v']]; exact Hstep.
Qed.

Lemma run_tracked s : batch_tracked options (run s).
Proof.
  unfold processBatches.
  apply (fold_left_invariant (fun m c => step c m)); [intros m c; apply batch_step_tracked|].
  split; simpl; try apply history_nil; unfold processed_after, failed_after;
    rewrite ?count_nil; try lia. reflexivity.
Qed.

(** At every point of a run, rejected or not. *)
Lemma run_traced s :
  traced (num_or (initialState options !! "totalProcessed") 0)
    (num_or (initialState options !! "totalFailed") 0) (initialState options)
    (m_vars (run s)).
Proof.
  pose proof (run_tracked s) as H. unfold batch_tracked in H.
  destruct (run s); simpl; first [apply tracked_traced, H | exact H].
Qed.

End BatchTrackedFacts.

Section BatchEndFacts.

Context {T R : Type}.

Variable clock : nat -> string.
Variable items : list T.
Variable processFunction : T -> nat -> State -> settled R.
Variable options : BatchOptions.t T R.
Import BatchOptions.

Local Abbreviation step := (batch_step clock items processFunction options).
Local Abbreviation run := (processBatches clock items processFunction options).

(** The end of a batch writes the counters into the state. *)
Lemma batch_step_synced choice m : loop_synced m -> loop_synced (step choice m).
Proof.
  destruct m as [i v|i batch batchNumber r|res v|e v]; simpl; try exact id.
  - intros Hv. unfold batch_begin. destruct (i <? _); [|exact Hv].
    destruct (onBatchStart options _ _ _ _); [|exact I].
    destruct (pLimit _) as [limit|e]; [|exact I].
    destruct (submit_all _ _ _ _) as [g v2]. exact I.
  - intros _. destruct (active (r_gate r)).
    + unfold batch_end. destruct (onStateUpdate options _ _); [|exact I].
      destruct (onBatchComplete options _ _ _ _ _ _); [|exact I].
      simpl. unfold snapshot. split.
      * rewrite !lookup_insert_ne by discriminate. rewrite lookup_insert_eq. apply num_or_VNum.
      * rewrite lookup_insert_ne by discriminate. rewrite lookup_insert_eq. apply num_or_VNum.
    + destruct (gate_step _ _ _ _ _ _ _ _ _ _) as [r'|[e v']]; exact I.
Qed.

Lemma run_synced s : loop_synced (run s).
Proof.
  unfold processBatches.
  apply (fold_left_invariant (fun m c => step c m)); [|split; reflexivity].
  intros m c. apply batch_step_synced.
Qed.

Lemma batch_step_after_batch choice m :
  after_batch items m -> after_batch items (step choice m).
Proof.
  destruct m as [i v|i batch batchNumber r|res v|e v]; simpl; try exact id.
  - intros Hv. unfold batch_begin. destruct (Z.ltb_spec i (Z.of_nat (length items))).
    + destruct (onBatchStart options _ _ _ _); [|exact I].
      destruct (pLimit _) as [limit|e]; [|exact I].
      destruct (submit_all _ _ _ _) as [g v2]. exact I.
    + simpl. destruct Hv as [[-> _]|Hv]; [left|right; exact Hv].
      destruct items; [reflexivity | simpl in *; lia].
  - intros _. destruct (active (r_gate r)).
    + unfold batch_end. destruct (onStateUpdate options _ _); [|exact I].
      destruct (onBatchComplete options _ _ _ _ _ _); [|exact I].
      simpl. right. eexists _, _, _, _. reflexivity.
    + destruct (gate_step _ _ _ _ _ _ _ _ _ _) as [r'|[e v']]; exact I.
Qed.

Lemma run_after_batch s : after_batch items (run s).
Proof.
  unfold processBatches.
  apply (fold_left_invariant (fun m c => step c m)); [|left; split; reflexivity].
  intros m c. apply batch_step_after_batch.
Qed.

End BatchEndFacts.

(** ** The steps of processPaginatedBatches *)

Section PageTrackedFacts.

Context {T R : Type}.

Variable clock : nat -> string.
Variable fetchPageFunction : Z -> State -> settled (PageData T).
Variable processFunction : T -> nat -> State -> settled R.
Variable options : PaginatedBatchOptions.t T R.
Import PaginatedBatchOptions.

Local Abbreviation pstep := (page_step clock fetchPageFunction processFunction options).
Local Abbreviation prun :=
  (processPaginatedBatches clock fetchPageFunction processFunction options).
Local Abbreviation p0 := (num_or (initialState options !! "totalProcessed") 0).
Local Abbreviation f0 := (num_or (initialState options !! "totalFailed") 0).
Local Abbreviation ok :=
  (tracked p0 f0 (currentState (pm_vars (processPaginatedBatches_init options)))).
Local Abbreviation carries := (carries_counters p0 f0).

Lemma page_items_step_tracked page total pageData (v : @vars T R) :
  ok v -> carries (currentState v) (trace v) ->
  page_tracked options (page_items_step processFunction options page total pageData v).
Proof.
  intros Hv Hcar. unfold page_items_step, page_tracked.
  destruct (page_items pageData) as [|item rest].
  - match goal with |- context [set_state ?s (log ?e v)] =>
      assert (H1 : ok (log e v))
        by (apply tracked_log; [exact Hv | exact I | exact I | reflexivity..]);
      assert (Hc1 : carries s (trace (log e v)))
        by (apply carries_counters_insert; [discriminate..|];
            apply carries_counters_cons; [reflexivity..|]; exact Hcar);
      pose proof (tracked_update _ _ _ s None _ H1 Hc1) as H2
    end.
    destruct (onStateUpdate options _); simpl; [|apply tracked_traced, H2].
    split; [exact H2|].
    apply carries_counters_cons; [reflexivity..|]. exact Hc1.
  - destruct (pLimit _) as [limit|e]; [|apply tracked_traced, Hv].
    destruct (submit_all _ _ _ _) as [g v2] eqn:Hsub. simpl.
    eapply start_queued_tracked; eassumption.
Qed.

Lemma page_step_tracked choice m :
  page_tracked options m -> page_tracked options (pstep choice m).
Proof.
  destruct m as [page total v|page total its r|res v|e v]; simpl; try exact id.
  - intros [Hv Hcar]. unfold page_begin.
    destruct (page <=? total); [|split; [exact Hv | exact Hcar]].
    match goal with |- context [log ?e v] =>
      assert (H1 : ok (log e v))
        by (apply tracked_log; [exact Hv | exact I | exact I | reflexivity..]);
      assert (Hc1 : carries (currentState v) (trace (log e v)))
        by (apply carries_counters_cons; [reflexivity..|]; exact Hcar)
    end.
    destruct (onPageStart options _ _ _); [|apply tracked_traced, H1].
    match goal with |- context [log ?e (log ?e1 v)] =>
      assert (H2 : ok (log e (log e1 v)))
        by (apply tracked_log; [exact H1 | exact I | exact I | reflexivity..]);
      assert (Hc2 : carries (currentState v) (trace (log e (log e1 v))))
        by (apply carries_counters_cons; [reflexivity..|]; exact Hc1)
    end.
    destruct (fetchPageFunction _ _) as [pageData|e]; [|apply tracked_traced, H2].
    destruct (totalPages_changed _ _) as [total'|];
      [|apply page_items_step_tracked; [exact H2 | exact Hc2]].
    match goal with |- context [set_state ?s ?v2] =>
      assert (Hc3 : carries s (trace v2))
        by (apply carries_counters_insert; [discriminate..|]; exact Hc2);
      pose proof (tracked_update _ _ _ s None _ H2 Hc3) as H3
    end.
    destruct (onStateUpdate options _); [|apply tracked_traced, H3].
    apply page_items_step_tracked; [exact H3|].
    apply carries_counters_cons; [reflexivity..|]. exact Hc3.
  - intros Hv. destruct (active (r_gate r)) eqn:Hact.
    + unfold page_end.
      match goal with |- context [set_state ?s (r_vars r)] =>
        assert (Hc1 : carries s (trace (r_vars r)))
          by (apply carries_counters_insert; [discriminate..|];
              exact (carries_snapshot _ _ _ clock _ Hv));
        pose proof (tracked_update _ _ _ s None _ Hv Hc1) as H1
      end.
      destruct (onStateUpdate options _); [|apply tracked_traced, H1].
      match goal with |- context [log ?e (log ?e1 ?v1)] =>
        assert (H2 : ok (log e (log e1 v1)))
      end.
      { apply tracked_log; [exact H1 | | | reflexivity..].
        - simpl. unfold processed_after. rewrite !count_cons. simpl.
          destruct Hv as [_ _ Hp _ _]. exact Hp.
        - simpl. apply carries_counters_cons; [reflexivity..|]. exact Hc1. }
      destruct (onPageComplete options _ _ _ _ _); [|apply tracked_traced, H2].
      split; [exact H2|].
      simpl. do 2 (apply carries_counters_cons; [reflexivity..|]). exact Hc1.
    + pose proof (gate_step_tracked _ _ _ clock processFunction (onItemSuccess options)
                    (onItemError options) (fun st _ => onStateUpdate options st)
                    (stateUpdateInterval options) None
                    (Z.of_nat (length its)) choice r Hv) as Hstep.
      destruct (gate_step _ _ _ _ _ _ _ _ _ _) as [r'|[e v']]; exact Hstep.
Qed.

Lemma prun_tracked s : page_tracked options (prun s).
Proof.
  unfold processPaginatedBatches.
  apply (fold_left_invariant (fun m c => pstep c m)); [intros m c; apply page_step_tracked|].
  unfold processPaginatedBatches_init. split.
  - split; simpl; try apply history_nil; unfold processed_after, failed_after;
      rewrite ?count_nil; try lia. reflexivity.
  - split; simpl; unfold processed_after, failed_after; rewrite count_nil, Z.add_0_r.
    + rewrite lookup_insert_ne by discriminate. apply lookup_insert_eq.
    + apply lookup_insert_eq.
Qed.

(** At every point of a run, rejected or not. *)
Lemma prun_traced s :
  traced p0 f0 (currentState (pm_vars (processPaginatedBatches_init options)))
    (pm_vars (prun s)).
Proof.
  pose proof (prun_tracked s) as H. unfold page_tracked in H.
  destruct (prun s); simpl; first [apply tracked_traced, H | exact H].
Qed.

End PageTrackedFacts.

Section PageCursorFacts.

Context {T R : Type}.

Variable clock : nat -> string.
Variable fetchPageFunction : Z -> State -> settled (PageData T).
Variable processFunction : T -> nat -> State -> settled R.
Variable options : PaginatedBatchOptions.t T R.
Import PaginatedBatchOptions.

Local Abbreviation pstep := (page_step clock fetchPageFunction processFunction options).
Local Abbreviation prun :=
  (processPaginatedBatches clock fetchPageFunction processFunction options).
Local Abbreviation start := (seeded_page options).

Lemma page_items_step_fetch_order page total pageData (v : @vars T R) :
  0 <= page + 1 - start ->
  pages_fetched (trace v) = rev (seqZ start (page + 1 - start)) ->
  fetch_order options (page_items_step processFunction options page total pageData v).
Proof.
  intros Hn Hf. unfold page_items_step. destruct (page_items pageData) as [|item rest].
  - destruct (onStateUpdate options _); simpl.
    + split; [lia | exact Hf].
    + exists (page + 1 - start). split; [lia | exact Hf].
  - destruct (pLimit _) as [limit|e]; [|exists (page + 1 - start); split; [lia | exact Hf]].
    destruct (submit_all _ _ _ _) as [g v2] eqn:Hsub.
    pose proof (start_queued_progress _ _ _ _ _ _ _ _ Hsub) as Hp.
    apply progress_item_events in Hp as (new & Ht & Hnew).
    simpl. rewrite Ht, pages_fetched_items by exact Hnew. split; [lia | exact Hf].
Qed.

(** Each iteration fetches the page at the cursor and moves on by one. *)
Lemma page_step_fetch_order choice m :
  fetch_order options m -> fetch_order options (pstep choice m).
Proof.
  destruct m as [page total v|page total its r|res v|e v]; simpl; try exact id.
  - intros [Hn Hf]. unfold page_begin.
    destruct (page <=? total); [|exists (page - start); split; [exact Hn | exact Hf]].
    destruct (onPageStart options _ _ _);
      [|exists (page - start); split; [exact Hn | exact Hf]].
    assert (Hf' : page :: pages_fetched (trace v) = rev (seqZ start (page + 1 - start))).
    { replace (page + 1 - start) with (page - start + 1) by lia.
      rewrite seqZ_next, rev_app_distr, Hf by exact Hn. simpl. f_equal. lia. }
    destruct (fetchPageFunction _ _) as [pageData|e];
      [|exists (page + 1 - start); split; [lia | exact Hf']].
    destruct (totalPages_changed _ _) as [total'|].
    + destruct (onStateUpdate options _);
        [|exists (page + 1 - start); split; [lia | exact Hf']].
      apply page_items_step_fetch_order; [lia | exact Hf'].
    + apply page_items_step_fetch_order; [lia | exact Hf'].
  - intros [Hn Hf]. destruct (active (r_gate r)) eqn:Hact.
    + unfold page_end. destruct (onStateUpdate options _);
        [|exists (page + 1 - start); split; [lia | exact Hf]].
      destruct (onPageComplete options _ _ _ _ _); simpl.
      * split; [lia | exact Hf].
      * exists (page + 1 - start). split; [lia | exact Hf].
    + pose proof (gate_step_advance clock processFunction (onItemSuccess options)
                    (onItemError options) (fun st _ => onStateUpdate options st)
                    (stateUpdateInterval options) None
                    (Z.of_nat (length its)) choice r) as Hp.
      destruct (gate_step _ _ _ _ _ _ _ _ _ _) as [r'|[e v']]; simpl;
        apply advance_item_events in Hp as (new & Ht & Hnew);
        rewrite Ht, pages_fetched_items by exact Hnew.
      * split; [lia | exact Hf].
      * exists (page + 1 - start). split; [lia | exact Hf].
Qed.

Lemma prun_fetch_order s : fetch_order options (prun s).
Proof.
  unfold processPaginatedBatches.
  apply (fold_left_invariant (fun m c => pstep c m)); [intros m c; apply page_step_fetch_order|].
  simpl. fold start. rewrite Z.sub_diag. split; [lia | reflexivity].
Qed.

Local Abbreviation with_items := (page_with_items fetchPageFunction).
Local Abbreviation completed := (completed_inv fetchPageFunction).

Lemma page_items_step_completed page total pageData (v : @vars T R) :
  (match page_items pageData with
   | [] => pages_completed (trace v)
   | _ :: _ => page :: pages_completed (trace v)
   end = omap with_items (trace v)) ->
  completed (page_items_step processFunction options page total pageData v).
Proof.
  intros Hc. unfold page_items_step. destruct (page_items pageData) as [|item rest].
  - destruct (onStateUpdate options _); simpl; [exact Hc | exact I].
  - destruct (pLimit _) as [limit|e]; [|exact I].
    destruct (submit_all _ _ _ _) as [g v2] eqn:Hsub.
    pose proof (start_queued_progress _ _ _ _ _ _ _ _ Hsub) as Hp.
    apply progress_item_events in Hp as (new & Ht & Hnew).
    simpl. rewrite Ht, pages_completed_items, page_with_items_items by exact Hnew.
    exact Hc.
Qed.

Lemma page_step_completed choice m : completed m -> completed (pstep choice m).
Proof.
  destruct m as [page total v|page total its r|res v|e v]; simpl; try exact id.
  - intros Hc. unfold page_begin. destruct (page <=? total); [|exact Hc].
    destruct (onPageStart options _ _ _); [|exact I].
    destruct (fetchPageFunction page (currentState (log _ v))) as [pageData|e] eqn:Hfetch;
      [|exact I].
    simpl in Hfetch.
    assert (Hc' : match page_items pageData with
                  | [] => pages_completed (trace v)
                  | _ :: _ => page :: pages_completed (trace v)
                  end = match page_items pageData with
                        | [] => omap with_items (trace v)
                        | _ :: _ => page :: omap with_items (trace v)
                        end)
      by (destruct (page_items pageData); rewrite Hc; reflexivity).
    destruct (totalPages_changed _ _) as [total'|].
    + destruct (onStateUpdate options _); [|exact I].
      apply page_items_step_completed. simpl. rewrite Hfetch, Hc'.
      destruct (page_items pageData); reflexivity.
    + apply page_items_step_completed. simpl. rewrite Hfetch, Hc'.
      destruct (page_items pageData); reflexivity.
  - intros Hc. destruct (active (r_gate r)) eqn:Hact.
    + unfold page_end. destruct (onStateUpdate options _); [|exact I].
      destruct (onPageComplete options _ _ _ _ _); [|exact I].
      simpl. etrans; [|exact Hc]. f_equal. lia.
    + pose proof (gate_step_advance clock processFunction (onItemSuccess options)
                    (onItemError options) (fun st _ => onStateUpdate options st)
                    (stateUpdateInterval options) None
                    (Z.of_nat (length its)) choice r) as Hp.
      destruct (gate_step _ _ _ _ _ _ _ _ _ _) as [r'|[e v']]; [|exact I].
      apply advance_item_events in Hp as (new & Ht & Hnew).
      simpl. rewrite Ht, pages_completed_items, page_with_items_items by exact Hnew.
      exact Hc.
Qed.

Lemma prun_completed s : completed (prun s).
Proof.
  unfold processPaginatedBatches.
  apply (fold_left_invariant (fun m c => pstep c m)); [intros m c; apply page_step_completed|].
  reflexivity.
Qed.

Local Abbreviation consistent := (@cursor_consistent T R).

Lemma page_items_step_cursor page total pageData (v : @vars T R) :
  total <> 0 ->
  currentState v !! "currentPage" = Some (VNum page) ->
  currentState v !! "totalPages" = Some (VNum total) ->
  Forall consistent (trace v) ->
  cursor_inv (page_items_step processFunction options page total pageData v).
Proof.
  intros Htotal Hpage Htp Hall. unfold page_items_step.
  destruct (page_items pageData) as [|item rest].
  - assert (Hall' : Forall consistent
              (EvStateUpdate (<["currentPage" := VNum (page + 1)]> (currentState v)) None
               :: EvConsoleLog page :: trace v))
      by (repeat (constructor; [exact I|]); exact Hall).
    destruct (onStateUpdate options _); simpl; [|exact Hall'].
    split; [exact Htotal|]. split; [apply lookup_insert_eq|].
    split; [|exact Hall']. rewrite lookup_insert_ne by discriminate. exact Htp.
  - destruct (pLimit _) as [limit|e]; [|exact Hall].
    destruct (submit_all _ _ _ _) as [g v2] eqn:Hsub.
    pose proof (start_queued_progress _ _ _ _ _ _ _ _ Hsub) as Hp.
    pose proof Hp as (_ & _ & _ & _ & _ & Hframe).
    apply progress_item_events in Hp as (new & Ht & Hnew).
    simpl. rewrite Ht, (Hframe _ currentPage_not_counter), (Hframe _ totalPages_not_counter).
    split; [exact Htotal|]. split; [exact Hpage|]. split; [exact Htp|].
    apply Forall_app. split; [|exact Hall].
    eapply Forall_impl; [exact Hnew | apply item_event_cursor].
Qed.

(** Every replacement of the state keeps or moves the cursor with the
    driver's variables. *)
Lemma page_step_cursor choice m : cursor_inv m -> cursor_inv (pstep choice m).
Proof.
  destruct m as [page total v|page total its r|res v|e v]; simpl; try exact id.
  - intros (Htotal & Hpage & Htp & Hall). unfold page_begin.
    destruct (Z.leb_spec page total).
    2:{ exists page, total. repeat split; assumption. }
    assert (H1 : Forall consistent (EvPageStart page total (currentState v) :: trace v))
      by (constructor; [split; assumption | exact Hall]).
    destruct (onPageStart options _ _ _); [|exact H1].
    assert (H2 : Forall consistent
              (EvFetchPage page (currentState v)
               :: EvPageStart page total (currentState v) :: trace v))
      by (constructor; [exact Hpage | exact H1]).
    destruct (fetchPageFunction _ _) as [pageData|e]; [|exact H2].
    destruct (totalPages_changed _ _) as [total'|] eqn:Hchanged.
    + apply totalPages_changed_ne_0 in Hchanged.
      assert (H3 : Forall consistent
                (EvStateUpdate (<["totalPages" := VNum total']> (currentState v)) None
                 :: EvFetchPage page (currentState v)
                 :: EvPageStart page total (currentState v) :: trace v))
        by (constructor; [exact I | exact H2]).
      destruct (onStateUpdate options _); [|exact H3].
      apply page_items_step_cursor; simpl;
        [exact Hchanged | | apply lookup_insert_eq | exact H3].
      rewrite lookup_insert_ne by discriminate. exact Hpage.
    + apply page_items_step_cursor; assumption.
  - intros (Htotal & Hpage & Htp & Hall). destruct (active (r_gate r)) eqn:Hact.
    + unfold page_end.
      assert (Htp' : (<["currentPage" := VNum (page + 1)]> (snapshot clock (r_vars r)))
                       !! "totalPages" = Some (VNum total)).
      { rewrite lookup_insert_ne by discriminate.
        rewrite (frame_snapshot clock (r_vars r) _ totalPages_not_counter).
        exact Htp. }
      assert (H1 : Forall consistent
                (EvStateUpdate (<["currentPage" := VNum (page + 1)]> (snapshot clock (r_vars r)))
                   None :: trace (r_vars r)))
        by (constructor; [exact I | exact Hall]).
      destruct (onStateUpdate options _); [|exact H1].
      assert (H2 : Forall consistent
                (EvPageComplete (page + 1 - 1) total (r_counter r) (totalProcessed (r_vars r))
                   (<["currentPage" := VNum (page + 1)]> (snapshot clock (r_vars r)))
                 :: EvStateUpdate (<["currentPage" := VNum (page + 1)]> (snapshot clock (r_vars r)))
                      None :: trace (r_vars r))).
      { constructor; [|exact H1]. simpl. split; [|exact Htp'].
        rewrite lookup_insert_eq. do 2 f_equal. lia. }
      destruct (onPageComplete options _ _ _ _ _); simpl; [|exact H2].
      split; [exact Htotal|]. split; [apply lookup_insert_eq|]. split; [exact Htp' | exact H2].
    + pose proof (gate_step_advance clock processFunction (onItemSuccess options)
                    (onItemError options) (fun st _ => onStateUpdate options st)
                    (stateUpdateInterval options) None
                    (Z.of_nat (length its)) choice r) as Hp.
      destruct (gate_step _ _ _ _ _ _ _ _ _ _) as [r'|[e v']]; simpl;
        pose proof Hp as (_ & _ & _ & Hframe);
        apply advance_item_events in Hp as (new & Ht & Hnew);
        assert (Hall' : Forall consistent (new ++ trace (r_vars r)))
          by (apply Forall_app; split;
              [eapply Forall_impl; [exact Hnew | apply item_event_cursor] | exact Hall]);
        rewrite Ht; [|exact Hall'].
      rewrite (Hframe _ currentPage_not_counter), (Hframe _ totalPages_not_counter).
      repeat split; assumption.
Qed.

Lemma prun_cursor s : cursor_inv (prun s).
Proof.
  unfold processPaginatedBatches.
  apply (fold_left_invariant (fun m c => pstep c m)); [intros m c; apply page_step_cursor|].
  simpl. split; [apply num_or_ne_0; discriminate|].
  split; [|split; [|constructor]].
  - rewrite !lookup_insert_ne by discriminate. apply lookup_insert_eq.
  - rewrite !lookup_insert_ne by discriminate. apply lookup_insert_eq.
Qed.

End PageCursorFacts.

Section PageCounterRun.

Context {T R : Type}.

Variable clock : nat -> string.
Variable fetchPageFunction : Z -> State -> settled (PageData T).
Variable processFunction : T -> nat -> State -> settled R.
Variable options : PaginatedBatchOptions.t T R.
Import PaginatedBatchOptions.

Local Abbreviation pstep := (page_step clock fetchPageFunction processFunction options).
Local Abbreviation prun :=
  (processPaginatedBatches clock fetchPageFunction processFunction options).
Local Abbreviation passed := (@page_count_passed T R).

Lemma page_items_step_counter page total pageData (v : @vars T R) :
  history passed (trace v) -> successes_on_page (trace v) = 0%nat ->
  page_counter_inv (page_items_step processFunction options page total pageData v).
Proof.
  intros Hh H0. unfold page_items_step. destruct (page_items pageData) as [|item rest].
  - assert (H2 : history passed
                   (EvStateUpdate (<["currentPage" := VNum (page + 1)]> (currentState v)) None
                    :: EvConsoleLog page :: trace v))
      by (repeat (apply history_cons; [|exact I]); exact Hh).
    destruct (onStateUpdate options _); (split; [exact H2 | exact I]).
  - destruct (pLimit _) as [limit|e]; [|split; [exact Hh | exact I]].
    destruct (submit_all _ _ _ _) as [g v2] eqn:Hsub.
    apply (start_queued_counted _ _ _ _ _ 0) in Hsub; [exact Hsub|].
    split; [exact Hh | rewrite H0; reflexivity].
Qed.

Lemma page_step_counter choice m : page_counter_inv m -> page_counter_inv (pstep choice m).
Proof.
  destruct m as [page total v|page total its r|res v|e v]; simpl; try exact id.
  - intros [Hh _]. unfold page_begin. destruct (page <=? total); [|split; [exact Hh | exact I]].
    assert (H1 : history passed (EvPageStart page total (currentState v) :: trace v))
      by (apply history_cons; [exact Hh | exact I]).
    destruct (onPageStart options _ _ _); [|split; [exact H1 | exact I]].
    assert (H2 : history passed
                   (EvFetchPage page (currentState v)
                    :: EvPageStart page total (currentState v) :: trace v))
      by (apply history_cons; [exact H1 | exact I]).
    destruct (fetchPageFunction _ _) as [pageData|e]; [|split; [exact H2 | exact I]].
    destruct (totalPages_changed _ _) as [total'|].
    + assert (H3 : history passed
                     (EvStateUpdate (<["totalPages" := VNum total']> (currentState v)) None
                      :: EvFetchPage page (currentState v)
                      :: EvPageStart page total (currentState v) :: trace v))
        by (apply history_cons; [exact H2 | exact I]).
      destruct (onStateUpdate options _); [|split; [exact H3 | exact I]].
      apply page_items_step_counter; [exact H3 | reflexivity].
    + apply page_items_step_counter; [exact H2 | reflexivity].
  - intros [Hh Hbp]. destruct (active (r_gate r)) eqn:Hact.
    + unfold page_end.
      assert (H1 : history passed
                (EvStateUpdate (<["currentPage" := VNum (page + 1)]> (snapshot clock (r_vars r)))
                   None :: trace (r_vars r)))
        by (apply history_cons; [exact Hh | exact I]).
      destruct (onStateUpdate options _); [|split; [exact H1 | exact I]].
      assert (H2 : history passed
                (EvPageComplete (page + 1 - 1) total (r_counter r) (totalProcessed (r_vars r))
                   (<["currentPage" := VNum (page + 1)]> (snapshot clock (r_vars r)))
                 :: EvStateUpdate (<["currentPage" := VNum (page + 1)]> (snapshot clock (r_vars r)))
                      None :: trace (r_vars r)))
        by (apply history_cons; [exact H1 | exact Hbp]).
      destruct (onPageComplete options _ _ _ _ _); (split; [exact H2 | exact I]).
    + pose proof (gate_step_counted clock processFunction (onItemSuccess options)
                    (onItemError options) (fun st _ => onStateUpdate options st)
                    (stateUpdateInterval options) None
                    (Z.of_nat (length its)) choice r (conj Hh Hbp)) as Hstep.
      destruct (gate_step _ _ _ _ _ _ _ _ _ _) as [r'|[e v']];
        [exact Hstep | split; [exact Hstep | exact I]].
Qed.

Lemma prun_counter s : page_counter_inv (prun s).
Proof.
  unfold processPaginatedBatches.
  apply (fold_left_invariant (fun m c => pstep c m)); [intros m c; apply page_step_counter|].
  split; [apply history_nil | exact I].
Qed.

End PageCounterRun.

(** ** Runs of processBatches *)

(** X1. With a positive [batchSize] every run of [processBatches]
    settles, whatever [processFunction] and the callbacks do and under
    every schedule: after [6 * items.length + 1] steps the driver has
    returned or is rejected, and nothing that is resumed later changes
    that. *)
Theorem X1_processBatches_settles :
  forall (T R : Type) (clock : nat -> string) (items : list T)
         (processFunction : T -> nat -> State -> settled R)
         (options : BatchOptions.t T R) (schedule more : list nat),
    1 <= BatchOptions.batchSize options ->
    (6 * length items + 1 <= length schedule)%nat ->
    (is_finished (processBatches clock items processFunction options schedule) \/
     is_aborted (processBatches clock items processFunction options schedule)) /\
    processBatches clock items processFunction options (schedule ++ more)
    = processBatches clock items processFunction options schedule.
Proof.
  intros T R clock items processFunction options schedule more Hbs Hlen.
  pose proof (run_terminates clock items processFunction options schedule Hbs Hlen) as Hend.
  split.
  - destruct (processBatches clock items processFunction options schedule);
      simpl in *; [lia | lia | left; exact I | right; exact I].
  - rewrite run_app. apply steps_fixed. exact Hend.
Qed.

(** One item whose [processFunction] rejects and whose [onItemError]
    throws: the run settles, rejected. *)
Lemma X1_witness :
  1 <= BatchOptions.batchSize throwing_onItemError /\
  (6 * length [7%nat] + 1 <= length (replicate 7 0%nat))%nat /\
  is_aborted (processBatches example_clock [7%nat] always_rejects throwing_onItemError
                (replicate 7 0%nat)) /\
  processBatches example_clock [7%nat] always_rejects throwing_onItemError
    (replicate 7 0%nat ++ [1%nat])
  = processBatches example_clock [7%nat] always_rejects throwing_onItemError
      (replicate 7 0%nat).
Proof.
  assert (Hbs : 1 <= BatchOptions.batchSize throwing_onItemError) by (simpl; lia).
  assert (Hlen : (6 * length [7%nat] + 1 <= length (replicate 7 0%nat))%nat) by (simpl; lia).
  split; [exact Hbs|]. split; [exact Hlen|].
  destruct (X1_processBatches_settles nat unit example_clock [7%nat] always_rejects
              throwing_onItemError (replicate 7 0%nat) [1%nat] Hbs Hlen) as [_ Hfix].
  split; [vm_compute; exact I | exact Hfix].
Defined.

(** X2. With a [batchSize] of 0 or less and an array that is not empty,
    no run of [processBatches] returns: the loop index never gets past 0,
    so the run goes on for ever unless a callback rejects it. *)
Theorem X2_nonpositive_batchSize_never_returns :
  forall (T R : Type) (clock : nat -> string) (items : list T)
         (processFunction : T -> nat -> State -> settled R)
         (options : BatchOptions.t T R) (schedule : list nat),
    BatchOptions.batchSize options <= 0 ->
    items <> [] ->
    match processBatches clock items processFunction options schedule with
    | LoopHead i _ | InBatch i _ _ _ => i <= 0
    | Finished _ _ => False
    | Aborted _ _ => True
    end.
Proof.
  intros T R clock items processFunction options schedule Hbs Hitems.
  pose proof (run_stuck clock items processFunction options schedule Hbs) as Hstuck.
  destruct (processBatches _ _ _ _ _); simpl in Hstuck; try exact Hstuck.
  contradiction.
Qed.

(** [{ batchSize: 0 }] on one item, forty steps into the run. *)
Lemma X2_witness :
  BatchOptions.batchSize zero_batchSize <= 0 /\ [7%nat] <> [] /\
  match processBatches example_clock [7%nat] always_succeeds zero_batchSize
          (replicate 40 0%nat) with
  | LoopHead i _ | InBatch i _ _ _ => i <= 0
  | Finished _ _ => False
  | Aborted _ _ => True
  end.
Proof.
  assert (Hbs : BatchOptions.batchSize zero_batchSize <= 0) by (simpl; lia).
  assert (Hitems : [7%nat] <> []) by discriminate.
  split; [exact Hbs|]. split; [exact Hitems|].
  exact (X2_nonpositive_batchSize_never_returns nat unit example_clock [7%nat] always_succeeds
           zero_batchSize (replicate 40 0%nat) Hbs Hitems).
Defined.

(** X3. With a positive [batchSize], a run of [processBatches] that
    returns has cut the array into [totalBatches = ceil(length / batchSize)]
    consecutive slices: [onBatchStart] and [onBatchComplete] were each
    called once per slice, in order, with the numbers 1, 2, ... and the
    same [totalBatches]; the slices put together are the array; none is
    empty and none is longer than [batchSize]. *)
Theorem X3_batches_partition_items :
  forall (T R : Type) (clock : nat -> string) (items : list T)
         (processFunction : T -> nat -> State -> settled R)
         (options : BatchOptions.t T R) (schedule : list nat) (res : BatchResult) (v : vars),
    1 <= BatchOptions.batchSize options ->
    processBatches clock items processFunction options schedule = Finished res v ->
    exists k : nat,
      totalBatches items options = JNum (Z.of_nat k) /\
      rev (batches_begun (trace v)) = numbered_batches items options k /\
      rev (batches_ended (trace v)) = numbered_batches items options k /\
      concat (nth_batch items options <$> seq 0 k) = items /\
      forall j, (j < k)%nat ->
        (1 <= length (nth_batch items options j)
         <= Z.to_nat (BatchOptions.batchSize options))%nat.
Proof.
  intros T R clock items processFunction options schedule res v Hbs Hrun.
  pose proof (run_layout clock items processFunction options schedule Hbs) as Hl.
  rewrite Hrun in Hl. destruct Hl as (k & Htotal & Hb & He & _).
  pose proof (js_ceil_div_bounds _ _ _ Hbs Htotal) as Hk.
  exists k. split; [exact Htotal|]. split; [exact Hb|]. split; [exact He|]. split.
  - rewrite concat_nth_batches. apply take_ge. nia.
  - intros j Hj. apply nth_batch_length; [exact Hbs | nia].
Qed.

(** Three items in batches of two: two batches. *)
Lemma X3_witness :
  1 <= BatchOptions.batchSize small_batches /\
  exists res v,
    processBatches example_clock [1; 2; 3]%nat always_succeeds small_batches
      (replicate 13 0%nat) = Finished res v /\
    exists k : nat,
      totalBatches [1; 2; 3]%nat small_batches = JNum (Z.of_nat k) /\
      rev (batches_begun (trace v)) = numbered_batches [1; 2; 3]%nat small_batches k /\
      rev (batches_ended (trace v)) = numbered_batches [1; 2; 3]%nat small_batches k /\
      concat (nth_batch [1; 2; 3]%nat small_batches <$> seq 0 k) = [1; 2; 3]%nat /\
      forall j, (j < k)%nat ->
        (1 <= length (nth_batch [1; 2; 3]%nat small_batches j)
         <= Z.to_nat (BatchOptions.batchSize small_batches))%nat.
Proof.
  assert (Hbs : 1 <= BatchOptions.batchSize small_batches) by (simpl; lia).
  assert (Hfin : is_finished (processBatches example_clock [1; 2; 3]%nat always_succeeds
                                small_batches (replicate 13 0%nat)))
    by (vm_compute; exact I).
  split; [exact Hbs|].
  destruct (processBatches example_clock [1; 2; 3]%nat always_succeeds small_batches
              (replicate 13 0%nat)) as [i v|i batch batchNumber r|res v|e v] eqn:Hrun;
    try (exfalso; exact Hfin).
  exists res, v. split; [reflexivity|].
  exact (X3_batches_partition_items nat unit example_clock [1; 2; 3]%nat always_succeeds
           small_batches (replicate 13 0%nat) res v Hbs Hrun).
Defined.

(** X4. With a positive [batchSize], in a run of [processBatches] that
    returns [processFunction] was called exactly once for every item, in
    the order of the array, whatever the schedule and the outcomes of the
    calls; its [index] argument is the position of the item inside its
    batch, not inside the array. *)
Theorem X4_every_item_processed_once_in_order :
  forall (T R : Type) (clock : nat -> string) (items : list T)
         (processFunction : T -> nat -> State -> settled R)
         (options : BatchOptions.t T R) (schedule : list nat) (res : BatchResult) (v : vars),
    1 <= BatchOptions.batchSize options ->
    processBatches clock items processFunction options schedule = Finished res v ->
    rev (calls (trace v)) =
      imap (fun position item =>
              (item, (position `mod` Z.to_nat (BatchOptions.batchSize options))%nat)) items /\
    (rev (calls (trace v))).*1 = items.
Proof.
  intros T R clock items processFunction options schedule res v Hbs Hrun.
  pose proof (run_layout clock items processFunction options schedule Hbs) as Hl.
  rewrite Hrun in Hl. destruct Hl as (k & _ & _ & _ & Hc).
  split; [exact Hc|]. rewrite Hc. apply fst_imap.
Qed.

(** Three items in batches of two, all rejected: the indexes are
    0, 1, 0. *)
Lemma X4_witness :
  1 <= BatchOptions.batchSize small_batches /\
  exists res v,
    processBatches example_clock [10; 20; 30]%nat always_rejects small_batches
      (replicate 13 0%nat) = Finished res v /\
    rev (calls (trace v)) = [(10, 0); (20, 1); (30, 0)]%nat.
Proof.
  assert (Hbs : 1 <= BatchOptions.batchSize small_batches) by (simpl; lia).
  assert (Hfin : is_finished (processBatches example_clock [10; 20; 30]%nat always_rejects
                                small_batches (replicate 13 0%nat)))
    by (vm_compute; exact I).
  split; [exact Hbs|].
  destruct (processBatches example_clock [10; 20; 30]%nat always_rejects small_batches
              (replicate 13 0%nat)) as [i v|i batch batchNumber r|res v|e v] eqn:Hrun;
    try (exfalso; exact Hfin).
  exists res, v. split; [reflexivity|].
  exact (proj1 (X4_every_item_processed_once_in_order nat unit example_clock [10; 20; 30]%nat
                  always_rejects small_batches (replicate 13 0%nat) res v Hbs Hrun)).
Defined.

(** X5. A run of [processBatches] is rejected only with what
    [onBatchStart], the [onStateUpdate] at the end of a batch,
    [onBatchComplete] or [onItemError] threw, with the error of a gate
    that cannot be made, or with what [String] threw on a caught value
    that is not an [Error]; the call that threw, or that gave the caught
    value, is in the trace.  So when these four callbacks complete,
    [concurrencyLimit] is at least 1 and every value that
    [processFunction] rejects with or [onItemSuccess] throws is an
    [Error] or has a string form, no run is rejected. *)
Theorem X5_run_rejected_only_by_a_callback :
  forall (T R : Type) (clock : nat -> string) (items : list T)
         (processFunction : T -> nat -> State -> settled R)
         (options : BatchOptions.t T R),
    (forall schedule e v,
       processBatches clock items processFunction options schedule = Aborted e v ->
       (exists n total batch st older,
          trace v = EvBatchStart n total batch st :: older /\
          (BatchOptions.onBatchStart options n total batch st = Throws e \/
           @pLimit T R (BatchOptions.concurrencyLimit options) = Rejected e)) \/
       (exists st info older,
          trace v = EvStateUpdate st info :: older /\
          BatchOptions.onStateUpdate options st info = Throws e) \/
       (exists n total batch np nf st older,
          trace v = EvBatchComplete n total batch np nf st :: older /\
          BatchOptions.onBatchComplete options n total batch np nf st = Throws e) \/
       (exists item error n st,
          EvItemError item error n st ∈ trace v /\
          BatchOptions.onItemError options item error n st = Throws e) \/
       (exists item caught,
          ((exists index st,
              EvProcess item index st ∈ trace v /\
              processFunction item index st = Rejected caught) \/
           (exists result n st,
              EvItemSuccess item result n st ∈ trace v /\
              BatchOptions.onItemSuccess options item result n st = Throws caught) \/
           (exists st info,
              EvStateUpdate st info ∈ trace v /\
              BatchOptions.onStateUpdate options st info = Throws caught)) /\
          instanceof_Error caught = false /\
          js_String caught = Rejected e)) /\
    (1 <= BatchOptions.concurrencyLimit options ->
     (forall n total batch st, BatchOptions.onBatchStart options n total batch st = Completes) ->
     (forall n total batch np nf st,
         BatchOptions.onBatchComplete options n total batch np nf st = Completes) ->
     (forall st info, BatchOptions.onStateUpdate options st info = Completes) ->
     (forall item error n st, BatchOptions.onItemError options item error n st = Completes) ->
     (forall item index st caught,
         processFunction item index st = Rejected caught -> convertible caught = true) ->
     (forall item result n st caught,
         BatchOptions.onItemSuccess options item result n st = Throws caught ->
         convertible caught = true) ->
     forall schedule,
       ~ is_aborted (processBatches clock items processFunction options schedule)).
Proof.
  intros T R clock items processFunction options.
  assert (Hcause : forall schedule e v,
            processBatches clock items processFunction options schedule = Aborted e v ->
            thrown_by processFunction options e (trace v)).
  { intros schedule e v Hrun.
    pose proof (run_logged clock items processFunction options schedule) as [_ Hc].
    rewrite Hrun in Hc. exact Hc. }
  split; [exact Hcause|].
  intros Hlimit Hstart Hcomplete Hupdate Herror Hprocess Hsuccess schedule Hab.
  destruct (processBatches clock items processFunction options schedule)
    as [i v|i batch batchNumber r|res v|e v] eqn:Hrun; try contradiction.
  destruct (Hcause _ _ _ Hrun)
    as [(n & total & batch & st & older & _ & [H|H])
       |[(st & info & older & _ & H)
        |[(n & total & batch & np & nf & st & older & _ & H)
         |[(item & error & n & st & _ & H)
          |(item & caught & Hin & Hinst & Hstr)]]]].
  - rewrite Hstart in H. discriminate.
  - unfold pLimit in H.
    destruct (Z.leb_spec 1 (BatchOptions.concurrencyLimit options)); [discriminate|lia].
  - rewrite Hupdate in H. discriminate.
  - rewrite Hcomplete in H. discriminate.
  - rewrite Herror in H. discriminate.
  - assert (Hconv : convertible caught = true).
    { destruct Hin as [(index & st & _ & H)|[(result & n & st & _ & H)|(st & info & _ & H)]].
      - exact (Hprocess _ _ _ _ H).
      - exact (Hsuccess _ _ _ _ _ H).
      - rewrite Hupdate in H. discriminate. }
    unfold convertible, as_Error in Hconv. rewrite Hinst, Hstr in Hconv. discriminate.
Qed.

(** An [onItemError] that throws rejects the run with what it threw; a
    rejection with an object that has no string form rejects the run with
    the [TypeError] of [String]; an [onItemSuccess] that throws a string
    does not reject it. *)
Lemma X5_witness :
  (exists e v,
     processBatches example_clock [7%nat] always_rejects throwing_onItemError
       (replicate 3 0%nat) = Aborted e v /\
     e = VStr "handler failed") /\
  (exists e v,
     processBatches example_clock [7%nat] rejects_bare_object small_batches
       (replicate 2 0%nat) = Aborted e v /\
     exists item caught,
       ((exists index st,
           EvProcess item index st ∈ trace v /\
           rejects_bare_object item index st = Rejected caught) \/
        (exists result n st,
           EvItemSuccess item result n st ∈ trace v /\
           BatchOptions.onItemSuccess small_batches item result n st = Throws caught) \/
        (exists st info,
           EvStateUpdate st info ∈ trace v /\
           BatchOptions.onStateUpdate small_batches st info = Throws caught)) /\
       instanceof_Error caught = false /\
       js_String caught = Rejected e) /\
  1 <= BatchOptions.concurrencyLimit throwing_onItemSuccess /\
  ~ is_aborted (processBatches example_clock [7%nat] always_succeeds throwing_onItemSuccess
                  (replicate 6 0%nat)).
Proof.
  destruct (X5_run_rejected_only_by_a_callback nat unit example_clock [7%nat] always_rejects
              throwing_onItemError) as [Hthrown _].
  destruct (X5_run_rejected_only_by_a_callback nat unit example_clock [7%nat]
              rejects_bare_object small_batches) as [Hbare _].
  destruct (X5_run_rejected_only_by_a_callback nat unit example_clock [7%nat] always_succeeds
              throwing_onItemSuccess) as [_ Hnever].
  assert (Hlimit : 1 <= BatchOptions.concurrencyLimit throwing_onItemSuccess) by (simpl; lia).
  split; [|split; [|split; [exact Hlimit|]]].
  - assert (Hab : match processBatches example_clock [7%nat] always_rejects
                          throwing_onItemError (replicate 3 0%nat) with
                  | Aborted e _ => e = VStr "handler failed"
                  | _ => False
                  end)
      by (vm_compute; reflexivity).
    specialize (Hthrown (replicate 3 0%nat)).
    destruct (processBatches example_clock [7%nat] always_rejects throwing_onItemError
                (replicate 3 0%nat)) as [i v|i batch batchNumber r|res v|e v];
      try (exfalso; exact Hab).
    exists e, v. split; [reflexivity|exact Hab].
  - assert (Hab : match processBatches example_clock [7%nat] rejects_bare_object
                          small_batches (replicate 2 0%nat) with
                  | Aborted e v =>
                      e = VError "TypeError" "Cannot convert object to primitive value" /\
                      Forall (fun ev => match ev with
                                        | EvItemError _ _ _ _ => False
                                        | _ => True
                                        end) (trace v)
                  | _ => False
                  end)
      by (vm_compute; split; [reflexivity|repeat constructor]).
    specialize (Hbare (replicate 2 0%nat)).
    destruct (processBatches example_clock [7%nat] rejects_bare_object small_batches
                (replicate 2 0%nat)) as [i v|i batch batchNumber r|res v|e v];
      try (exfalso; exact Hab).
    destruct Hab as [He Hquiet].
    exists e, v. split; [reflexivity|].
    destruct (Hbare e v eq_refl)
      as [(n & total & batch & st & older & _ & [H|H])
         |[(st & info & older & _ & H)
          |[(n & total & batch & np & nf & st & older & _ & H)
           |[(item & error & n & st & Hin & _)
            |Hconv]]]]; try discriminate.
    + exfalso. rewrite Forall_forall in Hquiet. exact (Hquiet _ Hin).
    + exact Hconv.
  - apply (Hnever Hlimit); try reflexivity.
    + intros item index st caught H. discriminate.
    + intros item result n st caught H. simpl in H. injection H as <-. reflexivity.
Defined.

(** X6. The state that [processBatches] returns carries the returned
    counters, read the way the driver reads its seeds.  So a later run
    seeded with it goes on counting where the first one stopped: on no
    items it returns the same result at once, calling nothing, and on
    [items'] (with a positive [batchSize], and [onItemSuccess] and
    [onStateUpdate] completing) its counters add up to those of the first
    run plus the number of [items']. *)
Theorem X6_returned_state_resumes_the_count :
  forall (T R : Type) (clock : nat -> string) (items : list T)
         (processFunction : T -> nat -> State -> settled R)
         (options : BatchOptions.t T R) (schedule : list nat) (res : BatchResult) (v : vars),
    processBatches clock items processFunction options schedule = Finished res v ->
    (num_or (state res !! "totalProcessed") 0 = processed res /\
     num_or (state res !! "totalFailed") 0 = failed res) /\
    forall (clock' : nat -> string) (items' : list T)
           (processFunction' : T -> nat -> State -> settled R)
           (options' : BatchOptions.t T R),
      BatchOptions.initialState options' = state res ->
      (items' = [] ->
       forall choice schedule',
         exists v',
           processBatches clock' items' processFunction' options' (choice :: schedule')
             = Finished res v' /\ trace v' = []) /\
      (1 <= BatchOptions.batchSize options' ->
       (forall item result n st,
           BatchOptions.onItemSuccess options' item result n st = Completes) ->
       (forall st info, BatchOptions.onStateUpdate options' st info = Completes) ->
       forall schedule' res' v',
         processBatches clock' items' processFunction' options' schedule' = Finished res' v' ->
         processed res' + failed res' =
           processed res + failed res + Z.of_nat (length items')).
Proof.
  intros T R clock items processFunction options schedule res v Hrun.
  pose proof (run_synced clock items processFunction options schedule) as Hsync.
  pose proof (run_result _ _ _ _ _ _ _ Hrun) as Hres.
  rewrite Hrun in Hsync. simpl in Hsync. subst res. simpl.
  split; [exact Hsync|]. destruct Hsync as [Hp Hf].
  intros clock' items' processFunction' options' Hinit. split.
  - intros Hempty choice schedule'.
    rewrite (run_empty clock' items' processFunction' options' choice schedule' Hempty).
    rewrite Hinit, Hp, Hf. eexists. split; reflexivity.
  - intros Hbs Hsuccess Hupdate schedule' res' v' Hrun'.
    pose proof (run_account clock' items' processFunction' options' Hsuccess Hupdate
                  schedule' Hbs) as Hacc.
    rewrite Hrun' in Hacc. destruct Hacc as [Hacc _].
    rewrite Hinit, Hp, Hf in Hacc. exact Hacc.
Qed.

(** Three failures, then two more items seeded with the returned
    state: 0 + 3 + 2. *)
Lemma X6_witness :
  exists res v,
    processBatches example_clock [1; 2; 3]%nat always_rejects small_batches
      (replicate 19 0%nat) = Finished res v /\
    BatchOptions.initialState (with_initialState (state res)) = state res /\
    1 <= BatchOptions.batchSize (with_initialState (state res)) /\
    (exists v',
       processBatches example_clock [] always_succeeds (with_initialState (state res))
         [0%nat] = Finished res v' /\ trace v' = []) /\
    exists res' v',
      processBatches example_clock [4; 5]%nat always_succeeds (with_initialState (state res))
        (replicate 13 0%nat) = Finished res' v' /\
      processed res' + failed res' = processed res + failed res + 2.
Proof.
  assert (Hfin : is_finished (processBatches example_clock [1; 2; 3]%nat always_rejects
                                small_batches (replicate 19 0%nat)))
    by (vm_compute; exact I).
  destruct (processBatches example_clock [1; 2; 3]%nat always_rejects small_batches
              (replicate 19 0%nat)) as [i v|i batch batchNumber r|res v|e v] eqn:Hrun;
    try (exfalso; exact Hfin).
  destruct (X6_returned_state_resumes_the_count nat unit example_clock [1; 2; 3]%nat
              always_rejects small_batches (replicate 19 0%nat) res v Hrun)
    as [_ Hnext].
  destruct (Hnext example_clock [] always_succeeds (with_initialState (state res)) eq_refl)
    as [Hempty _].
  destruct (Hnext example_clock [4; 5]%nat always_succeeds (with_initialState (state res))
              eq_refl) as [_ Hsum].
  assert (Hbs : 1 <= BatchOptions.batchSize (with_initialState (state res)))
    by (simpl; lia).
  exists res, v. split; [reflexivity|]. split; [reflexivity|]. split; [exact Hbs|].
  split; [exact (Hempty eq_refl 0%nat [])|].
  destruct (run_finishes example_clock [4; 5]%nat always_succeeds
              (with_initialState (state res)) (replicate 13 0%nat) Hbs
              ltac:(simpl; lia) ltac:(repeat split)
              ltac:(intros item index st error H; discriminate H)
              ltac:(simpl; lia)) as [v' Hrun'].
  eexists. exists v'. split; [exact Hrun'|].
  exact (Hsum Hbs ltac:(reflexivity) ltac:(reflexivity) _ _ _ Hrun').
Defined.

(** ** Runs of processPaginatedBatches *)

(** X7. [processPaginatedBatches] fetches the pages one after the
    other from [initialState.currentPage || initialPage] on: at every
    point of every run the pages fetched so far are the seeded page and
    its successors, none left out and none fetched twice, up to the page
    before the cursor (or the page at the cursor while its items are being
    processed). *)
Theorem X7_pages_fetched_consecutively :
  forall (T R : Type) (clock : nat -> string)
         (fetchPageFunction : Z -> State -> settled (PageData T))
         (processFunction : T -> nat -> State -> settled R)
         (options : PaginatedBatchOptions.t T R) (schedule : list nat),
    let run := processPaginatedBatches clock fetchPageFunction processFunction options in
    (exists n, 0 <= n /\
       rev (pages_fetched (trace (pm_vars (run schedule)))) = seqZ (seeded_page options) n) /\
    match run schedule with
    | PageLoop page _ v =>
        rev (pages_fetched (trace v)) = seqZ (seeded_page options) (page - seeded_page options)
    | InPage page _ _ r =>
        rev (pages_fetched (trace (r_vars r)))
        = seqZ (seeded_page options) (page + 1 - seeded_page options)
    | _ => True
    end.
Proof.
  intros T R clock fetchPageFunction processFunction options schedule run. subst run.
  pose proof (prun_fetch_order clock fetchPageFunction processFunction options schedule) as Hf.
  destruct (processPaginatedBatches _ _ _ _ _) as [page total v|page total its r|res v|e v];
    simpl in *.
  - destruct Hf as [Hn Hf]. rewrite Hf, rev_involutive. split; [eauto | reflexivity].
  - destruct Hf as [Hn Hf]. rewrite Hf, rev_involutive. split; [eauto | reflexivity].
  - destruct Hf as (n & Hn & Hf). rewrite Hf, rev_involutive. split; [eauto | exact I].
  - destruct Hf as (n & Hn & Hf). rewrite Hf, rev_involutive. split; [eauto | exact I].
Qed.

(** X8. In a run of [processPaginatedBatches] that returns,
    [onPageComplete] was called for exactly the fetched pages that had
    items, once each and in order; a page without items is passed over
    without it. *)
Theorem X8_onPageComplete_for_pages_with_items :
  forall (T R : Type) (clock : nat -> string)
         (fetchPageFunction : Z -> State -> settled (PageData T))
         (processFunction : T -> nat -> State -> settled R)
         (options : PaginatedBatchOptions.t T R) (schedule : list nat)
         (res : BatchResult) (v : vars),
    processPaginatedBatches clock fetchPageFunction processFunction options schedule
      = PFinished res v ->
    pages_completed (trace v) = omap (page_with_items fetchPageFunction) (trace v).
Proof.
  intros T R clock fetchPageFunction processFunction options schedule res v Hrun.
  pose proof (prun_completed clock fetchPageFunction processFunction options schedule) as Hc.
  rewrite Hrun in Hc. exact Hc.
Qed.

(** Pages 1, 2, 3 are fetched, page 2 is empty: [onPageComplete] is
    called for 1 and 3. *)
Lemma X8_witness :
  rev (pages_fetched
         (trace (pm_vars (processPaginatedBatches example_clock sparse_pages always_succeeds
                            paginated_defaults (replicate 12 0%nat))))) = [1; 2; 3] /\
  rev (pages_completed
         (trace (pm_vars (processPaginatedBatches example_clock sparse_pages always_succeeds
                            paginated_defaults (replicate 12 0%nat))))) = [1; 3] /\
  exists res v,
    processPaginatedBatches example_clock sparse_pages always_succeeds paginated_defaults
      (replicate 12 0%nat) = PFinished res v /\
    pages_completed (trace v) = omap (page_with_items sparse_pages) (trace v).
Proof.
  split; [vm_compute; reflexivity|]. split; [vm_compute; reflexivity|].
  assert (Hfin : is_pfinished (processPaginatedBatches example_clock sparse_pages
                                 always_succeeds paginated_defaults (replicate 12 0%nat)))
    by (vm_compute; exact I).
  destruct (processPaginatedBatches example_clock sparse_pages always_succeeds
              paginated_defaults (replicate 12 0%nat))
    as [page total v|page total its r|res v|e v] eqn:Hrun; try (exfalso; exact Hfin).
  exists res, v. split; [reflexivity|].
  exact (X8_onPageComplete_for_pages_with_items nat unit example_clock sparse_pages
           always_succeeds paginated_defaults (replicate 12 0%nat) res v Hrun).
Defined.

(** X9. The [pageProcessed] that [onPageComplete] is given is the
    number of [onItemSuccess] calls made since the page was fetched. *)
Theorem X9_onPageComplete_counts_the_page :
  forall (T R : Type) (clock : nat -> string)
         (fetchPageFunction : Z -> State -> settled (PageData T))
         (processFunction : T -> nat -> State -> settled R)
         (options : PaginatedBatchOptions.t T R) (schedule : list nat)
         new page total pageProcessed nprocessed st older,
    trace (pm_vars (processPaginatedBatches clock fetchPageFunction processFunction
                      options schedule))
      = new ++ EvPageComplete page total pageProcessed nprocessed st :: older ->
    pageProcessed = Z.of_nat (successes_on_page older).
Proof.
  intros T R clock fetchPageFunction processFunction options schedule
    new page total pageProcessed nprocessed st older Ht.
  pose proof (prun_counter clock fetchPageFunction processFunction options schedule)
    as [Hh _].
  exact (Hh _ _ _ Ht).
Qed.

(** The first page, of one item: the one [onPageComplete] call so far
    is given the successes since the fetch. *)
Lemma X9_witness :
  count is_page_complete
    (trace (pm_vars (processPaginatedBatches example_clock sparse_pages always_succeeds
                       paginated_defaults (replicate 5 0%nat)))) = 1%nat /\
  exists page total pageProcessed nprocessed st older,
    trace (pm_vars (processPaginatedBatches example_clock sparse_pages always_succeeds
                      paginated_defaults (replicate 5 0%nat)))
      = [] ++ EvPageComplete page total pageProcessed nprocessed st :: older /\
    pageProcessed = Z.of_nat (successes_on_page older).
Proof.
  split; [vm_compute; reflexivity|].
  assert (Hshape : match trace (pm_vars (processPaginatedBatches example_clock sparse_pages
                                           always_succeeds paginated_defaults
                                           (replicate 5 0%nat))) with
                   | EvPageComplete _ _ _ _ _ :: _ => True
                   | _ => False
                   end)
    by (vm_compute; exact I).
  pose proof (X9_onPageComplete_counts_the_page nat unit example_clock sparse_pages
                always_succeeds paginated_defaults (replicate 5 0%nat) []) as Hcount.
  destruct (trace (pm_vars (processPaginatedBatches example_clock sparse_pages
                              always_succeeds paginated_defaults (replicate 5 0%nat))))
    as [|[] older]; try (exfalso; exact Hshape).
  eexists _, _, _, _, _, older. split; [reflexivity|].
  exact (Hcount _ _ _ _ _ _ eq_refl).
Defined.

(** X10. The state of [processPaginatedBatches] carries its cursor:
    [onPageStart] and [fetchPage] are given a state whose [currentPage] is
    the page at hand (and, for [onPageStart], whose [totalPages] is the
    number passed), [onPageComplete] one whose [currentPage] is already
    the next page, and at every point of a run [currentPage] and
    [totalPages] in the state are the driver's own. *)
Theorem X10_callbacks_see_the_cursor :
  forall (T R : Type) (clock : nat -> string)
         (fetchPageFunction : Z -> State -> settled (PageData T))
         (processFunction : T -> nat -> State -> settled R)
         (options : PaginatedBatchOptions.t T R) (schedule : list nat),
    let run := processPaginatedBatches clock fetchPageFunction processFunction options in
    Forall cursor_consistent (trace (pm_vars (run schedule))) /\
    match run schedule with
    | PageLoop page total v =>
        currentState v !! "currentPage" = Some (VNum page) /\
        currentState v !! "totalPages" = Some (VNum total)
    | InPage page total _ r =>
        currentState (r_vars r) !! "currentPage" = Some (VNum page) /\
        currentState (r_vars r) !! "totalPages" = Some (VNum total)
    | _ => True
    end.
Proof.
  intros T R clock fetchPageFunction processFunction options schedule run. subst run.
  pose proof (prun_cursor clock fetchPageFunction processFunction options schedule) as Hc.
  destruct (processPaginatedBatches _ _ _ _ _) as [page total v|page total its r|res v|e v];
    simpl in *.
  - destruct Hc as (_ & Hp & Ht & Hall). split; [exact Hall | split; assumption].
  - destruct Hc as (_ & Hp & Ht & Hall). split; [exact Hall | split; assumption].
  - destruct Hc as (page & total & _ & _ & _ & _ & Hall). split; [exact Hall | exact I].
  - split; [exact Hc | exact I].
Qed.

(** X11. The state that [processPaginatedBatches] returns carries the
    returned counters and a [currentPage] beyond [totalPages].  Unless
    that [currentPage] is 0, a run seeded with the returned state returns
    the same result at once: it fetches nothing and calls nothing,
    whatever its other options. *)
Theorem X11_finished_pagination_resumes_to_itself :
  forall (T R : Type) (clock : nat -> string)
         (fetchPageFunction : Z -> State -> settled (PageData T))
         (processFunction : T -> nat -> State -> settled R)
         (options : PaginatedBatchOptions.t T R) (schedule : list nat)
         (res : BatchResult) (v : vars),
    processPaginatedBatches clock fetchPageFunction processFunction options schedule
      = PFinished res v ->
    (state res !! "totalProcessed" = Some (VNum (processed res)) /\
     state res !! "totalFailed" = Some (VNum (failed res)) /\
     exists page total,
       total < page /\
       state res !! "currentPage" = Some (VNum page) /\
       state res !! "totalPages" = Some (VNum total)) /\
    (state res !! "currentPage" <> Some (VNum 0) ->
     forall (clock' : nat -> string)
            (fetchPageFunction' : Z -> State -> settled (PageData T))
            (processFunction' : T -> nat -> State -> settled R)
            (options' : PaginatedBatchOptions.t T R) (choice : nat) (schedule' : list nat),
       PaginatedBatchOptions.initialState options' = state res ->
       exists v',
         processPaginatedBatches clock' fetchPageFunction' processFunction' options'
           (choice :: schedule') = PFinished res v' /\
         trace v' = []).
Proof.
  intros T R clock fetchPageFunction processFunction options schedule res v Hrun.
  pose proof (prun_cursor clock fetchPageFunction processFunction options schedule) as Hc.
  pose proof (prun_tracked clock fetchPageFunction processFunction options schedule) as Htr.
  pose proof (prun_result _ _ _ _ _ _ _ Hrun) as Hres.
  rewrite Hrun in Hc, Htr. destruct Htr as [[_ _ Hp Hf _] [Hcp Hcf]].
  simpl in Hc, Hp, Hf, Hcp, Hcf.
  destruct Hc as (page & total & Hgt & Htotal & Hpage & Htp & _).
  rewrite <- Hp in Hcp. rewrite <- Hf in Hcf. subst res. simpl.
  split; [split; [exact Hcp | split; [exact Hcf | eauto]]|].
  intros Hnz clock' fetchPageFunction' processFunction' options' choice schedule' Hinit.
  assert (Hp0 : page <> 0) by (intros ->; apply Hnz, Hpage).
  unfold processPaginatedBatches, processPaginatedBatches_init.
  rewrite Hinit, Hpage, Htp, Hcp, Hcf, !num_or_VNum.
  assert (Hpage' : num_or (Some (VNum page)) (PaginatedBatchOptions.initialPage options') = page)
    by (unfold num_or; destruct (Z.eqb_spec page 0); [contradiction | reflexivity]).
  assert (Htotal' : num_or (Some (VNum total)) 1 = total)
    by (unfold num_or; destruct (Z.eqb_spec total 0); [contradiction | reflexivity]).
  rewrite Hpage', Htotal'.
  rewrite (insert_id (currentState v) "currentPage") by exact Hpage.
  rewrite (insert_id (currentState v) "totalPages") by exact Htp.
  rewrite (insert_id (currentState v) "totalProcessed") by exact Hcp.
  rewrite (insert_id (currentState v) "totalFailed") by exact Hcf.
  simpl. unfold page_begin. destruct (Z.leb_spec page total); [lia|].
  rewrite psteps_finished. eexists. split; reflexivity.
Qed.

(** The state returned after three pages, given to a run whose fetch
    would fail: nothing is fetched. *)
Lemma X11_witness :
  exists res v,
    processPaginatedBatches example_clock sparse_pages always_succeeds paginated_defaults
      (replicate 12 0%nat) = PFinished res v /\
    state res !! "currentPage" <> Some (VNum 0) /\
    PaginatedBatchOptions.initialState (paginated_with_initialState (state res)) = state res /\
    exists v',
      processPaginatedBatches example_clock failing_fetch always_rejects
        (paginated_with_initialState (state res)) [0%nat] = PFinished res v' /\
      trace v' = [].
Proof.
  assert (Hfin : match processPaginatedBatches example_clock sparse_pages always_succeeds
                         paginated_defaults (replicate 12 0%nat) with
                 | PFinished res _ => state res !! "currentPage" <> Some (VNum 0)
                 | _ => False
                 end)
    by (vm_compute; discriminate).
  destruct (processPaginatedBatches example_clock sparse_pages always_succeeds
              paginated_defaults (replicate 12 0%nat))
    as [page total v|page total its r|res v|e v] eqn:Hrun; try (exfalso; exact Hfin).
  destruct (X11_finished_pagination_resumes_to_itself nat unit example_clock sparse_pages
              always_succeeds paginated_defaults (replicate 12 0%nat) res v Hrun)
    as [_ Hresume].
  exists res, v. split; [reflexivity|]. split; [exact Hfin|]. split; [reflexivity|].
  exact (Hresume Hfin example_clock failing_fetch always_rejects
           (paginated_with_initialState (state res)) 0%nat [] eq_refl).
Defined.

(** ** Runs of either driver *)

(** X12. In both drivers, for as long as no item task has been
    rejected, the counters handed to the callbacks are the running counts
    at the time of the call: [onItemSuccess] gets the seed of
    [totalProcessed] plus the number of [onItemSuccess] calls so far, this
    one included, [onItemError] the same for [totalFailed], and
    [onBatchComplete] and [onPageComplete] get the seeds plus the calls
    made before them.  The trace of a run ends where the run is rejected;
    [totalFailed] is then the seed plus the number of [onItemError]
    calls, or one more: the catch block counts before [String] can
    throw. *)
Theorem X12_callbacks_receive_running_counts :
  forall (T R : Type) (clock : nat -> string)
         (processFunction : T -> nat -> State -> settled R),
    (forall (items : list T) (options : BatchOptions.t T R) schedule,
       let p0 := num_or (BatchOptions.initialState options !! "totalProcessed") 0 in
       let f0 := num_or (BatchOptions.initialState options !! "totalFailed") 0 in
       (forall new e older,
          trace (m_vars (processBatches clock items processFunction options schedule))
            = new ++ e :: older ->
          counts_passed p0 f0 e older) /\
       (forall e v,
          processBatches clock items processFunction options schedule = Aborted e v ->
          totalProcessed v = processed_after p0 (trace v) /\
          failed_after f0 (trace v) <= totalFailed v <= failed_after f0 (trace v) + 1)) /\
    (forall (fetchPageFunction : Z -> State -> settled (PageData T))
            (options : PaginatedBatchOptions.t T R) schedule,
       let p0 := num_or (PaginatedBatchOptions.initialState options !! "totalProcessed") 0 in
       let f0 := num_or (PaginatedBatchOptions.initialState options !! "totalFailed") 0 in
       (forall new e older,
          trace (pm_vars (processPaginatedBatches clock fetchPageFunction processFunction
                            options schedule))
            = new ++ e :: older ->
          counts_passed p0 f0 e older) /\
       (forall e v,
          processPaginatedBatches clock fetchPageFunction processFunction options schedule
            = PAborted e v ->
          totalProcessed v = processed_after p0 (trace v) /\
          failed_after f0 (trace v) <= totalFailed v <= failed_after f0 (trace v) + 1)).
Proof.
  intros T R clock processFunction. split.
  - intros items options schedule p0 f0. subst p0 f0.
    pose proof (run_traced clock items processFunction options schedule) as [Hc _ Hp Hf _].
    split.
    + intros new e older Ht. exact (Hc _ _ _ Ht).
    + intros e v Hrun. rewrite Hrun in Hp, Hf. split; [exact Hp | exact Hf].
  - intros fetchPageFunction options schedule p0 f0. subst p0 f0.
    pose proof (prun_traced clock fetchPageFunction processFunction options schedule)
      as [Hc _ Hp Hf _].
    split.
    + intros new e older Ht. exact (Hc _ _ _ Ht).
    + intros e v Hrun. rewrite Hrun in Hp, Hf. split; [exact Hp | exact Hf].
Qed.

(** Seeded with 5 processed items, the first success is given 6.  A
    rejection with an object that has no string form is counted and not
    reported. *)
Lemma X12_witness :
  (trace (m_vars (processBatches example_clock [7%nat] always_succeeds
                    (with_initialState seeded_state) [0; 0]%nat))
     = [] ++ EvItemSuccess 7%nat tt 6 seeded_state
          :: [EvProcess 7%nat 0%nat seeded_state;
              EvBatchStart (JNum 1) (JNum 1) [7%nat] seeded_state] /\
   counts_passed
     (num_or (BatchOptions.initialState (with_initialState seeded_state) !! "totalProcessed") 0)
     (num_or (BatchOptions.initialState (with_initialState seeded_state) !! "totalFailed") 0)
     (EvItemSuccess 7%nat tt 6 seeded_state)
     [EvProcess 7%nat 0%nat seeded_state;
      EvBatchStart (JNum 1) (JNum 1) [7%nat] seeded_state]) /\
  exists e v,
    processBatches example_clock [7%nat] rejects_bare_object
      (with_initialState seeded_state) [0; 0]%nat = Aborted e v /\
    totalFailed v = 2 /\
    failed_after 1 (trace v) = 1 /\
    totalProcessed v
    = processed_after
        (num_or (BatchOptions.initialState (with_initialState seeded_state)
                   !! "totalProcessed") 0) (trace v) /\
    failed_after
      (num_or (BatchOptions.initialState (with_initialState seeded_state) !! "totalFailed") 0)
      (trace v) <= totalFailed v
    <= failed_after
         (num_or (BatchOptions.initialState (with_initialState seeded_state) !! "totalFailed") 0)
         (trace v) + 1.
Proof.
  destruct (X12_callbacks_receive_running_counts nat unit example_clock always_succeeds)
    as [Harray _].
  destruct (X12_callbacks_receive_running_counts nat unit example_clock rejects_bare_object)
    as [Hbare _].
  split.
  - assert (Ht : trace (m_vars (processBatches example_clock [7%nat] always_succeeds
                                  (with_initialState seeded_state) [0; 0]%nat))
                 = [] ++ EvItemSuccess 7%nat tt 6 seeded_state
                      :: [EvProcess 7%nat 0%nat seeded_state;
                          EvBatchStart (JNum 1) (JNum 1) [7%nat] seeded_state])
      by (vm_compute; reflexivity).
    split; [exact Ht|].
    destruct (Harray [7%nat] (with_initialState seeded_state) [0; 0]%nat) as [Hcalls _].
    exact (Hcalls _ _ _ Ht).
  - destruct (Hbare [7%nat] (with_initialState seeded_state) [0; 0]%nat) as [_ Hend].
    assert (Hab : match processBatches example_clock [7%nat] rejects_bare_object
                          (with_initialState seeded_state) [0; 0]%nat with
                  | Aborted _ v => totalFailed v = 2 /\ failed_after 1 (trace v) = 1
                  | _ => False
                  end)
      by (vm_compute; split; reflexivity).
    destruct (processBatches example_clock [7%nat] rejects_bare_object
                (with_initialState seeded_state) [0; 0]%nat)
      as [i v|i batch batchNumber r|res v|e v]; try (exfalso; exact Hab).
    exists e, v. split; [reflexivity|]. destruct Hab as [Hf Hcalls].
    split; [exact Hf|]. split; [exact Hcalls|]. exact (Hend e v eq_refl).
Defined.

(** X13. In both drivers, for as long as no item task has been
    rejected, every state handed to [onStateUpdate], [onBatchComplete] or
    [onPageComplete] is up to date: its [totalProcessed] and [totalFailed]
    fields are the seeds plus the numbers of [onItemSuccess] and
    [onItemError] calls made before.  The trace of a run ends where the
    run is rejected, and a run that is not rejected holds these very
    numbers in its counters. *)
Theorem X13_snapshots_carry_current_counters :
  forall (T R : Type) (clock : nat -> string)
         (processFunction : T -> nat -> State -> settled R),
    (forall (items : list T) (options : BatchOptions.t T R) schedule new e older,
       trace (m_vars (processBatches clock items processFunction options schedule))
         = new ++ e :: older ->
       snapshot_current
         (num_or (BatchOptions.initialState options !! "totalProcessed") 0)
         (num_or (BatchOptions.initialState options !! "totalFailed") 0) e older) /\
    (forall (fetchPageFunction : Z -> State -> settled (PageData T))
            (options : PaginatedBatchOptions.t T R) schedule new e older,
       trace (pm_vars (processPaginatedBatches clock fetchPageFunction processFunction
                         options schedule))
         = new ++ e :: older ->
       snapshot_current
         (num_or (PaginatedBatchOptions.initialState options !! "totalProcessed") 0)
         (num_or (PaginatedBatchOptions.initialState options !! "totalFailed") 0) e older) /\
    (forall (items : list T) (options : BatchOptions.t T R) schedule,
       let m := processBatches clock items processFunction options schedule in
       ~ is_aborted m ->
       totalProcessed (m_vars m)
       = processed_after (num_or (BatchOptions.initialState options !! "totalProcessed") 0)
           (trace (m_vars m)) /\
       totalFailed (m_vars m)
       = failed_after (num_or (BatchOptions.initialState options !! "totalFailed") 0)
           (trace (m_vars m))) /\
    (forall (fetchPageFunction : Z -> State -> settled (PageData T))
            (options : PaginatedBatchOptions.t T R) schedule,
       let m := processPaginatedBatches clock fetchPageFunction processFunction options
                  schedule in
       ~ is_paborted m ->
       totalProcessed (pm_vars m)
       = processed_after
           (num_or (PaginatedBatchOptions.initialState options !! "totalProcessed") 0)
           (trace (pm_vars m)) /\
       totalFailed (pm_vars m)
       = failed_after (num_or (PaginatedBatchOptions.initialState options !! "totalFailed") 0)
           (trace (pm_vars m))).
Proof.
  intros T R clock processFunction. split; [|split; [|split]].
  - intros items options schedule new e older Ht.
    pose proof (run_traced clock items processFunction options schedule) as [_ Hs _ _ _].
    exact (Hs _ _ _ Ht).
  - intros fetchPageFunction options schedule new e older Ht.
    pose proof (prun_traced clock fetchPageFunction processFunction options schedule)
      as [_ Hs _ _ _].
    exact (Hs _ _ _ Ht).
  - intros items options schedule m Hna. subst m.
    pose proof (run_tracked clock items processFunction options schedule) as Htr.
    unfold batch_tracked in Htr.
    destruct (processBatches clock items processFunction options schedule)
      as [i v|i batch batchNumber r|res v|e v]; simpl in *;
      [destruct Htr as [_ _ Hp Hf _]; split; assumption ..|contradiction].
  - intros fetchPageFunction options schedule m Hna. subst m.
    pose proof (prun_tracked clock fetchPageFunction processFunction options schedule) as Htr.
    unfold page_tracked in Htr.
    destruct (processPaginatedBatches clock fetchPageFunction processFunction options schedule)
      as [page total v|page total its r|res v|e v]; simpl in *.
    + destruct Htr as [[_ _ Hp Hf _] _]. split; assumption.
    + destruct Htr as [_ _ Hp Hf _]. split; assumption.
    + destruct Htr as [[_ _ Hp Hf _] _]. split; assumption.
    + contradiction.
Qed.

(** Seeded with 5 processed and 1 failed items, the snapshot taken
    after the first success carries 6 and 1. *)
Lemma X13_witness :
  let older : list (@event nat unit) :=
    [EvItemSuccess 7%nat tt 6 seeded_state;
     EvProcess 7%nat 0%nat seeded_state;
     EvBatchStart (JNum 1) (JNum 1) [7%nat] seeded_state] in
  let st := snapshot example_clock (Vars 6 1 seeded_state older) in
  trace (m_vars (processBatches example_clock [7%nat] always_succeeds
                   (with_initialState seeded_state) [0; 0; 0]%nat))
    = [] ++ EvStateUpdate st (Some (JNum 1, JNum 1)) :: older /\
  snapshot_current
    (num_or (BatchOptions.initialState (with_initialState seeded_state) !! "totalProcessed") 0)
    (num_or (BatchOptions.initialState (with_initialState seeded_state) !! "totalFailed") 0)
    (EvStateUpdate st (Some (JNum 1, JNum 1))) older.
Proof.
  intros older st.
  assert (Ht : trace (m_vars (processBatches example_clock [7%nat] always_succeeds
                                (with_initialState seeded_state) [0; 0; 0]%nat))
               = [] ++ EvStateUpdate st (Some (JNum 1, JNum 1)) :: older)
    by (vm_compute; reflexivity).
  split; [exact Ht|].
  destruct (X13_snapshots_carry_current_counters nat unit example_clock always_succeeds)
    as [Harray _].
  exact (Harray [7%nat] (with_initialState seeded_state) [0; 0; 0]%nat _ _ _ Ht).
Defined.

(** X14. [onStateUpdate] sees every change of the state: at every point
    of a run of either driver the current state is the one last handed to
    [onStateUpdate], or the first state when there was no call yet.  A run
    of [processBatches] on an array that is not empty ends with
    [onStateUpdate] and [onBatchComplete] being given the state and the
    counters that it returns. *)
Theorem X14_current_state_is_last_update :
  forall (T R : Type) (clock : nat -> string)
         (processFunction : T -> nat -> State -> settled R),
    (forall (items : list T) (options : BatchOptions.t T R),
       (forall schedule,
          currentState (m_vars (processBatches clock items processFunction options schedule))
          = default (BatchOptions.initialState options)
              (last_update
                 (trace (m_vars (processBatches clock items processFunction options
                                   schedule))))) /\
       (forall schedule res v,
          processBatches clock items processFunction options schedule = Finished res v ->
          items <> [] ->
          exists n total batch older,
            trace v = EvBatchComplete n total batch (processed res) (failed res) (state res)
                      :: EvStateUpdate (state res) (Some (n, total)) :: older)) /\
    (forall (fetchPageFunction : Z -> State -> settled (PageData T))
            (options : PaginatedBatchOptions.t T R) schedule,
       currentState (pm_vars (processPaginatedBatches clock fetchPageFunction processFunction
                                options schedule))
       = default (currentState (pm_vars (processPaginatedBatches_init options)))
           (last_update
              (trace (pm_vars (processPaginatedBatches clock fetchPageFunction
                                 processFunction options schedule))))).
Proof.
  intros T R clock processFunction. split.
  - intros items options. split.
    + intros schedule.
      pose proof (run_traced clock items processFunction options schedule) as [_ _ _ _ Hst].
      exact Hst.
    + intros schedule res v Hrun Hitems.
      pose proof (run_after_batch clock items processFunction options schedule) as Hafter.
      pose proof (run_result _ _ _ _ _ _ _ Hrun) as Hres.
      rewrite Hrun in Hafter. destruct Hafter as [Hnil|Hafter]; [contradiction|].
      subst res. exact Hafter.
  - intros fetchPageFunction options schedule.
    pose proof (prun_traced clock fetchPageFunction processFunction options schedule)
      as [_ _ _ _ Hst].
    exact Hst.
Qed.

(** One item: the run returns what the last two calls were given. *)
Lemma X14_witness :
  [7%nat] <> [] /\
  exists res v n total batch older,
    processBatches example_clock [7%nat] always_succeeds small_batches (replicate 6 0%nat)
      = Finished res v /\
    trace v = EvBatchComplete n total batch (processed res) (failed res) (state res)
              :: EvStateUpdate (state res) (Some (n, total)) :: older.
Proof.
  assert (Hitems : [7%nat] <> []) by discriminate.
  split; [exact Hitems|].
  destruct (X14_current_state_is_last_update nat unit example_clock always_succeeds)
    as [Harray _].
  destruct (Harray [7%nat] small_batches) as [_ Hlast].
  assert (Hfin : is_finished (processBatches example_clock [7%nat] always_succeeds
                                small_batches (replicate 6 0%nat)))
    by (vm_compute; exact I).
  specialize (Hlast (replicate 6 0%nat)).
  destruct (processBatches example_clock [7%nat] always_succeeds small_batches
              (replicate 6 0%nat)) as [i v|i batch batchNumber r|res v|e v];
    try (exfalso; exact Hfin).
  destruct (Hlast res v eq_refl Hitems) as (n & total & batch & older & Ht).
  exists res, v, n, total, batch, older. split; [reflexivity | exact Ht].
Defined.

(** ** Runs of process *)

Section ProcessFacts.

Context {T R : Type}.
Variable saveState : State -> completion.
Variable save : SaveOptions.t.
Variable loaded : State.
Variable batchOptions : BatchOptions.t T R.

(** When every write succeeds, the callbacks that [process] passes on
    complete whenever the caller's do. *)
Lemma saving_callbacks_complete :
  (forall st, saveState st = Completes) ->
  (forall item result n st,
      BatchOptions.onItemSuccess batchOptions item result n st = Completes) ->
  (forall st info, BatchOptions.onStateUpdate batchOptions st info = Completes) ->
  (forall item result n st,
      BatchOptions.onItemSuccess (process_options saveState save loaded batchOptions)
        item result n st = Completes) /\
  (forall st info,
      BatchOptions.onStateUpdate (process_options saveState save loaded batchOptions)
        st info = Completes).
Proof.
  intros Hsave Hsuccess Hupdate. split.
  - intros item result n st. simpl. unfold saving_onItemSuccess.
    rewrite Hsave, Hsuccess. destruct (_ && _); reflexivity.
  - intros st info. simpl. unfold saving_onStateUpdate.
    rewrite Hsave, Hupdate.
    destruct (SaveOptions.saveStateOnBatch save), info; reflexivity.
Qed.

End ProcessFacts.

(** X15. [process] counts from the state it loaded, not from
    [batchOptions.initialState]: on an empty array it returns the loaded
    counters and the loaded state; for as long as no item task has been
    rejected, [onItemSuccess] and [onItemError] are given the loaded
    counter plus the number of their calls so far; and when every write
    succeeds and the caller's [onItemSuccess] and [onStateUpdate]
    complete, a run that returns (with a positive [batchSize]) has counted
    every item once on top of the loaded counters. *)
Theorem X15_process_counts_from_loaded_state :
  forall (T R : Type) (clock : nat -> string)
         (processFunction : T -> nat -> State -> settled R)
         (saveState : State -> completion) (save : SaveOptions.t)
         (loaded : State) (items : list T) (batchOptions : BatchOptions.t T R),
    let run := process clock processFunction saveState save loaded items batchOptions in
    let p0 := num_or (loaded !! "totalProcessed") 0 in
    let f0 := num_or (loaded !! "totalFailed") 0 in
    (items = [] ->
     forall choice schedule,
       exists v,
         run (choice :: schedule)
         = Finished {| processed := p0; failed := f0; state := loaded |} v /\
         trace v = []) /\
    (forall schedule new e older,
       trace (m_vars (run schedule)) = new ++ e :: older ->
       match e with
       | EvItemSuccess _ _ n _ => n = p0 + Z.of_nat (count is_item_success older) + 1
       | EvItemError _ _ n _ => n = f0 + Z.of_nat (count is_item_error older) + 1
       | _ => True
       end) /\
    (1 <= BatchOptions.batchSize batchOptions ->
     (forall st, saveState st = Completes) ->
     (forall item result n st,
         BatchOptions.onItemSuccess batchOptions item result n st = Completes) ->
     (forall st info, BatchOptions.onStateUpdate batchOptions st info = Completes) ->
     forall schedule res v,
       run schedule = Finished res v ->
       processed res + failed res = p0 + f0 + Z.of_nat (length items)).
Proof.
  intros T R clock processFunction saveState save loaded items batchOptions run p0 f0.
  subst run p0 f0. unfold process. split; [|split].
  - intros Hitems choice schedule.
    rewrite (run_empty clock items processFunction
               (process_options saveState save loaded batchOptions) choice schedule Hitems).
    eexists. split; reflexivity.
  - intros schedule new e older Ht.
    pose proof (run_traced clock items processFunction
                  (process_options saveState save loaded batchOptions) schedule)
      as [Hc _ _ _ _].
    specialize (Hc _ _ _ Ht). destruct e; try exact I; exact Hc.
  - intros Hbs Hsave Hsuccess Hupdate schedule res v Hrun.
    destruct (saving_callbacks_complete saveState save loaded batchOptions
                Hsave Hsuccess Hupdate) as [Hsuccess' Hupdate'].
    pose proof (run_account clock items processFunction
                  (process_options saveState save loaded batchOptions)
                  Hsuccess' Hupdate' schedule Hbs) as Hacc.
    rewrite Hrun in Hacc. destruct Hacc as [Hacc _]. exact Hacc.
Qed.

(** Loaded with 5 processed and 1 failed, with caller's options that
    carry no state: nothing to do gives 5 and 1 back, and two items give
    5 + 1 + 2. *)
Lemma X15_witness :
  (exists v,
     process example_clock always_succeeds saveState_succeeds SaveOptions.defaults
       seeded_state [] small_batches [0%nat]
     = Finished {| processed := num_or (seeded_state !! "totalProcessed") 0;
                   failed := num_or (seeded_state !! "totalFailed") 0;
                   state := seeded_state |} v /\
     trace v = []) /\
  num_or (seeded_state !! "totalProcessed") 0 = 5 /\
  num_or (seeded_state !! "totalFailed") 0 = 1 /\
  1 <= BatchOptions.batchSize small_batches /\
  (forall st, saveState_succeeds st = Completes) /\
  exists res v,
    process example_clock always_succeeds saveState_succeeds SaveOptions.defaults
      seeded_state [1; 2]%nat small_batches (replicate 8 0%nat) = Finished res v /\
    processed res + failed res
    = num_or (seeded_state !! "totalProcessed") 0 + num_or (seeded_state !! "totalFailed") 0
      + Z.of_nat (length [1; 2]%nat).
Proof.
  assert (Hbs : 1 <= BatchOptions.batchSize small_batches) by (simpl; lia).
  destruct (X15_process_counts_from_loaded_state nat unit example_clock always_succeeds
              saveState_succeeds SaveOptions.defaults seeded_state [] small_batches)
    as [Hempty _].
  destruct (X15_process_counts_from_loaded_state nat unit example_clock always_succeeds
              saveState_succeeds SaveOptions.defaults seeded_state [1; 2]%nat small_batches)
    as (_ & _ & Hsum).
  split; [exact (Hempty eq_refl 0%nat [])|].
  split; [reflexivity|]. split; [reflexivity|].
  split; [exact Hbs|]. split; [reflexivity|].
  specialize (Hsum Hbs ltac:(reflexivity) ltac:(reflexivity) ltac:(reflexivity)
                (replicate 8 0%nat)).
  assert (Hfin : is_finished (process example_clock always_succeeds saveState_succeeds
                                SaveOptions.defaults seeded_state [1; 2]%nat small_batches
                                (replicate 8 0%nat)))
    by (vm_compute; exact I).
  destruct (process example_clock always_succeeds saveState_succeeds SaveOptions.defaults
              seeded_state [1; 2]%nat small_batches (replicate 8 0%nat))
    as [i v|i batch batchNumber r|res v|e v]; try (exfalso; exact Hfin).
  exists res, v. split; [reflexivity|]. exact (Hsum res v eq_refl).
Defined.

(** X16. With [saveStateOnBatch] set, a [process] that returns after
    an array that is not empty has handed the returned state to
    [saveState] last.  A later [process] that loads this state goes on
    counting from the returned counters: when its writes succeed and its
    [onItemSuccess] and [onStateUpdate] complete, its result adds up to
    the first result plus the number of its own items. *)
Theorem X16_last_save_is_returned_state :
  forall (T R : Type) (clock : nat -> string)
         (processFunction : T -> nat -> State -> settled R)
         (saveState : State -> completion) (save : SaveOptions.t)
         (loaded : State) (items : list T) (batchOptions : BatchOptions.t T R)
         (schedule : list nat) (res : BatchResult) (v : vars),
    SaveOptions.saveStateOnBatch save = true ->
    items <> [] ->
    process clock processFunction saveState save loaded items batchOptions schedule
      = Finished res v ->
    head (saves save (trace v)) = Some (state res) /\
    forall (clock' : nat -> string) (processFunction' : T -> nat -> State -> settled R)
           (saveState' : State -> completion) (save' : SaveOptions.t)
           (items' : list T) (batchOptions' : BatchOptions.t T R)
           (schedule' : list nat) (res' : BatchResult) (v' : vars),
      1 <= BatchOptions.batchSize batchOptions' ->
      (forall st, saveState' st = Completes) ->
      (forall item result n st,
          BatchOptions.onItemSuccess batchOptions' item result n st = Completes) ->
      (forall st info, BatchOptions.onStateUpdate batchOptions' st info = Completes) ->
      process clock' processFunction' saveState' save' (state res) items' batchOptions' schedule'
        = Finished res' v' ->
      processed res' + failed res' = processed res + failed res + Z.of_nat (length items').
Proof.
  intros T R clock processFunction saveState save loaded items batchOptions schedule res v
    Hon Hitems Hrun. unfold process in Hrun.
  pose proof (run_after_batch clock items processFunction
                (process_options saveState save loaded batchOptions) schedule) as Hafter.
  pose proof (run_synced clock items processFunction
                (process_options saveState save loaded batchOptions) schedule) as Hsync.
  pose proof (run_result _ _ _ _ _ _ _ Hrun) as Hres.
  rewrite Hrun in Hafter, Hsync. simpl in Hafter, Hsync.
  destruct Hafter as [Hnil|(n & total & batch & older & Ht)]; [contradiction|].
  subst res. simpl. split.
  - rewrite Ht. unfold saves. simpl. rewrite Hon. reflexivity.
  - intros clock' processFunction' saveState' save' items' batchOptions' schedule' res' v'
      Hbs Hsave Hsuccess Hupdate Hrun'. unfold process in Hrun'.
    destruct (saving_callbacks_complete saveState' save' (currentState v) batchOptions'
                Hsave Hsuccess Hupdate) as [Hsuccess' Hupdate'].
    pose proof (run_account clock' items' processFunction'
                  (process_options saveState' save' (currentState v) batchOptions')
                  Hsuccess' Hupdate' schedule' Hbs) as Hacc.
    rewrite Hrun' in Hacc. destruct Hacc as [Hacc _]. simpl in Hacc.
    destruct Hsync as [Hp Hf]. rewrite Hp, Hf in Hacc. exact Hacc.
Qed.

(** Two items with the default save options: the state saved last is
    the one returned. *)
Lemma X16_witness :
  SaveOptions.saveStateOnBatch SaveOptions.defaults = true /\
  [1; 2]%nat <> [] /\
  exists res v,
    process example_clock always_succeeds saveState_succeeds SaveOptions.defaults
      seeded_state [1; 2]%nat small_batches (replicate 8 0%nat) = Finished res v /\
    head (saves SaveOptions.defaults (trace v)) = Some (state res).
Proof.
  assert (Hitems : [1; 2]%nat <> []) by discriminate.
  split; [reflexivity|]. split; [exact Hitems|].
  assert (Hfin : is_finished (process example_clock always_succeeds saveState_succeeds
                                SaveOptions.defaults seeded_state [1; 2]%nat small_batches
                                (replicate 8 0%nat)))
    by (vm_compute; exact I).
  destruct (process example_clock always_succeeds saveState_succeeds SaveOptions.defaults
              seeded_state [1; 2]%nat small_batches (replicate 8 0%nat))
    as [i v|i batch batchNumber r|res v|e v] eqn:Hrun; try (exfalso; exact Hfin).
  exists res, v. split; [reflexivity|].
  exact (proj1 (X16_last_save_is_returned_state nat unit example_clock always_succeeds
                  saveState_succeeds SaveOptions.defaults seeded_state [1; 2]%nat
                  small_batches (replicate 8 0%nat) res v eq_refl Hitems Hrun)).
Defined.

(** ** A tracker and its state *)

Section StateTrackerFacts.

Implicit Types (tracker : StateTracker.t) (us : list StateTracker.update).

(** A field that [updateProgress] does not write comes from
    [additionalData] when it is there, else from the state before. *)
Lemma updateProgress_lookup tracker processed failed additionalData lastUpdated k :
  k ∉ counter_fields ->
  StateTracker.state
    (fst (StateTracker.updateProgress tracker processed failed additionalData lastUpdated)) !! k
  = match additionalData !! k with
    | Some x => Some x
    | None => StateTracker.state tracker !! k
    end.
Proof.
  intros Hk. unfold StateTracker.updateProgress. simpl.
  assert (Hne : forall k', k' ∈ counter_fields -> k' <> k) by (intros k' Hin ->; contradiction).
  rewrite !lookup_insert_ne by (apply Hne; unfold counter_fields; set_solver).
  rewrite lookup_union.
  destruct (additionalData !! k), (StateTracker.state tracker !! k); reflexivity.
Qed.

Lemma updates_snoc tracker us u :
  StateTracker.updates tracker (us ++ [u]) =
    fst (StateTracker.updateProgress (StateTracker.updates tracker us)
           (StateTracker.u_processed u) (StateTracker.u_failed u)
           (StateTracker.u_additionalData u) (StateTracker.u_lastUpdated u)).
Proof. unfold StateTracker.updates. rewrite fold_left_app. reflexivity. Qed.

Lemma updates_untouched tracker us k :
  k ∉ counter_fields ->
  Forall (fun u => StateTracker.u_additionalData u !! k = None) us ->
  StateTracker.state (StateTracker.updates tracker us) !! k = StateTracker.state tracker !! k.
Proof.
  intros Hk. induction us as [|u us IH] using rev_ind; intros Hall; [reflexivity|].
  apply Forall_app in Hall as [Hus Hu]. rewrite Forall_singleton in Hu.
  rewrite updates_snoc, updateProgress_lookup, Hu by exact Hk. apply IH, Hus.
Qed.

Lemma or_else_same o d : or_else (Some (or_else o d)) d = or_else o d.
Proof.
  unfold or_else. destruct o as [x|]; [|destruct (truthy d); reflexivity].
  destruct (truthy x) eqn:Hx; [rewrite Hx; reflexivity | destruct (truthy d); reflexivity].
Qed.

Lemma or_else_truthy o d : truthy d = true -> truthy (or_else o d) = true.
Proof.
  intros Hd. unfold or_else. destruct o as [x|]; [|exact Hd].
  destruct (truthy x) eqn:Hx; assumption.
Qed.

Lemma or_else_kept x d : truthy x = true -> or_else (Some x) d = x.
Proof. intros Hx. unfold or_else. rewrite Hx. reflexivity. Qed.

Lemma or_else_VNum n : or_else (Some (VNum n)) (VNum 0) = VNum n.
Proof. unfold or_else. simpl. destruct (Z.eqb_spec n 0); simpl; congruence. Qed.

(** The counters stay readable through [|| 0]: the constructor leaves
    them so, and [updateProgress] writes numbers. *)
Lemma updates_counters tracker us :
  StateTracker.normal_counter (StateTracker.state tracker) "totalProcessed" ->
  StateTracker.normal_counter (StateTracker.state tracker) "totalFailed" ->
  StateTracker.normal_counter
    (StateTracker.state (StateTracker.updates tracker us)) "totalProcessed" /\
  StateTracker.normal_counter
    (StateTracker.state (StateTracker.updates tracker us)) "totalFailed".
Proof.
  intros Hp Hf. induction us as [|u us _] using rev_ind; [split; assumption|].
  rewrite updates_snoc. simpl. split.
  - exists (VNum (StateTracker.u_processed u)). split; [|apply or_else_VNum].
    rewrite !lookup_insert_ne by discriminate. apply lookup_insert_eq.
  - exists (VNum (StateTracker.u_failed u)). split; [|apply or_else_VNum].
    rewrite lookup_insert_ne by discriminate. apply lookup_insert_eq.
Qed.

Lemma updates_fixed tracker us :
  StateTracker.totalItems (StateTracker.updates tracker us) = StateTracker.totalItems tracker /\
  StateTracker.startTime (StateTracker.updates tracker us) = StateTracker.startTime tracker.
Proof.
  induction us as [|u us IH] using rev_ind; [split; reflexivity|].
  rewrite updates_snoc. exact IH.
Qed.

End StateTrackerFacts.

(** X17. [updateProgress] writes the counters it is given and the
    fields of [additionalData], and nothing else.  After any sequence of
    calls the state holds the counters and the time of the last call
    (even when its [additionalData] names them) together with the other
    fields of its [additionalData]; a field that no call named (such as
    [startTime] and [startedAt]) is as it was before, and so are
    [totalItems] and the start of the tracker. *)
Theorem X17_updateProgress_keeps_other_fields :
  forall (tracker : StateTracker.t) (us : list StateTracker.update),
    let after := StateTracker.updates tracker us in
    StateTracker.totalItems after = StateTracker.totalItems tracker /\
    StateTracker.startTime after = StateTracker.startTime tracker /\
    (forall k,
        k ∉ counter_fields ->
        Forall (fun u => StateTracker.u_additionalData u !! k = None) us ->
        StateTracker.getState after !! k = StateTracker.getState tracker !! k) /\
    (forall us' u,
        us = us' ++ [u] ->
        StateTracker.getState after !! "totalProcessed"
          = Some (VNum (StateTracker.u_processed u)) /\
        StateTracker.getState after !! "totalFailed"
          = Some (VNum (StateTracker.u_failed u)) /\
        StateTracker.getState after !! "lastUpdated"
          = Some (VStr (StateTracker.u_lastUpdated u)) /\
        forall k x,
          k ∉ counter_fields -> StateTracker.u_additionalData u !! k = Some x ->
          StateTracker.getState after !! k = Some x).
Proof.
  intros tracker us after. subst after. unfold StateTracker.getState.
  destruct (updates_fixed tracker us) as [Hitems Hstart].
  split; [exact Hitems|]. split; [exact Hstart|]. split.
  - intros k Hk Hall. apply updates_untouched; assumption.
  - intros us' u ->. rewrite updates_snoc. split; [|split; [|split]].
    + simpl. rewrite !lookup_insert_ne by discriminate. apply lookup_insert_eq.
    + simpl. rewrite lookup_insert_ne by discriminate. apply lookup_insert_eq.
    + simpl. apply lookup_insert_eq.
    + intros k x Hk Hx. rewrite updateProgress_lookup, Hx by exact Hk. reflexivity.
Qed.

(** Two reports on a tracker resumed from an earlier state: the last
    counters, the field of the second report, and the caller's field and
    the start as they were. *)
Lemma X17_witness :
  let after := StateTracker.updates example_tracker example_updates in
  ("jobId" ∉ counter_fields) /\
  Forall (fun u => StateTracker.u_additionalData u !! "jobId" = None) example_updates /\
  StateTracker.getState after !! "jobId" = Some (VStr "nightly") /\
  StateTracker.getState after !! "totalProcessed" = Some (VNum 7) /\
  StateTracker.getState after !! "phase" = Some (VStr "second").
Proof.
  cbv zeta.
  assert (Hk : forall k, k = "jobId" \/ k = "phase" -> k ∉ counter_fields).
  { intros k Hk Hin. unfold counter_fields in Hin.
    repeat (apply elem_of_cons in Hin as [Hin|Hin]; [destruct Hk; congruence|]).
    inversion Hin. }
  assert (Hall : Forall (fun u => StateTracker.u_additionalData u !! "jobId" = None)
                   example_updates)
    by (repeat constructor).
  destruct (X17_updateProgress_keeps_other_fields example_tracker example_updates)
    as (_ & _ & Hkeep & Hlast).
  destruct (Hlast [StateTracker.Update 3 0 ∅ "T1"]
              (StateTracker.Update 7 1 (<["phase" := VStr "second"]> ∅) "T2") eq_refl)
    as (Hp & _ & _ & Hextra).
  split; [apply Hk; left; reflexivity|]. split; [exact Hall|].
  split; [|split; [exact Hp|]].
  - rewrite (Hkeep "jobId" (Hk _ (or_introl eq_refl)) Hall). reflexivity.
  - apply Hextra; [apply Hk; right; reflexivity | reflexivity].
Defined.

(** X18. A tracker made from the state of an earlier tracker takes
    over every field of that state but [lastUpdated]: the counters, the
    caller's fields, and the [startTime] and [startedAt] of the earlier
    tracker, provided that one was made at a time other than 0 with a
    [startedAt] that is not empty and that no [additionalData] named
    these two fields. *)
Theorem X18_tracker_resumes_from_its_state :
  forall (totalItems : Z) (initialState : State) (now : Z) (startedAt lastUpdated : string)
         (us : list StateTracker.update),
    now <> 0 -> startedAt <> "" ->
    Forall (fun u => StateTracker.u_additionalData u !! "startTime" = None /\
                     StateTracker.u_additionalData u !! "startedAt" = None) us ->
    let tracker :=
      StateTracker.updates
        (StateTracker.constructor totalItems initialState now startedAt lastUpdated) us in
    forall (totalItems' now' : Z) (startedAt' lastUpdated' : string) (k : string),
      k <> "lastUpdated" ->
      StateTracker.getState
        (StateTracker.constructor totalItems' (StateTracker.getState tracker)
           now' startedAt' lastUpdated') !! k
      = StateTracker.getState tracker !! k.
Proof.
  intros totalItems initialState now startedAt lastUpdated us Hnow Hstarted Hall tracker
    totalItems' now' startedAt' lastUpdated' k Hk.
  set (first := StateTracker.constructor totalItems initialState now startedAt lastUpdated)
    in tracker.
  assert (Hnot : forall k', k' = "startTime" \/ k' = "startedAt" -> k' ∉ counter_fields).
  { intros k' Hk' Hin. unfold counter_fields in Hin.
    repeat (apply elem_of_cons in Hin as [Hin|Hin]; [destruct Hk'; congruence|]).
    inversion Hin. }
  assert (Htime : StateTracker.state tracker !! "startTime"
                  = Some (or_else (initialState !! "startTime") (VNum now))).
  { unfold tracker. rewrite updates_untouched.
    - unfold first. simpl. rewrite !lookup_insert_ne by discriminate. apply lookup_insert_eq.
    - apply Hnot. left. reflexivity.
    - eapply Forall_impl; [exact Hall|]. intros u [H _]. exact H. }
  assert (Hat : StateTracker.state tracker !! "startedAt"
                = Some (or_else (initialState !! "startedAt") (VStr startedAt))).
  { unfold tracker. rewrite updates_untouched.
    - unfold first. simpl. rewrite lookup_insert_ne by discriminate. apply lookup_insert_eq.
    - apply Hnot. right. reflexivity.
    - eapply Forall_impl; [exact Hall|]. intros u [_ H]. exact H. }
  destruct (updates_counters first us) as [(p & Hp & Hp') (f & Hf & Hf')].
  { eexists. split; [|apply or_else_same]. unfold first. simpl.
    rewrite !lookup_insert_ne by discriminate. apply lookup_insert_eq. }
  { eexists. split; [|apply or_else_same]. unfold first. simpl.
    rewrite !lookup_insert_ne by discriminate. apply lookup_insert_eq. }
  fold tracker in Hp, Hf.
  unfold StateTracker.getState, StateTracker.constructor. simpl.
  rewrite lookup_insert_ne by congruence.
  destruct (decide (k = "startedAt")) as [->|Hk1].
  { rewrite lookup_insert_eq, Hat, or_else_kept; [reflexivity|].
    apply or_else_truthy. simpl. destruct (String.eqb_spec startedAt ""); [contradiction|reflexivity]. }
  rewrite lookup_insert_ne by congruence.
  destruct (decide (k = "startTime")) as [->|Hk2].
  { rewrite lookup_insert_eq, Htime, or_else_kept; [reflexivity|].
    apply or_else_truthy. simpl. destruct (Z.eqb_spec now 0); [contradiction|reflexivity]. }
  rewrite lookup_insert_ne by congruence.
  destruct (decide (k = "totalFailed")) as [->|Hk3].
  { rewrite lookup_insert_eq, Hf, Hf'. reflexivity. }
  rewrite lookup_insert_ne by congruence.
  destruct (decide (k = "totalProcessed")) as [->|Hk4].
  { rewrite lookup_insert_eq, Hp, Hp'. reflexivity. }
  rewrite lookup_insert_ne by congruence. reflexivity.
Qed.

(** The example tracker after its two reports, made anew at 9000 ms
    for twenty items: [startTime] is still 1000. *)
Lemma X18_witness :
  1000 <> 0 /\ "T0" <> "" /\
  Forall (fun u => StateTracker.u_additionalData u !! "startTime" = None /\
                   StateTracker.u_additionalData u !! "startedAt" = None) example_updates /\
  StateTracker.getState
    (StateTracker.constructor 20
       (StateTracker.getState (StateTracker.updates example_tracker example_updates))
       9000 "T9" "T9") !! "startTime"
  = Some (VNum 1000).
Proof.
  assert (Hnow : 1000 <> 0) by lia.
  assert (Hstarted : "T0" <> "") by discriminate.
  assert (Hall : Forall (fun u => StateTracker.u_additionalData u !! "startTime" = None /\
                                  StateTracker.u_additionalData u !! "startedAt" = None)
                   example_updates)
    by (repeat constructor).
  split; [exact Hnow|]. split; [exact Hstarted|]. split; [exact Hall|].
  unfold example_tracker.
  rewrite (X18_tracker_resumes_from_its_state 10 resumed_state 1000 "T0" "T0" example_updates
             Hnow Hstarted Hall 20 9000 "T9" "T9" "startTime" ltac:(discriminate)).
  reflexivity.
Defined.

(** ** Items counted once *)

(** X19. When [onItemSuccess] and [onStateUpdate] complete normally, a
    run of either driver that returns has counted every item exactly
    once: the two returned counters add up to their seeds plus the number
    of items (of the array, with a positive [batchSize]; of the pages
    fetched), and [failed] is its seed plus the number of
    [processFunction] calls that rejected. *)
Theorem X19_returning_run_counts_each_item_once :
  forall (T R : Type) (clock : nat -> string)
         (processFunction : T -> nat -> State -> settled R),
    (forall (items : list T) (options : BatchOptions.t T R),
       1 <= BatchOptions.batchSize options ->
       (forall item result n st,
           BatchOptions.onItemSuccess options item result n st = Completes) ->
       (forall st info, BatchOptions.onStateUpdate options st info = Completes) ->
       forall schedule res v,
         processBatches clock items processFunction options schedule = Finished res v ->
         processed res + failed res
         = num_or (BatchOptions.initialState options !! "totalProcessed") 0
           + num_or (BatchOptions.initialState options !! "totalFailed") 0
           + Z.of_nat (length items) /\
         failed res
         = num_or (BatchOptions.initialState options !! "totalFailed") 0
           + Z.of_nat (count (is_rejected_call processFunction) (trace v))) /\
    (forall (fetchPageFunction : Z -> State -> settled (PageData T))
            (options : PaginatedBatchOptions.t T R),
       (forall item result n st,
           PaginatedBatchOptions.onItemSuccess options item result n st = Completes) ->
       (forall st, PaginatedBatchOptions.onStateUpdate options st = Completes) ->
       forall schedule res v,
         processPaginatedBatches clock fetchPageFunction processFunction options schedule
           = PFinished res v ->
         processed res + failed res
         = num_or (PaginatedBatchOptions.initialState options !! "totalProcessed") 0
           + num_or (PaginatedBatchOptions.initialState options !! "totalFailed") 0
           + Z.of_nat (visited_items fetchPageFunction (trace v)) /\
         failed res
         = num_or (PaginatedBatchOptions.initialState options !! "totalFailed") 0
           + Z.of_nat (count (is_rejected_call processFunction) (trace v))).
Proof.
  intros T R clock processFunction. split.
  - intros items options Hbs Hsuccess Hupdate schedule res v Hrun.
    pose proof (run_account clock items processFunction options Hsuccess Hupdate
                  schedule Hbs) as Hacc.
    pose proof (run_tracked clock items processFunction options schedule) as Htr.
    pose proof (run_result _ _ _ _ _ _ _ Hrun) as Hres.
    rewrite Hrun in Hacc, Htr. destruct Hacc as [Hsum Hbal].
    destruct Htr as [_ _ _ Hf _]. simpl in Hf, Hbal.
    split; [exact Hsum|].
    subst res. simpl. rewrite Hf. unfold failed_after.
    rewrite Nat.add_0_r in Hbal. rewrite Hbal. reflexivity.
  - intros fetchPageFunction options Hsuccess Hupdate schedule res v Hrun.
    pose proof (prun_account clock fetchPageFunction processFunction options
                  Hsuccess Hupdate schedule) as Hacc.
    pose proof (prun_tracked clock fetchPageFunction processFunction options schedule) as Htr.
    pose proof (prun_result _ _ _ _ _ _ _ Hrun) as Hres.
    rewrite Hrun in Hacc, Htr. destruct Hacc as [Hsum Hbal].
    destruct Htr as [[_ _ _ Hf _] _]. simpl in Hf, Hbal.
    split; [exact Hsum|].
    subst res. simpl. rewrite Hf. unfold failed_after.
    rewrite Nat.add_0_r in Hbal. rewrite Hbal. reflexivity.
Qed.

(** Three rejections out of three items; three pages holding two items. *)
Lemma X19_witness :
  1 <= BatchOptions.batchSize small_batches /\
  (exists res v,
     processBatches example_clock [1; 2; 3]%nat always_rejects small_batches
       (replicate 19 0%nat) = Finished res v /\
     processed res + failed res
     = num_or (BatchOptions.initialState small_batches !! "totalProcessed") 0
       + num_or (BatchOptions.initialState small_batches !! "totalFailed") 0
       + Z.of_nat (length [1; 2; 3]%nat) /\
     failed res
     = num_or (BatchOptions.initialState small_batches !! "totalFailed") 0
       + Z.of_nat (count (is_rejected_call always_rejects) (trace v)) /\
     failed res = 3) /\
  exists res v,
    processPaginatedBatches example_clock sparse_pages always_succeeds paginated_defaults
      (replicate 12 0%nat) = PFinished res v /\
    processed res + failed res
    = num_or (PaginatedBatchOptions.initialState paginated_defaults !! "totalProcessed") 0
      + num_or (PaginatedBatchOptions.initialState paginated_defaults !! "totalFailed") 0
      + Z.of_nat (visited_items sparse_pages (trace v)) /\
    failed res
    = num_or (PaginatedBatchOptions.initialState paginated_defaults !! "totalFailed") 0
      + Z.of_nat (count (is_rejected_call always_succeeds) (trace v)) /\
    visited_items sparse_pages (trace v) = 2%nat.
Proof.
  assert (Hbs : 1 <= BatchOptions.batchSize small_batches) by (simpl; lia).
  destruct (X19_returning_run_counts_each_item_once nat unit example_clock always_rejects)
    as [Harray _].
  destruct (X19_returning_run_counts_each_item_once nat unit example_clock always_succeeds)
    as [_ Hpages].
  split; [exact Hbs|]. split.
  - specialize (Harray [1; 2; 3]%nat small_batches Hbs ltac:(reflexivity) ltac:(reflexivity)
                  (replicate 19 0%nat)).
    assert (Hfin : match processBatches example_clock [1; 2; 3]%nat always_rejects
                           small_batches (replicate 19 0%nat) with
                   | Finished res _ => failed res = 3
                   | _ => False
                   end)
      by (vm_compute; reflexivity).
    destruct (processBatches example_clock [1; 2; 3]%nat always_rejects small_batches
                (replicate 19 0%nat)) as [i v|i batch batchNumber r|res v|e v];
      try (exfalso; exact Hfin).
    destruct (Harray res v eq_refl) as [Hsum Hfailed].
    exists res, v. split; [reflexivity|]. split; [exact Hsum|]. split; [exact Hfailed|].
    exact Hfin.
  - specialize (Hpages sparse_pages paginated_defaults ltac:(reflexivity) ltac:(reflexivity)
                  (replicate 12 0%nat)).
    assert (Hfin : match processPaginatedBatches example_clock sparse_pages always_succeeds
                           paginated_defaults (replicate 12 0%nat) with
                   | PFinished _ v => visited_items sparse_pages (trace v) = 2%nat
                   | _ => False
                   end)
      by (vm_compute; reflexivity).
    destruct (processPaginatedBatches example_clock sparse_pages always_succeeds
                paginated_defaults (replicate 12 0%nat))
      as [page total v|page total its r|res v|e v]; try (exfalso; exact Hfin).
    destruct (Hpages res v eq_refl) as [Hsum Hfailed].
    exists res, v. split; [reflexivity|]. split; [exact Hsum|]. split; [exact Hfailed|].
    exact Hfin.
Defined.
